(** * useDownload: the caching downloader of src/hooks/useDownload.ts

    A shallow embedding of [hash_key], [internal], [download],
    [download_with_sha] and [pretty_size].  The file system, the logger
    and the network are made explicit: a download is a function from a
    [State] (files, directories, the trace of observable actions, the
    captured variables of [download_with_sha]) to a result and a new
    state. *)

From Stdlib Require Import ZArith Floats List Lia.
From Stdlib Require Import Strings.String Strings.Ascii Strings.Byte.
From stdpp Require Import gmap strings list fin_maps.

Local Open Scope string_scope.
Local Open Scope list_scope.
Local Open Scope Z_scope.

(* ===================================================================== *)
(** ** SHA-256 (deno/hash/sha256.ts)

    The source imports [Sha256] from Deno's standard library; the digest
    it computes is the one of FIPS 180-4, transcribed here on 32-bit
    words kept in [Z]. *)
(* ===================================================================== *)

Module Sha256.

Definition w32 (x : Z) : Z := Z.land x 0xFFFFFFFF.
Definition add32 (x y : Z) : Z := w32 (x + y).
Definition rotr (n x : Z) : Z :=
  Z.lor (Z.shiftr x n) (w32 (Z.shiftl x (32 - n))).
Definition Ch (x y z : Z) : Z :=
  Z.lxor (Z.land x y) (Z.land (w32 (Z.lnot x)) z).
Definition Maj (x y z : Z) : Z :=
  Z.lxor (Z.lxor (Z.land x y) (Z.land x z)) (Z.land y z).
Definition Sigma0 (x : Z) : Z :=
  Z.lxor (Z.lxor (rotr 2 x) (rotr 13 x)) (rotr 22 x).
Definition Sigma1 (x : Z) : Z :=
  Z.lxor (Z.lxor (rotr 6 x) (rotr 11 x)) (rotr 25 x).
Definition sigma0 (x : Z) : Z :=
  Z.lxor (Z.lxor (rotr 7 x) (rotr 18 x)) (Z.shiftr x 3).
Definition sigma1 (x : Z) : Z :=
  Z.lxor (Z.lxor (rotr 17 x) (rotr 19 x)) (Z.shiftr x 10).

(** The round constants: the first 32 bits of the fractional parts of the
    cube roots of the first 64 primes ([K_from_cube_roots] below checks
    the table against that definition). *)
Definition K : list Z :=
  [
    1116352408; 1899447441; 3049323471; 3921009573;
    961987163; 1508970993; 2453635748; 2870763221;
    3624381080; 310598401; 607225278; 1426881987;
    1925078388; 2162078206; 2614888103; 3248222580;
    3835390401; 4022224774; 264347078; 604807628;
    770255983; 1249150122; 1555081692; 1996064986;
    2554220882; 2821834349; 2952996808; 3210313671;
    3336571891; 3584528711; 113926993; 338241895;
    666307205; 773529912; 1294757372; 1396182291;
    1695183700; 1986661051; 2177026350; 2456956037;
    2730485921; 2820302411; 3259730800; 3345764771;
    3516065817; 3600352804; 4094571909; 275423344;
    430227734; 506948616; 659060556; 883997877;
    958139571; 1322822218; 1537002063; 1747873779;
    1955562222; 2024104815; 2227730452; 2361852424;
    2428436474; 2756734187; 3204031479; 3329325298 ].

(** The first 64 primes. *)
Definition primes64 : list Z :=
  [ 2; 3; 5; 7; 11; 13; 17; 19; 23; 29; 31; 37; 41; 43; 47; 53;
    59; 61; 67; 71; 73; 79; 83; 89; 97; 101; 103; 107; 109; 113; 127; 131;
    137; 139; 149; 151; 157; 163; 167; 173; 179; 181; 191; 193; 197; 199; 211; 223;
    227; 229; 233; 239; 241; 251; 257; 263; 269; 271; 277; 281; 283; 293; 307; 311 ].

(** [k] is the fractional part of the cube root of [p], on 32 bits: with
    [r] the integer part of the root, [r + k / 2^32] is the root cut after
    32 binary places. *)
Definition is_cube_root_fraction (p k : Z) : bool :=
  existsb (fun r => let x := r * 2 ^ 32 + k in
                    (0 <=? k) && (k <? 2 ^ 32) &&
                    (x ^ 3 <=? p * 2 ^ 96) && (p * 2 ^ 96 <? (x + 1) ^ 3))
          [1; 2; 3; 4; 5; 6; 7].

(** The low [n] bytes of [x], most significant first. *)
Fixpoint be_bytes (n : nat) (x : Z) : list Z :=
  match n with
  | O => []
  | S n' => Z.land (Z.shiftr x (8 * Z.of_nat n')) 0xFF :: be_bytes n' x
  end.

(** Padding: a 1 bit, zeros up to 56 mod 64, the bit length on 8 bytes. *)
Definition pad (msg : list Z) : list Z :=
  let len := Z.of_nat (length msg) in
  msg ++ [0x80] ++ repeat 0 (Z.to_nat ((55 - len) mod 64)) ++ be_bytes 8 (8 * len).

Fixpoint words (fuel : nat) (bs : list Z) : list Z :=
  match fuel, bs with
  | S f, b0 :: b1 :: b2 :: b3 :: rest =>
      (Z.shiftl b0 24 + Z.shiftl b1 16 + Z.shiftl b2 8 + b3) :: words f rest
  | _, _ => []
  end.

(** The message schedule, kept newest word first while it grows. *)
Fixpoint schedule (n : nat) (rev_w : list Z) : list Z :=
  match n with
  | O => rev_w
  | S n' =>
      let w2 := nth 1 rev_w 0 in
      let w7 := nth 6 rev_w 0 in
      let w15 := nth 14 rev_w 0 in
      let w16 := nth 15 rev_w 0 in
      schedule n' (add32 (add32 (sigma1 w2) w7) (add32 (sigma0 w15) w16) :: rev_w)
  end.

Record regs := Regs { ra : Z; rb : Z; rc : Z; rd : Z; re : Z; rf : Z; rg : Z; rh : Z }.

Definition round (r : regs) (kw : Z * Z) : regs :=
  let '(k, w) := kw in
  let t1 := add32 (add32 (add32 (rh r) (Sigma1 (re r)))
                         (add32 (Ch (re r) (rf r) (rg r)) k)) w in
  let t2 := add32 (Sigma0 (ra r)) (Maj (ra r) (rb r) (rc r)) in
  Regs (add32 t1 t2) (ra r) (rb r) (rc r) (add32 (rd r) t1) (re r) (rf r) (rg r).

Definition compress (h : regs) (block : list Z) : regs :=
  let w := rev (schedule 48 (rev block)) in
  let r := fold_left round (combine K w) h in
  Regs (add32 (ra h) (ra r)) (add32 (rb h) (rb r)) (add32 (rc h) (rc r))
       (add32 (rd h) (rd r)) (add32 (re h) (re r)) (add32 (rf h) (rf r))
       (add32 (rg h) (rg r)) (add32 (rh h) (rh r)).

Fixpoint blocks (fuel : nat) (ws : list Z) (h : regs) : regs :=
  match fuel, ws with
  | S f, _ :: _ => blocks f (skipn 16 ws) (compress h (firstn 16 ws))
  | _, _ => h
  end.

(** The initial hash value: the first 32 bits of the fractional parts of
    the square roots of the first 8 primes. *)
Definition init : regs :=
  Regs 0x6a09e667 0xbb67ae85 0x3c6ef372 0xa54ff53a
       0x510e527f 0x9b05688c 0x1f83d9ab 0x5be0cd19.

Definition square_root_fraction (p : Z) : Z := Z.sqrt (p * 2 ^ 64) mod 2 ^ 32.

Definition digest (msg : list byte) : list Z :=
  let p := pad (map (fun b => Z.of_N (Byte.to_N b)) msg) in
  let ws := words (length p) p in
  let r := blocks (length ws) ws init in
  flat_map (be_bytes 4) [ra r; rb r; rc r; rd r; re r; rf r; rg r; rh r].

Definition hex_digit (d : Z) : ascii :=
  ascii_of_nat (Z.to_nat (if d <? 10 then 48 + d else 87 + d)).

Fixpoint to_hex (bs : list Z) : string :=
  match bs with
  | [] => EmptyString
  | b :: bs' =>
      String (hex_digit (Z.shiftr b 4)) (String (hex_digit (Z.land b 15)) (to_hex bs'))
  end.

(** [new Sha256().update(bytes).hex()]: 64 lowercase hexadecimal digits. *)
Definition hex (msg : list byte) : string := to_hex (digest msg).

End Sha256.

(* ===================================================================== *)
(** ** Paths and URLs *)
(* ===================================================================== *)

(** JavaScript truthiness of a string: every string but the empty one. *)
Definition truthy (s : string) : bool :=
  match s with EmptyString => false | String _ _ => true end.

Module Path.

(** Modelled from the spec: the [Path] class (imported from "path",
    declared outside useDownload.ts).  The spec writes a cache path as
    [<cache-root>/<scheme>/<host>/<hash>] and the payload as
    [<CacheKey>/<basename-of-path>]: a path is the list of its components
    below the file-system root, [join] appends one component, [parent]
    drops the last one and [basename] is the last one. *)
Definition t : Type := list string.

Definition join (p : t) (component : string) : t := p ++ [component].
Definition parent (p : t) : t := List.removelast p.
Definition basename (p : t) : string := List.last p "".

Fixpoint split_slash (s : string) (cur : string) : list string :=
  match s with
  | EmptyString => [cur]
  | String c rest =>
      if Ascii.eqb c "/" then cur :: split_slash rest ""
      else split_slash rest (cur +:+ String c "")
  end.

(** [new Path(pathname)]: the non-empty components between slashes. *)
Definition of_string (s : string) : t :=
  List.filter truthy (split_slash s "").

Fixpoint to_string (p : t) : string :=
  match p with
  | [] => ""
  | c :: p' => "/" +:+ c +:+ to_string p'
  end.

(** A path and all its ancestors, the root included. *)
Fixpoint ancestors (p : t) : list t :=
  match p with
  | [] => [[]]
  | c :: p' => [] :: map (cons c) (ancestors p')
  end.

End Path.

(** A parsed URL.  The fields are the components; the getters below are
    the ones of the WHATWG [URL] object the source reads. *)
Record URL := mkURL {
  scheme : string;           (* "https" *)
  hostname : string;         (* "example.com" *)
  port : string;             (* "" when the default port is used *)
  pathname : string;         (* "/a/b.tar.gz" *)
  query : option string;     (* the text after "?", when there is one *)
  fragment : option string
}.

Definition protocol (u : URL) : string := scheme u +:+ ":".

Definition host (u : URL) : string :=
  if truthy (port u) then hostname u +:+ ":" +:+ port u else hostname u.

(** [url.search]: empty when the query is absent or empty, otherwise the
    query WITH its leading "?". *)
Definition search (u : URL) : string :=
  match query u with
  | Some q => if truthy q then "?" +:+ q else ""
  | None => ""
  end.

(** [src.path()]: the URL's pathname as a [Path]. *)
Definition url_path (u : URL) : Path.t := Path.of_string (pathname u).

(** [url.protocol.slice(0, -1)]: the string without its last character. *)
Fixpoint drop_last_char (s : string) : string :=
  match s with
  | EmptyString => EmptyString
  | String c EmptyString => EmptyString
  | String c rest => String c (drop_last_char rest)
  end.

(* ===================================================================== *)
(** ** JavaScript helpers *)
(* ===================================================================== *)

Definition is_space (c : ascii) : bool :=
  let n := N_of_ascii c in
  ((9 <=? n) && (n <=? 13))%N || (n =? 32)%N.

Fixpoint trim_start (s : string) : string :=
  match s with
  | String c rest => if is_space c then trim_start rest else s
  | EmptyString => s
  end.

(** The value of [c] as a digit in the given radix, if it is one. *)
Definition digit_value (radix : Z) (c : ascii) : option Z :=
  let n := Z.of_N (N_of_ascii c) in
  let v := if (48 <=? n) && (n <=? 57) then n - 48
           else if (97 <=? n) && (n <=? 122) then n - 87
           else if (65 <=? n) && (n <=? 90) then n - 55
           else radix in
  if v <? radix then Some v else None.

(** The longest prefix of digits, read in [radix]; [None] when it is empty. *)
Fixpoint parse_digits (radix : Z) (s : string) (acc : option Z) : option Z :=
  match s with
  | String c rest =>
      match digit_value radix c with
      | Some v => parse_digits radix rest (Some (radix * default 0 acc + v))
      | None => acc
      end
  | EmptyString => acc
  end.

(** A JavaScript number is an IEEE 754 binary64 value, here the kernel's
    [float].  [number n] is the double nearest to the integer [n]: [n]
    itself up to 2^53, which byte counts and sizes do not exceed. *)
Definition number (n : Z) : float :=
  SF2Prim (binary_normalize prec emax n 0 false).

(** [parseInt(s)] without a radix.  The digits give an integer, and the
    result is the double nearest to it with the sign read before them;
    NaN when there is no digit.  (Beyond twenty decimal digits an engine
    may read the further ones as zeros; the statements stay below 2^53.) *)
Definition parseInt (s : string) : float :=
  let s := trim_start s in
  let '(negative, s) :=
    match s with
    | String "-" rest => (true, rest)
    | String "+" rest => (false, rest)
    | _ => (false, s)
    end in
  let '(radix, s) :=
    match s with
    | String "0" (String "x" rest) => (16, rest)
    | String "0" (String "X" rest) => (16, rest)
    | _ => (10, s)
    end in
  match parse_digits radix s None with
  | Some v => if negative : bool then (- number v)%float else number v
  | None => nan
  end.

(** Modelled from the spec: [chuzzle] (imported from "utils", declared
    outside useDownload.ts).  The spec reads the declared size as the
    Content-Length "if present and parseable as a positive integer;
    otherwise treated as unknown size".  A double that is a positive
    integer is given as that integer. *)
Definition chuzzle (x : float) : option Z :=
  match Prim2SF x with
  | S754_finite false m e =>
      if 0 <=? e then Some (Z.pos m * 2 ^ e)
      else if Z.pos m mod 2 ^ (- e) =? 0 then Some (Z.pos m / 2 ^ (- e))
      else None
  | _ => None
  end.

(** [Math.round(x)]: the integer nearest to [x], a half going up.  A
    finite double is [m * 2^e] with a sign; NaN and the infinities, which
    the quotient of a count by a non-zero size never is, are given 0. *)
Definition Math_round (x : float) : Z :=
  match Prim2SF x with
  | S754_finite s m e =>
      let v := if s then Z.neg m else Z.pos m in
      if 0 <=? e then v * 2 ^ e
      else (2 * v + 2 ^ (- e)) / (2 * 2 ^ (- e))
  | _ => 0
  end.

(** [Math.round(n / sz * 100)], in double arithmetic as in the source. *)
Definition percent (n sz : Z) : Z :=
  Math_round (number n / number sz * number 100)%float.

(** [/(^|\.)github.com$/.test(host)].  The dot of "github.com" is not
    escaped in the source, so it stands for any character but a line
    terminator. *)
Definition is_line_terminator (c : ascii) : bool :=
  let n := N_of_ascii c in ((n =? 10) || (n =? 13))%N.

Definition github_suffix (s : string) : bool :=
  match s with
  | String "g" (String "i" (String "t" (String "h" (String "u" (String "b"
      (String c (String "c" (String "o" (String "m" EmptyString))))))))) =>
      negb (is_line_terminator c)
  | _ => false
  end.

Fixpoint github_host_from (at_start : bool) (s : string) : bool :=
  (at_start && github_suffix s) ||
  match s with
  | String c rest => github_host_from (Ascii.eqb c ".") rest
  | EmptyString => false
  end.

Definition github_host (h : string) : bool := github_host_from true h.

(* ===================================================================== *)
(** ** The world a download runs in *)
(* ===================================================================== *)

(** One call of [logger.replace].  A line is recorded by what it reports;
    [line_text] below gives its text. *)
Inductive LogLine :=
| LogQuerying
| LogDownloading (sz : option Z)
| LogCacheHit
| LogPercent (pc : Z)
| LogVerifying.

Inductive Event :=
| EvFetch (src : URL) (headers : gmap string string)
| EvOpen (p : Path.t)
| EvWrite (p : Path.t) (buf : list byte)
| EvWriteText (p : Path.t) (text : string)
| EvClose (p : Path.t)
| EvLog (line : LogLine).

(** A response body: the chunks the stream delivers, and whether it then
    ends in an error instead of closing. *)
Record Stream := mkStream {
  chunks : list (list byte);
  fails : bool
}.

(** A [Deno.Reader] as [copy] drives it: what the successive [read(b)] on
    the buffer [b] of [copy] return before the null that ends them, and
    whether a [read] throws instead of returning that null. *)
Record Reader := mkReader {
  reads : list (list byte);
  throws : bool
}.

Record Response := mkResponse {
  status : Z;
  rsp_headers : gmap string string;
  rsp_body : option Stream
}.

(** What the process reads but does not change. *)
Record Env := mkEnv {
  prefix_www : Path.t;                 (* usePrefix().www *)
  numpty : bool;                       (* useFlags().numpty *)
  GITHUB_TOKEN : option string;        (* Deno.env.get("GITHUB_TOKEN") *)
  CI : option string;                  (* Deno.env.get("CI") *)
  server : URL -> gmap string string -> option Response;
                                       (* fetch; None: the transport failed *)
  scheduler : list bool                (* whose turn it is among the two
                                          readers of a tee'd stream *)
}.

Record State := mkState {
  files : gmap (list string) (list byte);   (* regular files *)
  dirs : gset (list string);                (* directories *)
  trace : list Event;                       (* oldest first *)
  sha_digest : list byte;                   (* bytes fed to [digest] *)
  sha_run : bool                            (* [run] *)
}.

Definition set_files (f : gmap (list string) (list byte)) (s : State) : State :=
  mkState f (dirs s) (trace s) (sha_digest s) (sha_run s).
Definition set_dirs (d : gset (list string)) (s : State) : State :=
  mkState (files s) d (trace s) (sha_digest s) (sha_run s).
Definition emit (e : Event) (s : State) : State :=
  mkState (files s) (dirs s) (trace s ++ [e]) (sha_digest s) (sha_run s).
Definition set_digest (d : list byte) (s : State) : State :=
  mkState (files s) (dirs s) (trace s) d (sha_run s).
Definition set_run (b : bool) (s : State) : State :=
  mkState (files s) (dirs s) (trace s) (sha_digest s) b.

Inductive Error :=
| ErrFileScheme                          (* line 40: throw new Error() *)
| ErrStatus (code : Z) (src : URL)       (* line 88: `${rsp.status}: ${src}` *)
| ErrPanic                               (* panic() *)
| ErrTransport (src : URL)               (* fetch rejected *)
| ErrNotFound (p : Path.t)               (* Deno.open / read on a missing path *)
| ErrBadResource (p : Path.t)            (* write through a closed handle *)
| ErrStream.                             (* the body stream errored *)

Inductive Result (A : Type) :=
| Ok (a : A)
| Throw (e : Error).
Arguments Ok {A} a.
Arguments Throw {A} e.

(** Computations that read and change the state and may throw. *)
Definition M (A : Type) : Type := State -> Result A * State.

Definition ret {A} (a : A) : M A := fun s => (Ok a, s).
Definition throw {A} (e : Error) : M A := fun s => (Throw e, s).
Definition bind {A B} (m : M A) (k : A -> M B) : M B :=
  fun s => match m s with
           | (Ok a, s') => k a s'
           | (Throw e, s') => (Throw e, s')
           end.
(** [try { m } finally { fin }]. *)
Definition finally {A} (m : M A) (fin : M unit) : M A :=
  fun s => match m s with
           | (r, s') =>
               match fin s' with
               | (Ok _, s'') => (r, s'')
               | (Throw e, s'') => (Throw e, s'')
               end
           end.

#[global] Instance M_ret : MRet M := @ret.
#[global] Instance M_bind : MBind M := fun A B k m => bind m k.

Definition log (l : LogLine) : M unit := fun s => (Ok tt, emit (EvLog l) s).

(* ===================================================================== *)
(** ** File-system and network primitives *)
(* ===================================================================== *)

(** Modelled from the spec: [Path.isFile], [Path.isReadableFile],
    [Path.read], [Path.write] and [Path.mkpath] (methods of the imported
    [Path] class).  The spec has a baseline usable when "the marker file"
    and "the destination payload file" exist, has [writeBaseline]
    "overwrite the marker file with value", and has the cache directory
    "created (including parents) if absent". *)
Definition isFile (p : Path.t) : M bool :=
  fun s => (Ok (bool_decide (is_Some (files s !! p))), s).

Definition isReadableFile (p : Path.t) : M bool :=
  fun s => (Ok (bool_decide (is_Some (files s !! p))), s).

Definition read (p : Path.t) : M string :=
  fun s => match files s !! p with
           | Some bytes => (Ok (string_of_list_byte bytes), s)
           | None => (Throw (ErrNotFound p), s)
           end.

Definition write_text (p : Path.t) (text : string) : M unit :=
  fun s => (Ok tt, emit (EvWriteText p text)
                     (set_files (<[p := list_byte_of_string text]> (files s)) s)).

Definition mkpath (p : Path.t) : M Path.t :=
  fun s => (Ok p, set_dirs (dirs s ∪ list_to_set (Path.ancestors p)) s).

(** [Deno.open(p, {create: true, write: true, truncate: true})]: the
    directory of [p] must exist; the file is created or emptied. *)
Definition open_truncate (p : Path.t) : M unit :=
  fun s => if bool_decide (Path.parent p ∈ dirs s)
           then (Ok tt, emit (EvOpen p) (set_files (<[p := []]> (files s)) s))
           else (Throw (ErrNotFound p), s).

(** [Deno.open(p, {read: true})] read to the end. *)
Definition open_read (p : Path.t) : M (list byte) :=
  fun s => match files s !! p with
           | Some bytes => (Ok bytes, s)
           | None => (Throw (ErrNotFound p), s)
           end.

(** One [write] through the handle opened on [p]: the bytes are appended. *)
Definition write_chunk (p : Path.t) (buf : list byte) : M unit :=
  fun s => match files s !! p with
           | Some old => (Ok tt, emit (EvWrite p buf)
                                   (set_files (<[p := old ++ buf]> (files s)) s))
           | None => (Throw (ErrBadResource p), s)
           end.

Definition close (p : Path.t) : M unit :=
  fun s => (Ok tt, emit (EvClose p) s).

(** [fetch(src, {headers})]. *)
Definition fetch (env : Env) (src : URL) (headers : option (gmap string string))
  : M Response :=
  fun s => let h := default ∅ headers in
           match server env src h with
           | Some rsp => (Ok rsp, emit (EvFetch src h) s)
           | None => (Throw (ErrTransport src), emit (EvFetch src h) s)
           end.

(** [digest.update(buf)]: the digest object is the bytes it has been fed. *)
Definition digest_update (buf : list byte) : M unit :=
  fun s => (Ok tt, set_digest (sha_digest s ++ buf) s).

(* ===================================================================== *)
(** ** hash_key (lines 140-153) *)
(* ===================================================================== *)

(** Lines 141-144.  The text fed to the digest is a string of ASCII
    characters (a URL's pathname and search are percent-encoded), taken
    byte for byte. *)
Definition hash (url : URL) : string :=
  let formatted :=
    pathname url +:+ (if truthy (search url) then "?" +:+ search url else "") in
  Sha256.hex (list_byte_of_string formatted).

(** Lines 146-151: the path [hash_key] builds, before it is created. *)
Definition key_path (env : Env) (url : URL) : Path.t :=
  let prefix := prefix_www env in
  Path.join (Path.join (Path.join prefix (drop_last_char (protocol url)))
                       (hostname url))
            (hash url).

Definition hash_key (env : Env) (url : URL) : M Path.t :=
  mkpath (key_path env url).

(* ===================================================================== *)
(** ** internal (lines 25-93) *)
(* ===================================================================== *)

Record DownloadOptions := mkOptions {
  opt_src : URL;
  opt_dst : option Path.t;
  opt_headers : option (gmap string string);
  opt_ephemeral : option bool
}.

(** Truthiness of an optional boolean and of an optional string. *)
Definition truthy_flag (b : option bool) : bool := default false b.
Definition truthy_opt (s : option string) : bool :=
  match s with Some v => truthy v | None => false end.
(** Truthiness of an optional number: defined and not zero. *)
Definition truthy_num (n : option Z) : bool :=
  match n with Some v => negb (v =? 0) | None => false end.

(** Line 36: the marker [mtime_entry()] names, as a path. *)
Definition mtime_path (env : Env) (url : URL) : Path.t :=
  Path.join (key_path env url) "mtime".

(** [mtime_entry()].  [hash] memoises [hash_key(src)]; calling [hash_key]
    again gives the same path and leaves the directories as they are
    ([hash_key_again] below), so the memo is not represented. *)
Definition mtime_entry (env : Env) (src : URL) : M Path.t :=
  h ← hash_key env src; mret (Path.join h "mtime").

(** Line 39: [dst ??= hash().join(src.path().basename())]. *)
Definition internal_dst (env : Env) (opts : DownloadOptions) : M Path.t :=
  match opt_dst opts with
  | Some d => mret d
  | None =>
      h ← hash_key env (opt_src opts);
      mret (Path.join h (Path.basename (url_path (opt_src opts))))
  end.

(** Lines 42-48: the conditional header. *)
Definition internal_headers (env : Env) (opts : DownloadOptions) (dst : Path.t)
  : M (option (gmap string string)) :=
  conditional ←
    (if negb (truthy_flag (opt_ephemeral opts)) then
       m ← mtime_entry env (opt_src opts);
       is_file ← isFile m;
       if is_file : bool then isReadableFile dst else mret false
     else mret false);
  if conditional : bool then
    m ← mtime_entry env (opt_src opts);
    text ← read m;
    log LogQuerying;;
    mret (Some (<["If-Modified-Since" := text]> (default ∅ (opt_headers opts))))
  else
    log (LogDownloading None);;
    mret (opt_headers opts).

(** Lines 51-57: the token for GitHub hosts. *)
Definition internal_auth (env : Env) (src : URL)
    (headers : option (gmap string string)) : option (gmap string string) :=
  if github_host (host src) then
    match GITHUB_TOKEN env with
    | Some token =>
        if truthy token
        then Some (<["Authorization" := "bearer " +:+ token]> (default ∅ headers))
        else headers
    | None => headers
    end
  else headers.

(** Lines 75-77: the marker is written when the response has a
    Last-Modified header with a non-empty value. *)
Definition record_marker (env : Env) (src : URL) (rsp : Response) : M unit :=
  match rsp_headers rsp !! "Last-Modified" with
  | Some text =>
      if truthy text then m ← mtime_entry env src; write_text m text else mret tt
  | None => mret tt
  end.

(** Lines 61-90: the switch on the status. *)
Definition internal_status {T} (env : Env) (src : URL) (dst : Path.t)
    (rsp : Response) (body : Stream -> Path.t -> option Z -> M T) : M unit :=
  if status rsp =? 200 then
    let sz := chuzzle (parseInt (default "null" (rsp_headers rsp !! "Content-Length"))) in
    log (LogDownloading (if truthy_num sz then sz else None));;
    reader ← match rsp_body rsp with
             | Some r => mret r
             | None => throw ErrPanic
             end;
    open_truncate dst;;
    finally
      (mkpath (Path.parent dst);;
       body reader dst sz;;
       record_marker env src rsp)
      (close dst)
  else if status rsp =? 304 then
    log LogCacheHit
  else
    is_file ← isFile dst;
    if negb (numpty env) || negb is_file
    then throw (ErrStatus (status rsp) src)
    else mret tt.

(** The logger of the options is the trace; [console.verbose] (line 30)
    is left out.  When the caller passed a [headers] object the source
    updates it in place; the map handed to [fetch] is the same. *)
Definition internal {T} (env : Env) (opts : DownloadOptions)
    (body : Stream -> Path.t -> option Z -> M T) : M Path.t :=
  let src := opt_src opts in
  dst ← internal_dst env opts;
  if String.eqb (protocol src) "file:" then throw ErrFileScheme else
  headers ← internal_headers env opts dst;
  rsp ← fetch env src (internal_auth env src headers);
  internal_status env src dst rsp body;;
  mret dst.

(* ===================================================================== *)
(** ** download (lines 95-97) *)
(* ===================================================================== *)

(** The loop of [copy] onto the file opened on [dst]: one [write] for
    each read. *)
Fixpoint write_all (dst : Path.t) (cs : list (list byte)) : M unit :=
  match cs with
  | [] => mret tt
  | c :: cs' => write_chunk dst c;; write_all dst cs'
  end.

(** [copy] and [readerFromStreamReader] are imported (line 1) from
    deno/streams/conversion.ts; they are given as that module has them.
    [copy] reads into a buffer of DEFAULT_BUFFER_SIZE bytes, 32 KiB. *)
Definition bufSize : nat := (2 ^ 15)%nat.

(** A chunk handed out through a buffer of [bufSize] bytes: as many
    bytes as fit, then the rest at the next [read]. *)
Fixpoint slices (fuel : nat) (c : list byte) : list (list byte) :=
  match fuel, c with
  | S fuel', _ :: _ => take bufSize c :: slices fuel' (drop bufSize c)
  | _, _ => []
  end.

(** What [read] returns over the chunks of a stream: the reader takes a
    chunk when its own buffer is empty and hands it out [bufSize] bytes
    at a time; a chunk of no bytes leaves that buffer empty, which reads
    as the end, so that the rest of the stream is never looked at. *)
Fixpoint reader_reads (cs : list (list byte)) : list (list byte) :=
  match cs with
  | [] => []
  | [] :: _ => []
  | c :: cs' => slices (length c) c ++ reader_reads cs'
  end.

(** Whether reading ends at a chunk of no bytes. *)
Fixpoint reader_ends (cs : list (list byte)) : bool :=
  match cs with
  | [] => false
  | [] :: _ => true
  | _ :: cs' => reader_ends cs'
  end.

(** [readerFromStreamReader(src.getReader())], read by [copy].  The
    error of the stream comes after its chunks, and is met only by a
    reader that gets that far. *)
Definition readerFromStreamReader (src : Stream) : Reader :=
  mkReader (reader_reads (chunks src))
           (fails src && negb (reader_ends (chunks src))).

(** [copy(src, dst)] onto the file opened on [dst]: each [read] is
    written; an error of the reader is rethrown. *)
Definition copy (src : Reader) (dst : Path.t) : M unit :=
  write_all dst (reads src);;
  if throws src then throw ErrStream else mret tt.

Definition download (env : Env) (opts : DownloadOptions) : M Path.t :=
  internal env opts (fun src dst _ => copy (readerFromStreamReader src) dst).

(* ===================================================================== *)
(** ** download_with_sha (lines 99-138) *)
(* ===================================================================== *)

(** The [write] callback of the second copy (lines 114-123), called with
    each read; [n] is the byte count kept by the enclosing closure,
    returned updated. *)
Definition on_chunk (env : Env) (sz : option Z) (n : Z) (buf : list byte) : M Z :=
  digest_update buf;;
  if truthy_num sz && negb (truthy_opt (CI env)) then
    let n := n + Z.of_nat (length buf) in
    let pc := percent n (default 0 sz) in
    log (LogPercent pc);;
    mret n
  else mret n.

(** [copy(src, {write})] of line 114 over the reads [cs]. *)
Fixpoint hash_all (env : Env) (sz : option Z) (n : Z) (cs : list (list byte)) : M unit :=
  match cs with
  | [] => mret tt
  | c :: cs' => n' ← on_chunk env sz n c; hash_all env sz n' cs'
  end.

(** [Promise.all([p1, p2])] over the two halves of [src.tee()], each
    behind its own reader and [copy].  The two halves deliver the same
    chunks, so both copies get the same reads [r1] and [r2] in the same
    order; [sched] says which of them runs next ([true]: the copy to
    [dst], [false]: the digest).  A copy with nothing left skips its
    turn.  When the schedule is used up, a reading that ends in the error
    of the stream rejects the whole, and otherwise what remains is run to
    completion. *)
Fixpoint tee_copy (env : Env) (sz : option Z) (dst : Path.t) (sched : list bool)
    (failing : bool) (r1 r2 : list (list byte)) (n : Z) : M unit :=
  match sched with
  | [] =>
      if failing then throw ErrStream
      else write_all dst r1;; hash_all env sz n r2
  | true :: sched' =>
      match r1 with
      | [] => tee_copy env sz dst sched' failing r1 r2 n
      | c :: r1' => write_chunk dst c;; tee_copy env sz dst sched' failing r1' r2 n
      end
  | false :: sched' =>
      match r2 with
      | [] => tee_copy env sz dst sched' failing r1 r2 n
      | c :: r2' => n' ← on_chunk env sz n c; tee_copy env sz dst sched' failing r1 r2' n'
      end
  end.

(** The two variables captured by the closure handed to [internal]. *)
Definition new_digest : M unit :=
  fun s => (Ok tt, set_run false (set_digest [] s)).
Definition mark_run : M unit := fun s => (Ok tt, set_run true s).
Definition get_run : M bool := fun s => (Ok (sha_run s), s).
Definition digest_hex : M string := fun s => (Ok (Sha256.hex (sha_digest s)), s).

(** The closure of lines 108-125. *)
Definition sha_body (env : Env) : Stream -> Path.t -> option Z -> M unit :=
  fun src dst sz =>
    mark_run;;
    let tee := readerFromStreamReader src in
    tee_copy env sz dst (scheduler env) (throws tee) (reads tee) (reads tee) 0.

(** Lines 99-138.  When the body was not run (lines 127-135) the file is
    read to its end and fed to the digest; [copy] does so in several
    reads, which for the digest is the same as feeding it the whole. *)
Definition download_with_sha (env : Env) (opts : DownloadOptions)
  : M (Path.t * string) :=
  new_digest;;
  path ← internal env opts (sha_body env);
  run ← get_run;
  (if negb run then
     log LogVerifying;;
     bytes ← open_read path;
     digest_update bytes
   else mret tt);;
  sha ← digest_hex;
  mret (path, sha).

(* ===================================================================== *)
(** ** Vocabulary of the statements *)
(* ===================================================================== *)

(** What the copies of a call take from a body, and whether they end in
    its error. *)
Definition taken (st : Stream) : list (list byte) := reads (readerFromStreamReader st).
Definition broken (st : Stream) : bool := throws (readerFromStreamReader st).

(** The destination a call resolves to (line 39). *)
Definition dst_path (env : Env) (opts : DownloadOptions) : Path.t :=
  default (Path.join (key_path env (opt_src opts))
                     (Path.basename (url_path (opt_src opts))))
          (opt_dst opts).

(** The condition of line 42 on the files of a state. *)
Definition usable_baseline (env : Env) (opts : DownloadOptions) (s : State) : bool :=
  bool_decide (is_Some (files s !! mtime_path env (opt_src opts))) &&
  bool_decide (is_Some (files s !! dst_path env opts)).

Definition conditional (env : Env) (opts : DownloadOptions) (s : State) : bool :=
  negb (truthy_flag (opt_ephemeral opts)) && usable_baseline env opts s.

(** The text of the marker, as [mtime_entry().read()] returns it. *)
Definition baseline (env : Env) (opts : DownloadOptions) (s : State) : string :=
  match files s !! mtime_path env (opt_src opts) with
  | Some bytes => string_of_list_byte bytes
  | None => ""
  end.

(** The headers given to [fetch] by a call started in state [s]. *)
Definition request_headers (env : Env) (opts : DownloadOptions) (s : State)
  : gmap string string :=
  default ∅
    (internal_auth env (opt_src opts)
       (if conditional env opts s
        then Some (<["If-Modified-Since" := baseline env opts s]>
                     (default ∅ (opt_headers opts)))
        else opt_headers opts)).

(** The declared size of a response (line 63). *)
Definition declared_size (rsp : Response) : option Z :=
  chuzzle (parseInt (default "null" (rsp_headers rsp !! "Content-Length"))).

(** Projections of a trace. *)
Definition fetches (t : list Event) : list (URL * gmap string string) :=
  omap (fun e => match e with EvFetch u h => Some (u, h) | _ => None end) t.

Definition percents (t : list Event) : list Z :=
  omap (fun e => match e with EvLog (LogPercent pc) => Some pc | _ => None end) t.

Definition writes (t : list Event) : list (Path.t * list byte) :=
  omap (fun e => match e with EvWrite p b => Some (p, b) | _ => None end) t.

Definition text_writes (t : list Event) : list (Path.t * string) :=
  omap (fun e => match e with EvWriteText p x => Some (p, x) | _ => None end) t.

(** The running byte counts after each of the reads [cs], starting from
    [n]. *)
Fixpoint byte_counts (n : Z) (cs : list (list byte)) : list Z :=
  match cs with
  | [] => []
  | c :: cs' =>
      let n' := n + Z.of_nat (length c) in
      n' :: byte_counts n' cs'
  end.

(** [s'] is [s] after the events [t], with the files untouched. *)
Definition quiet (s s' : State) (t : list Event) : Prop :=
  files s' = files s /\ dirs s ⊆ dirs s' /\ trace s' = trace s ++ t /\
  sha_digest s' = sha_digest s /\ sha_run s' = sha_run s.

(** The line the logger shows before the request (lines 45 and 47). *)
Definition request_line (env : Env) (opts : DownloadOptions) (s : State) : LogLine :=
  if conditional env opts s then LogQuerying else LogDownloading None.

Arguments hash : simpl never.
Arguments key_path : simpl never.
Arguments mtime_path : simpl never.
Arguments dst_path : simpl never.
Arguments Sha256.hex : simpl never.
Arguments percent : simpl never.
Arguments M_bind : simpl never.
Arguments M_ret : simpl never.
Arguments throw : simpl never.
Arguments finally : simpl never.
Arguments log : simpl never.
Arguments isFile : simpl never.
Arguments isReadableFile : simpl never.
Arguments read : simpl never.
Arguments write_text : simpl never.
Arguments mkpath : simpl never.
Arguments open_truncate : simpl never.
Arguments open_read : simpl never.
Arguments write_chunk : simpl never.
Arguments close : simpl never.
Arguments fetch : simpl never.
Arguments digest_update : simpl never.
Arguments hash_key : simpl never.
Arguments mtime_entry : simpl never.
Arguments internal_dst : simpl never.
Arguments internal_headers : simpl never.
Arguments internal_status : simpl never.
Arguments record_marker : simpl never.
Arguments declared_size : simpl never.
Arguments bufSize : simpl never.
Arguments readerFromStreamReader : simpl never.
Arguments taken : simpl never.
Arguments broken : simpl never.
Arguments internal : simpl never.
Arguments on_chunk : simpl never.
Arguments new_digest : simpl never.
Arguments mark_run : simpl never.
Arguments get_run : simpl never.
Arguments digest_hex : simpl never.

(** The percentage of [n] in [sz] rounded from the exact quotient, a half
    going up.  The double computation of [percent] gives the same integer
    unless the exact percentage lies within the rounding error of a half
    (see [binary64_ties_at_1000]). *)
Definition percent_exact (n sz : Z) : Z := (200 * n + sz) / (2 * sz).

(** The percentages the second copy shows for the reads [cs], the count
    standing at [n] (lines 117-121). *)
Definition progress (env : Env) (sz : option Z) (n : Z) (cs : list (list byte)) : list Z :=
  if truthy_num sz && negb (truthy_opt (CI env))
  then map (fun k => percent k (default 0 sz)) (byte_counts n cs)
  else [].

(** What the two copies of a tee'd stream have done to [s] when they
    have taken the reads [w] (to the file [dst], which held [old]) and
    [h] (to the digest), leaving the events [t]. *)
Definition tee_outcome (env : Env) (sz : option Z) (dst : Path.t) (n : Z)
    (old : list byte) (s s' : State) (t : list Event) (w h : list (list byte)) : Prop :=
  files s' = <[dst := old ++ concat w]> (files s) /\ dirs s' = dirs s /\
  trace s' = trace s ++ t /\
  sha_digest s' = sha_digest s ++ concat h /\ sha_run s' = sha_run s /\
  writes t = map (pair dst) w /\ percents t = progress env sz n h /\
  fetches t = [] /\ text_writes t = [].

(** A computation that only adds events to the trace, none of them a
    request. *)
Definition no_fetch {A} (m : M A) : Prop :=
  forall s, exists t, trace (snd (m s)) = trace s ++ t /\ fetches t = [].

(** The text [record_marker] stores for a response, if any. *)
Definition marker_text (rsp : Response) : option string :=
  match rsp_headers rsp !! "Last-Modified" with
  | Some text => if truthy text then Some text else None
  | None => None
  end.

(** The state [record_marker] leaves. *)
Definition marked (env : Env) (src : URL) (rsp : Response) (s : State) : State :=
  match marker_text rsp with
  | Some text =>
      emit (EvWriteText (mtime_path env src) text)
        (set_files (<[mtime_path env src := list_byte_of_string text]> (files s))
           (set_dirs (dirs s ∪ list_to_set (Path.ancestors (key_path env src))) s))
  | None => s
  end.

(** [Deno.open] of the destination will find its directory: the default
    destination lies in the cache directory, which [hash_key] makes. *)
Definition openable (env : Env) (opts : DownloadOptions) (s : State) : Prop :=
  opt_dst opts = None \/ Path.parent (dst_path env opts) ∈ dirs s.

(** The marker text a 200 response ends up recording: none when the
    copies ended in the error of the body. *)
Definition recorded (rsp : Response) (st : Stream) : option string :=
  if broken st then None else marker_text rsp.

Definition marker_events (env : Env) (src : URL) (m : option string) : list Event :=
  match m with
  | Some text => [EvWriteText (mtime_path env src) text]
  | None => []
  end.

Definition with_marker (env : Env) (src : URL) (m : option string)
    (f : gmap (list string) (list byte)) : gmap (list string) (list byte) :=
  match m with
  | Some text => <[mtime_path env src := list_byte_of_string text]> f
  | None => f
  end.

(** The events of a call up to the moment the body callback starts. *)
Definition opening (env : Env) (opts : DownloadOptions) (s : State) (rsp : Response)
  : list Event :=
  [EvLog (request_line env opts s);
   EvFetch (opt_src opts) (request_headers env opts s);
   EvLog (LogDownloading (declared_size rsp));
   EvOpen (dst_path env opts)].

(* ===================================================================== *)
(** ** Concrete calls used to exercise the statements *)
(* ===================================================================== *)

Module Example.

(** https://example.com/a/b.tar.gz?v=2 *)
Definition url : URL :=
  mkURL "https" "example.com" "" "/a/b.tar.gz" (Some "v=2") None.

(** https://example.com/pkg/mtime : a payload named like the marker. *)
Definition url_mtime : URL :=
  mkURL "https" "example.com" "" "/pkg/mtime" None None.

Definition root : Path.t := ["opt"; "tea.xyz"; "var"; "www"].

Definition last_modified : string := "Wed, 21 Oct 2015 07:28:00 GMT".

Definition bytes (s : string) : list byte := list_byte_of_string s.

Definition env (permissive : bool) (rsp : Response) (sched : list bool) : Env :=
  mkEnv root permissive None None (fun _ _ => Some rsp) sched.

Definition opts (u : URL) (ephemeral : option bool) : DownloadOptions :=
  mkOptions u None None ephemeral.

Definition empty : State := mkState ∅ ∅ [] [] false.

(** A state in which [u] has been downloaded before: payload and marker. *)
Definition cached (u : URL) (payload : string) : State :=
  let e := env false (mkResponse 304 ∅ None) [] in
  mkState (<[mtime_path e u := bytes last_modified]>
             (<[dst_path e (opts u None) := bytes payload]> ∅))
          (list_to_set (Path.ancestors (key_path e u))) [] [] false.

Definition rsp_304 : Response := mkResponse 304 ∅ None.
Definition rsp_500 : Response := mkResponse 500 ∅ None.

Definition rsp_200 (length : string) (modified : option string)
    (cs : list string) (failing : bool) : Response :=
  mkResponse 200
    (let h := <["Content-Length" := length]> ∅ in
     match modified with Some m => <["Last-Modified" := m]> h | None => h end)
    (Some (mkStream (map bytes cs) failing)).

End Example.

(* ===================================================================== *)
(** ** pretty_size (lines 159-168) and the text of the log *)
(* ===================================================================== *)

(** The character of a decimal digit. *)
Definition digit_char (r : Z) : ascii := ascii_of_nat (Z.to_nat (48 + r)).

(** The decimal digits of a natural number, most significant first, put
    before [acc].  [fuel] bounds the number of digits after the first. *)
Fixpoint decimal_digits (fuel : nat) (n : Z) (acc : string) : string :=
  let acc := String (digit_char (n mod 10)) acc in
  match fuel with
  | O => acc
  | S fuel' => if n / 10 =? 0 then acc else decimal_digits fuel' (n / 10) acc
  end.

(** An integer written in decimal, as [String(n)] writes one. *)
Definition decimal (n : Z) : string :=
  if n <? 0 then "-" +:+ decimal_digits (Z.to_nat (Z.log2 (- n))) (- n) ""
  else decimal_digits (Z.to_nat (Z.log2 n)) n "".

Fixpoint zeros (n : nat) : string :=
  match n with O => "" | S n' => String "0" (zeros n') end.

(** Steps 11.b-c of [Number.prototype.toFixed]: the digits of [n] with a
    point before the last [f] of them, zeros added in front as needed. *)
Definition fixed_digits (n : Z) (f : nat) : string :=
  let m := decimal n in
  match f with
  | O => m
  | S _ =>
      let m := if (String.length m <=? f)%nat
               then zeros (S f - String.length m) +:+ m else m in
      let k := String.length m in
      substring 0 (k - f) m +:+ "." +:+ substring (k - f) f m
  end.

(** The integer nearest to [m * 2^e * 10^f], a half going up (step 11.a). *)
Definition scaled (m : positive) (e : Z) (f : nat) : Z :=
  let v := Z.pos m * 10 ^ Z.of_nat f in
  if 0 <=? e then v * 2 ^ e else (2 * v + 2 ^ (- e)) / (2 * 2 ^ (- e)).

(** [10^21 <= m * 2^e] (step 10). *)
Definition at_least_1e21 (m : positive) (e : Z) : bool :=
  if 0 <=? e then 10 ^ 21 <=? Z.pos m * 2 ^ e else 10 ^ 21 * 2 ^ (- e) <=? Z.pos m.

(** [Number::toString] of a double [x] holding an integer [v >= 10^21]:
    the fewest digits [s] such that [s * 10^p] rounds to [x] (of two such
    numbers the one nearer to [v], the even one on a tie), written
    [d.ddde+n]. *)
Definition rounds_to (x : spec_float) (c p : Z) : bool :=
  match SFcompare (binary_normalize prec emax (c * 10 ^ p) 0 false) x with
  | Some Eq => true
  | _ => false
  end.

Fixpoint shortest (fuel : nat) (k : Z) (digits : Z) (v : Z) (x : spec_float) : Z * Z :=
  let p := digits - k in
  let lo := v / 10 ^ p in
  let hi := lo + 1 in
  let ok_lo := rounds_to x lo p in
  let ok_hi := rounds_to x hi p in
  let nearer_lo := 2 * (v mod 10 ^ p) <? 10 ^ p in
  let tie := 2 * (v mod 10 ^ p) =? 10 ^ p in
  if ok_lo && (negb ok_hi || nearer_lo || (tie && Z.even lo)) then (lo, p)
  else if ok_hi then (if hi mod 10 =? 0 then (hi / 10, p + 1) else (hi, p))
  else match fuel with
       | O => (v, 0)
       | S fuel' => shortest fuel' (k + 1) digits v x
       end.

Definition exponent_notation (m : positive) (e : Z) : string :=
  let v := Z.pos m * 2 ^ e in
  let digits := Z.of_nat (String.length (decimal v)) in
  let '(s, p) := shortest 20 1 digits v (S754_finite false m e) in
  let ds := decimal s in
  let n := Z.of_nat (String.length ds) + p in
  match ds with
  | String d EmptyString => String d "" +:+ "e+" +:+ decimal (n - 1)
  | String d rest => String d "" +:+ "." +:+ rest +:+ "e+" +:+ decimal (n - 1)
  | EmptyString => ""
  end.

(** [x.toFixed(f)] for [0 <= f <= 100]. *)
Definition toFixed (x : float) (f : nat) : string :=
  match Prim2SF x with
  | S754_nan => "NaN"
  | S754_infinity s => if s then "-Infinity" else "Infinity"
  | S754_zero _ => fixed_digits 0 f
  | S754_finite s m e =>
      (if s then "-" else "") +:+
      (if at_least_1e21 m e then exponent_notation m e
       else fixed_digits (scaled m e f) f)
  end.

(** [`${pc}`] for a double holding the integer [z]. *)
Definition integer_text (z : Z) : string :=
  if Z.abs z <? 10 ^ 21 then decimal z
  else match Prim2SF (number z) with
       | S754_finite s m e => (if s then "-" else "") +:+ exponent_notation m e
       | S754_infinity s => if s then "-Infinity" else "Infinity"
       | _ => "NaN"
       end.

Definition units : list string := ["B"; "KiB"; "MiB"; "GiB"; "TiB"].

(** The loop of lines 162-165.  It runs at most [length units - 1] times
    ([pretty_loop_stops] below), within the [fuel] it is given. *)
Fixpoint pretty_loop (fuel : nat) (n : float) (i : nat) : float * nat :=
  match fuel with
  | O => (n, i)
  | S fuel' =>
      if (1024 <? n)%float && (i <? length units - 1)%nat
      then pretty_loop fuel' (n / 1024)%float (S i)
      else (n, i)
  end.

Definition pretty_size (n : float) : string :=
  let '(n, i) := pretty_loop (length units) n 0 in
  let precision := if (n <? 10)%float then 2%nat
                   else if (n <? 100)%float then 1%nat else 0%nat in
  toFixed n precision +:+ " " +:+ nth i units "undefined".

(** The text handed to [logger.replace], without the colour codes that
    [teal] and [gray] put around their arguments (lines 45, 47, 65-67,
    84, 120 and 128). *)
Definition line_text (l : LogLine) : string :=
  match l with
  | LogQuerying => "querying"
  | LogDownloading None => "downloading"
  | LogDownloading (Some sz) => "downloading " +:+ pretty_size (number sz)
  | LogCacheHit => "cache: hit"
  | LogPercent pc => "downloading " +:+ integer_text pc +:+ "%"
  | LogVerifying => "verifying"
  end.

(* ===================================================================== *)
(** ** Vocabulary of the further statements *)
(* ===================================================================== *)

(** The last character of a string. *)
Fixpoint last_char (s : string) : option ascii :=
  match s with
  | EmptyString => None
  | String c EmptyString => Some c
  | String _ rest => last_char rest
  end.

(** A URL's port, when it is given, is a string of decimal digits. *)
Definition is_decimal_digit (c : ascii) : bool :=
  let n := N_of_ascii c in ((48 <=? n) && (n <=? 57))%N.
Definition is_port (s : string) : bool :=
  truthy s && forallb is_decimal_digit (list_ascii_of_string s).

(** A lowercase hexadecimal digit. *)
Definition is_lower_hex (c : ascii) : bool :=
  let n := N_of_ascii c in
  (((48 <=? n) && (n <=? 57)) || ((97 <=? n) && (n <=? 102)))%N.

(** The directories a call makes before its request: [hash()] runs for the
    default destination (line 39) and for the marker test of a call that
    is not ephemeral (line 42). *)
Definition made_dirs (env : Env) (opts : DownloadOptions) : gset (list string) :=
  if bool_decide (opt_dst opts = None) || negb (truthy_flag (opt_ephemeral opts))
  then list_to_set (Path.ancestors (key_path env (opt_src opts)))
  else ∅.

(** The state in which the response of a call started in [s] arrives. *)
Definition sent (env : Env) (opts : DownloadOptions) (s : State) : State :=
  emit (EvFetch (opt_src opts) (request_headers env opts s))
    (emit (EvLog (request_line env opts s))
       (set_dirs (dirs s ∪ made_dirs env opts) s)).

(** The same process under another interleaving of the two readers. *)
Definition with_scheduler (env : Env) (sched : list bool) : Env :=
  mkEnv (prefix_www env) (numpty env) (GITHUB_TOKEN env) (CI env) (server env) sched.

(** A double with 53 bits of mantissa whose value is [sz / 1024^i]. *)
Definition holds (x : float) (sz : Z) (i : Z) : Prop :=
  exists m e,
    Prim2SF x = S754_finite false m e /\ digits2_pos m = 53%positive /\
    -52 <= e + 10 * i <= 0 /\ Z.pos m = sz * 2 ^ (- (e + 10 * i)).

(** The loop of [pretty_size] on the integer size: the index it ends on. *)
Fixpoint unit_of (fuel : nat) (sz : Z) (i : nat) : nat :=
  match fuel with
  | O => i
  | S fuel' =>
      if (1024 ^ Z.of_nat (S i) <? sz) && (i <? length units - 1)%nat
      then unit_of fuel' sz (S i)
      else i
  end.

(** [pretty_size] in exact arithmetic.  The unit is the first whose range
    holds the size, a range ending at the power of 1024 itself, and TiB
    beyond; the number is the size in that unit, rounded to two decimals
    below 10, one below 100 and none from there, a half going up. *)
Definition unit_index (sz : Z) : nat :=
  if sz <=? 1024 then 0
  else if sz <=? 1024 ^ 2 then 1
  else if sz <=? 1024 ^ 3 then 2
  else if sz <=? 1024 ^ 4 then 3
  else 4.

Definition pretty_spec_at (i : nat) (sz : Z) : string :=
  let d := 1024 ^ Z.of_nat i in
  let f := if sz <? 10 * d then 2%nat else if sz <? 100 * d then 1%nat else 0%nat in
  fixed_digits ((2 * sz * 10 ^ Z.of_nat f + d) / (2 * d)) f +:+ " " +:+
  nth i units "undefined".

Definition pretty_spec (sz : Z) : string := pretty_spec_at (unit_index sz) sz.

Module Cases.

(** file:///tmp/payload.bin *)
Definition url_file : URL := mkURL "file" "" "" "/tmp/payload.bin" None None.

(** https://api.github.com/repos/o/r/tarball *)
Definition url_github : URL :=
  mkURL "https" "api.github.com" "" "/repos/o/r/tarball" None None.

(** https://github.com:8443/o/r/archive/main.tar.gz *)
Definition url_github_port : URL :=
  mkURL "https" "github.com" "8443" "/o/r/archive/main.tar.gz" None None.

(** https://example.com:8443/a/b.tar.gz?v=2#readme *)
Definition url_port : URL :=
  mkURL "https" "example.com" "8443" "/a/b.tar.gz" (Some "v=2") (Some "readme").

Definition env_token (rsp : Response) : Env :=
  mkEnv Example.root false (Some "s3cr3t") None (fun _ _ => Some rsp) [].

Definition env_ci (rsp : Response) (sched : list bool) : Env :=
  mkEnv Example.root false None (Some "true") (fun _ _ => Some rsp) sched.

Definition env_offline : Env :=
  mkEnv Example.root false None None (fun _ _ => None) [].

End Cases.

(* ===================================================================== *)
(** ** Vocabulary of the double arithmetic *)
(* ===================================================================== *)

(** [n / d] rounded to the nearest integer, a half going to the even
    one: the rounding of the double operations. *)
Definition rne (n d : Z) : Z :=
  match 2 * (n mod d) ?= d with
  | Lt => n / d
  | Eq => if Z.even (n / d) then n / d else n / d + 1
  | Gt => n / d + 1
  end.

(** Where [n / d] lies between its integer part and the next integer. *)
Definition location_of (n d : Z) : location :=
  if n mod d =? 0 then loc_Exact else loc_Inexact (2 * (n mod d) ?= d).

(** The record of a right shift stands for [n / d]. *)
Definition located (n d : Z) (mrs : shr_record) : Prop :=
  shr_m mrs = n / d /\ loc_of_shr_record mrs = location_of n d.

(** A positive double as an integer: its value times 2^1074. *)
Definition weight (x : float) : Z :=
  match Prim2SF x with
  | S754_finite false m e => Z.pos m * 2 ^ (e + 1074)
  | _ => 0
  end.

(** [w], the weight of a double, is the quotient [a / b] rounded to 53
    bits: [a / b] is [n / d * 2^e] with [n / d] between 2^52 and 2^53, and
    [w] comes from rounding [n / d] to an integer. *)
Definition rounded (w a b : Z) : Prop :=
  exists n d e,
    0 < d /\ 2 ^ 52 * d <= n < 2 ^ 53 * d /\ -1074 <= e /\
    w = rne n d * 2 ^ (e + 1074) /\
    n * 2 ^ (e + 1074) * b = a * 2 ^ 1074 * d.

(** A positive double of 53 bits whose exponent is at most [r] away from
    zero: far from overflow and underflow when [r] is small. *)
Definition normal (r : Z) (x : float) : Prop :=
  exists m e,
    Prim2SF x = S754_finite false m e /\ digits2_pos m = 53%positive /\
    - r <= e <= r.

(* ===================================================================== *)
(** ** SHA-256: the constants and the standard test vectors *)
(* ===================================================================== *)

Lemma K_from_cube_roots :
  length Sha256.K = 64%nat /\
  forallb (fun pk => Sha256.is_cube_root_fraction (fst pk) (snd pk))
          (combine Sha256.primes64 Sha256.K) = true.
Proof. split; vm_compute; reflexivity. Qed.

Lemma init_from_square_roots :
  map Sha256.square_root_fraction [2; 3; 5; 7; 11; 13; 17; 19] =
  [Sha256.ra Sha256.init; Sha256.rb Sha256.init; Sha256.rc Sha256.init;
   Sha256.rd Sha256.init; Sha256.re Sha256.init; Sha256.rf Sha256.init;
   Sha256.rg Sha256.init; Sha256.rh Sha256.init].
Proof. vm_compute. reflexivity. Qed.

Example sha256_empty :
  Sha256.hex [] = "e3b0c44298fc1c149afbf4c8996fb92427ae41e4649b934ca495991b7852b855".
Proof. vm_compute. reflexivity. Qed.

Example sha256_abc :
  Sha256.hex (list_byte_of_string "abc") =
  "ba7816bf8f01cfea414140de5dae2223b00361a396177a9cb410ff61f20015ad".
Proof. vm_compute. reflexivity. Qed.

Example sha256_two_blocks :
  Sha256.hex (list_byte_of_string
                "abcdbcdecdefdefgefghfghighijhijkijkljklmklmnlmnomnopnopq") =
  "248d6a61d20638b8e5c026930c3e6039a33ce45964ff2167f6ecedd419db06c1".
Proof. vm_compute. reflexivity. Qed.

(* ===================================================================== *)
(** ** The helpers on some inputs *)
(* ===================================================================== *)

Example url_getters :
  protocol Example.url = "https:" /\
  host Example.url = "example.com" /\
  search Example.url = "?v=2" /\
  search Example.url_mtime = "" /\
  Path.basename (url_path Example.url) = "b.tar.gz" /\
  drop_last_char (protocol Example.url) = "https".
Proof. repeat split. Qed.

Example parseInt_examples :
  map parseInt ["1048576"; " 42abc"; "-7"; "0x1F"; "9007199254740993"; "null"; ""; "abc"] =
  [1048576; 42; -7; 31; 9007199254740992; nan; nan; nan]%float.
Proof. vm_compute. reflexivity. Qed.

Example chuzzle_examples :
  map chuzzle [1048576; 9007199254740992; 0; -7; 1.5; nan; infinity]%float =
  [Some 1048576; Some 9007199254740992; None; None; None; None; None].
Proof. vm_compute. reflexivity. Qed.

Example github_host_examples :
  map github_host ["github.com"; "api.github.com"; "githubXcom"; "notgithub.com";
                   "github.com:8443"; "example.com"] =
  [true; true; true; false; false; false].
Proof. reflexivity. Qed.

Example Math_round_examples :
  map Math_round [0.5; 1.5; 2.25; 99.5; (-0.5); (-2.5); 100]%float =
  [1; 2; 2; 100; 0; -2; 100].
Proof. vm_compute. reflexivity. Qed.

(* ===================================================================== *)
(** ** Paths *)
(* ===================================================================== *)

Lemma parent_join (p : Path.t) (c : string) : Path.parent (Path.join p c) = p.
Proof. apply List.removelast_last. Qed.

Lemma basename_join (p : Path.t) (c : string) : Path.basename (Path.join p c) = c.
Proof. apply List.last_last. Qed.

Lemma join_inj (p : Path.t) (a b : string) : Path.join p a = Path.join p b -> a = b.
Proof. unfold Path.join. intros H. apply app_inv_head in H. congruence. Qed.

Lemma ancestors_self (p : Path.t) : p ∈ Path.ancestors p.
Proof.
  induction p as [|c p IH]; simpl.
  - apply list_elem_of_here.
  - apply list_elem_of_further, list_elem_of_fmap. eauto.
Qed.

(* ===================================================================== *)
(** ** Running the primitives *)
(* ===================================================================== *)

Lemma bind_run {A B} (m : M A) (k : A -> M B) (s : State) :
  (m ≫= k) s = match m s with
                | (Ok a, s') => k a s'
                | (Throw e, s') => (Throw e, s')
                end.
Proof. reflexivity. Qed.

Lemma ret_run {A} (a : A) (s : State) : @mret M _ A a s = (Ok a, s).
Proof. reflexivity. Qed.

Lemma throw_run {A} (e : Error) (s : State) : @throw A e s = (Throw e, s).
Proof. reflexivity. Qed.

Lemma finally_run {A} (m : M A) (fin : M unit) (s : State) :
  finally m fin s = match fin (snd (m s)) with
                    | (Ok _, s'') => (fst (m s), s'')
                    | (Throw e, s'') => (Throw e, s'')
                    end.
Proof. unfold finally. by destruct (m s). Qed.

Lemma log_run (l : LogLine) (s : State) : log l s = (Ok tt, emit (EvLog l) s).
Proof. reflexivity. Qed.

Lemma close_run (p : Path.t) (s : State) : close p s = (Ok tt, emit (EvClose p) s).
Proof. reflexivity. Qed.

Lemma isFile_run (p : Path.t) (s : State) :
  isFile p s = (Ok (bool_decide (is_Some (files s !! p))), s).
Proof. reflexivity. Qed.

Lemma isReadableFile_run (p : Path.t) (s : State) :
  isReadableFile p s = (Ok (bool_decide (is_Some (files s !! p))), s).
Proof. reflexivity. Qed.

Lemma mkpath_run (p : Path.t) (s : State) :
  mkpath p s = (Ok p, set_dirs (dirs s ∪ list_to_set (Path.ancestors p)) s).
Proof. reflexivity. Qed.

Lemma fetch_run (env : Env) (src : URL) (h : option (gmap string string)) (s : State) :
  fetch env src h s =
  match server env src (default ∅ h) with
  | Some rsp => (Ok rsp, emit (EvFetch src (default ∅ h)) s)
  | None => (Throw (ErrTransport src), emit (EvFetch src (default ∅ h)) s)
  end.
Proof. reflexivity. Qed.

Lemma digest_update_run (buf : list byte) (s : State) :
  digest_update buf s = (Ok tt, set_digest (sha_digest s ++ buf) s).
Proof. reflexivity. Qed.

Create Rewrite HintDb run.
#[global] Hint Rewrite @bind_run @ret_run @throw_run log_run close_run isFile_run
  isReadableFile_run mkpath_run digest_update_run : run.

Ltac run := repeat (autorewrite with run; cbn).

Lemma quiet_refl (s : State) : quiet s s [].
Proof. unfold quiet. rewrite app_nil_r. set_solver. Qed.

Lemma quiet_trans (s1 s2 s3 : State) (t1 t2 : list Event) :
  quiet s1 s2 t1 -> quiet s2 s3 t2 -> quiet s1 s3 (t1 ++ t2).
Proof.
  unfold quiet. intros (Hf1 & Hd1 & Ht1 & Hg1 & Hr1) (Hf2 & Hd2 & Ht2 & Hg2 & Hr2).
  split; [congruence|]. split; [by etrans|].
  split; [by rewrite Ht2, Ht1, app_assoc|]. split; congruence.
Qed.

Lemma quiet_emit (s : State) (e : Event) : quiet s (emit e s) [e].
Proof. unfold quiet. simpl. set_solver. Qed.

Lemma quiet_set_dirs (s : State) (d : gset (list string)) :
  quiet s (set_dirs (dirs s ∪ d) s) [].
Proof. unfold quiet. simpl. rewrite app_nil_r. set_solver. Qed.

Lemma hash_key_run (env : Env) (url : URL) (s : State) :
  hash_key env url s =
  (Ok (key_path env url),
   set_dirs (dirs s ∪ list_to_set (Path.ancestors (key_path env url))) s).
Proof. reflexivity. Qed.

(** Calling [hash_key] a second time changes nothing: the memo of
    [internal] is not observable. *)
Lemma hash_key_again (env : Env) (url : URL) (s : State) :
  let s1 := snd (hash_key env url s) in
  hash_key env url s1 = (Ok (key_path env url), s1).
Proof.
  cbn. rewrite !hash_key_run. cbn. f_equal. unfold set_dirs. cbn. f_equal.
  rewrite <- (assoc_L (∪)). f_equal. apply (idemp_L (∪)).
Qed.

Lemma key_dir_made (env : Env) (url : URL) (s : State) :
  key_path env url ∈ dirs (snd (hash_key env url s)).
Proof.
  simpl. apply elem_of_union_r, elem_of_list_to_set, ancestors_self.
Qed.

Lemma mtime_entry_run (env : Env) (url : URL) (s : State) :
  mtime_entry env url s =
  (Ok (mtime_path env url),
   set_dirs (dirs s ∪ list_to_set (Path.ancestors (key_path env url))) s).
Proof. reflexivity. Qed.

Lemma internal_dst_run (env : Env) (opts : DownloadOptions) (s : State) :
  exists s', internal_dst env opts s = (Ok (dst_path env opts), s') /\
             quiet s s' [] /\
             (opt_dst opts = None -> Path.parent (dst_path env opts) ∈ dirs s').
Proof.
  unfold internal_dst, dst_path. destruct (opt_dst opts) as [d|]; simpl.
  - eexists; split; [reflexivity|]. split; [apply quiet_refl|done].
  - rewrite bind_run, hash_key_run.
    eexists; split; [reflexivity|]. split; [apply quiet_set_dirs|].
    intros _. simpl. rewrite parent_join.
    apply elem_of_union_r, elem_of_list_to_set, ancestors_self.
Qed.

(** The conditional header is decided by the files alone. *)
Lemma conditional_files (env : Env) (opts : DownloadOptions) (s s' : State) :
  files s' = files s -> conditional env opts s' = conditional env opts s.
Proof. unfold conditional, usable_baseline. by intros ->. Qed.

Lemma baseline_files (env : Env) (opts : DownloadOptions) (s s' : State) :
  files s' = files s -> baseline env opts s' = baseline env opts s.
Proof. unfold baseline. by intros ->. Qed.

Lemma request_headers_files (env : Env) (opts : DownloadOptions) (s s' : State) :
  files s' = files s -> request_headers env opts s' = request_headers env opts s.
Proof.
  intros H. unfold request_headers.
  by rewrite (conditional_files _ _ _ _ H), (baseline_files _ _ _ _ H).
Qed.

Lemma read_run (p : Path.t) (s : State) (bytes : list byte) :
  files s !! p = Some bytes -> read p s = (Ok (string_of_list_byte bytes), s).
Proof. unfold read. by intros ->. Qed.

Lemma internal_headers_run (env : Env) (opts : DownloadOptions) (s : State) :
  exists s',
    internal_headers env opts (dst_path env opts) s =
      (Ok (if conditional env opts s
           then Some (<["If-Modified-Since" := baseline env opts s]>
                        (default ∅ (opt_headers opts)))
           else opt_headers opts), s') /\
    quiet s s' [EvLog (request_line env opts s)].
Proof.
  unfold internal_headers, request_line, conditional, usable_baseline, baseline.
  destruct (truthy_flag (opt_ephemeral opts)); cbn.
  - run. eexists; split; [reflexivity|apply quiet_emit].
  - run. rewrite mtime_entry_run. run.
    destruct (files s !! mtime_path env (opt_src opts)) as [b|] eqn:Hm; run.
    + destruct (files s !! dst_path env opts) as [b'|] eqn:Hd; run.
      * rewrite mtime_entry_run; run.
        rewrite (read_run _ _ b) by done. run.
        eexists; split; [reflexivity|].
        unfold quiet; cbn. set_solver.
      * eexists; split; [reflexivity|].
        unfold quiet; cbn. set_solver.
    + run. eexists; split; [reflexivity|].
      unfold quiet; cbn. set_solver.
Qed.

Lemma internal_run {T} (env : Env) (opts : DownloadOptions)
    (body : Stream -> Path.t -> option Z -> M T) (s : State) :
  String.eqb (protocol (opt_src opts)) "file:" = false ->
  exists s1,
    quiet s s1 [EvLog (request_line env opts s);
                EvFetch (opt_src opts) (request_headers env opts s)] /\
    (opt_dst opts = None -> Path.parent (dst_path env opts) ∈ dirs s1) /\
    internal env opts body s =
      match server env (opt_src opts) (request_headers env opts s) with
      | Some rsp =>
          match internal_status env (opt_src opts) (dst_path env opts) rsp body s1 with
          | (Ok _, s2) => (Ok (dst_path env opts), s2)
          | (Throw e, s2) => (Throw e, s2)
          end
      | None => (Throw (ErrTransport (opt_src opts)), s1)
      end.
Proof.
  intros Hproto. unfold internal.
  destruct (internal_dst_run env opts s) as (s0 & E0 & Q0 & D0).
  destruct (internal_headers_run env opts s0) as (s0' & E1 & Q1).
  assert (Hf : files s0 = files s) by apply Q0.
  rewrite (conditional_files _ _ _ _ Hf), (baseline_files _ _ _ _ Hf) in E1.
  unfold request_line in Q1. rewrite (conditional_files _ _ _ _ Hf) in Q1.
  fold (request_line env opts s) in Q1.
  exists (emit (EvFetch (opt_src opts) (request_headers env opts s)) s0').
  split; [|split].
  - change [EvLog (request_line env opts s);
            EvFetch (opt_src opts) (request_headers env opts s)]
      with ([] ++ [EvLog (request_line env opts s)] ++
            [EvFetch (opt_src opts) (request_headers env opts s)]).
    eapply quiet_trans; [exact Q0|].
    eapply quiet_trans; [exact Q1|apply quiet_emit].
  - intros Hd. cbn. apply Q1, D0, Hd.
  - rewrite bind_run, E0. cbn. rewrite Hproto.
    rewrite bind_run, E1. cbn.
    rewrite bind_run, fetch_run. fold (request_headers env opts s).
    destruct (server env (opt_src opts) (request_headers env opts s)); [|done].
    rewrite bind_run.
    destruct (internal_status _ _ _ _ _ _) as [[[]|e] s2]; reflexivity.
Qed.

Lemma internal_status_304 {T} (env : Env) (src : URL) (dst : Path.t)
    (rsp : Response) (body : Stream -> Path.t -> option Z -> M T) (s : State) :
  status rsp = 304 ->
  internal_status env src dst rsp body s = (Ok tt, emit (EvLog LogCacheHit) s).
Proof. intros H. unfold internal_status. rewrite H. reflexivity. Qed.

Lemma internal_status_other {T} (env : Env) (src : URL) (dst : Path.t)
    (rsp : Response) (body : Stream -> Path.t -> option Z -> M T) (s : State) :
  status rsp <> 200 -> status rsp <> 304 ->
  internal_status env src dst rsp body s =
    (if numpty env && bool_decide (is_Some (files s !! dst))
     then Ok tt else Throw (ErrStatus (status rsp) src), s).
Proof.
  intros H2 H3. unfold internal_status.
  apply Z.eqb_neq in H2, H3. rewrite H2, H3. run.
  destruct (numpty env), (bool_decide _); reflexivity.
Qed.

Lemma chuzzle_pos (x : float) (v : Z) : chuzzle x = Some v -> 0 < v.
Proof.
  unfold chuzzle. destruct (Prim2SF x) as [| | |[] m e]; try discriminate.
  destruct (Z.leb_spec 0 e) as [He|He].
  - intros [= <-]. apply Z.mul_pos_pos; [lia|]. apply Z.pow_pos_nonneg; lia.
  - destruct (Z.eqb_spec (Z.pos m mod 2 ^ (- e)) 0) as [Hm|]; [|discriminate].
    intros [= <-].
    assert (Hp : 0 < 2 ^ (- e)) by (apply Z.pow_pos_nonneg; lia).
    pose proof (Z.div_mod (Z.pos m) (2 ^ (- e)) ltac:(lia)) as Hd.
    rewrite Hm in Hd. nia.
Qed.

Lemma internal_status_200 {T} (env : Env) (src : URL) (dst : Path.t)
    (rsp : Response) (body : Stream -> Path.t -> option Z -> M T) (s : State) :
  status rsp = 200 ->
  internal_status env src dst rsp body s =
    let s1 := emit (EvLog (LogDownloading (declared_size rsp))) s in
    match rsp_body rsp with
    | None => (Throw ErrPanic, s1)
    | Some reader =>
        if bool_decide (Path.parent dst ∈ dirs s)
        then
          let s2 := emit (EvOpen dst) (set_files (<[dst := []]> (files s)) s1) in
          let s3 := set_dirs (dirs s ∪ list_to_set (Path.ancestors (Path.parent dst))) s2 in
          match body reader dst (declared_size rsp) s3 with
          | (Ok _, s4) =>
              (fst (record_marker env src rsp s4),
               emit (EvClose dst) (snd (record_marker env src rsp s4)))
          | (Throw e, s4) => (Throw e, emit (EvClose dst) s4)
          end
        else (Throw (ErrNotFound dst), s1)
    end.
Proof.
  intros H. unfold internal_status. rewrite H. cbn -[parseInt chuzzle].
  fold (declared_size rsp).
  assert (Hsz : (if truthy_num (declared_size rsp) then declared_size rsp else None)
                = declared_size rsp).
  { destruct (declared_size rsp) as [v|] eqn:Hv; [|done].
    apply chuzzle_pos in Hv. cbn. destruct (Z.eqb_spec v 0); [lia|done]. }
  rewrite Hsz. rewrite bind_run, log_run. cbn.
  destruct (rsp_body rsp) as [reader|]; run; [|done].
  unfold open_truncate. cbn.
  destruct (bool_decide (Path.parent dst ∈ dirs s)); [|done].
  rewrite finally_run. run.
  destruct (body reader dst (declared_size rsp) _) as [[x|e] s4]; cbn.
  - destruct (record_marker env src rsp s4) as [[[]|e] s5]; done.
  - done.
Qed.

(* ===================================================================== *)
(** ** The two bodies *)
(* ===================================================================== *)

Lemma write_chunk_run (dst : Path.t) (buf old : list byte) (s : State) :
  files s !! dst = Some old ->
  write_chunk dst buf s =
    (Ok tt, emit (EvWrite dst buf) (set_files (<[dst := old ++ buf]> (files s)) s)).
Proof. unfold write_chunk. by intros ->. Qed.

Lemma write_all_run (dst : Path.t) (cs : list (list byte)) (s : State) (old : list byte) :
  files s !! dst = Some old ->
  write_all dst cs s =
    (Ok tt, mkState (<[dst := old ++ concat cs]> (files s)) (dirs s)
                    (trace s ++ map (EvWrite dst) cs) (sha_digest s) (sha_run s)).
Proof.
  revert s old. induction cs as [|c cs IH]; intros s old Hold; cbn.
  - rewrite ret_run, !app_nil_r, insert_id by done. by destruct s.
  - rewrite bind_run, (write_chunk_run _ _ old) by done.
    rewrite (IH _ (old ++ c)) by apply lookup_insert_eq.
    cbn. rewrite insert_insert_eq, <- !app_assoc. reflexivity.
Qed.

Lemma on_chunk_run (env : Env) (sz : option Z) (n : Z) (buf : list byte) (s : State) :
  on_chunk env sz n buf s =
    if truthy_num sz && negb (truthy_opt (CI env))
    then (Ok (n + Z.of_nat (length buf)),
          emit (EvLog (LogPercent (percent (n + Z.of_nat (length buf)) (default 0 sz))))
               (set_digest (sha_digest s ++ buf) s))
    else (Ok n, set_digest (sha_digest s ++ buf) s).
Proof.
  unfold on_chunk. rewrite bind_run, digest_update_run.
  destruct (truthy_num sz && negb (truthy_opt (CI env))); reflexivity.
Qed.

Lemma progress_cons (env : Env) (sz : option Z) (n : Z) (c : list byte)
    (cs : list (list byte)) :
  progress env sz n (c :: cs) =
    if truthy_num sz && negb (truthy_opt (CI env))
    then percent (n + Z.of_nat (length c)) (default 0 sz)
           :: progress env sz (n + Z.of_nat (length c)) cs
    else [].
Proof. unfold progress. by destruct (truthy_num sz && negb (truthy_opt (CI env))). Qed.

Lemma progress_silent (env : Env) (sz : option Z) (n m : Z) (cs : list (list byte)) :
  truthy_num sz && negb (truthy_opt (CI env)) = false ->
  progress env sz n cs = progress env sz m cs.
Proof. unfold progress. by intros ->. Qed.

Lemma hash_all_run (env : Env) (sz : option Z) (n : Z) (cs : list (list byte)) (s : State) :
  hash_all env sz n cs s =
    (Ok tt, mkState (files s) (dirs s)
                    (trace s ++ map (fun pc => EvLog (LogPercent pc)) (progress env sz n cs))
                    (sha_digest s ++ concat cs) (sha_run s)).
Proof.
  revert n s. induction cs as [|c cs IH]; intros n s; cbn.
  - rewrite ret_run. unfold progress.
    destruct (_ && _); cbn; rewrite !app_nil_r; by destruct s.
  - rewrite bind_run, on_chunk_run, progress_cons.
    destruct (truthy_num sz && negb (truthy_opt (CI env))) eqn:E; rewrite IH; cbn.
    + rewrite <- !app_assoc. reflexivity.
    + rewrite <- !app_assoc. unfold progress. rewrite E. reflexivity.
Qed.

Lemma writes_app (t1 t2 : list Event) : writes (t1 ++ t2) = writes t1 ++ writes t2.
Proof. apply omap_app. Qed.
Lemma percents_app (t1 t2 : list Event) : percents (t1 ++ t2) = percents t1 ++ percents t2.
Proof. apply omap_app. Qed.
Lemma fetches_app (t1 t2 : list Event) : fetches (t1 ++ t2) = fetches t1 ++ fetches t2.
Proof. apply omap_app. Qed.
Lemma text_writes_app (t1 t2 : list Event) :
  text_writes (t1 ++ t2) = text_writes t1 ++ text_writes t2.
Proof. apply omap_app. Qed.

Lemma writes_of_writes (dst : Path.t) (cs : list (list byte)) :
  writes (map (EvWrite dst) cs) = map (pair dst) cs /\
  percents (map (EvWrite dst) cs) = [] /\
  fetches (map (EvWrite dst) cs) = [] /\
  text_writes (map (EvWrite dst) cs) = [].
Proof.
  unfold writes, percents, fetches, text_writes.
  induction cs as [|c cs (?&?&?&?)]; cbn; repeat split; congruence.
Qed.

Lemma percents_of_percents (ps : list Z) :
  writes (map (fun pc => EvLog (LogPercent pc)) ps) = [] /\
  percents (map (fun pc => EvLog (LogPercent pc)) ps) = ps /\
  fetches (map (fun pc => EvLog (LogPercent pc)) ps) = [] /\
  text_writes (map (fun pc => EvLog (LogPercent pc)) ps) = [].
Proof.
  unfold writes, percents, fetches, text_writes.
  induction ps as [|p ps (?&?&?&?)]; cbn; repeat split; congruence.
Qed.

(** Whatever the schedule, the two copies of a tee'd stream end in a
    state fixed by the reads each has taken; when the reading does not
    end in an error, each has taken them all. *)
Lemma tee_copy_run (env : Env) (sz : option Z) (dst : Path.t) (sched : list bool)
    (failing : bool) (r1 r2 : list (list byte)) (n : Z) (s : State) (old : list byte) :
  files s !! dst = Some old ->
  exists s' t w h,
    tee_copy env sz dst sched failing r1 r2 n s =
      (if failing then Throw ErrStream else Ok tt, s') /\
    tee_outcome env sz dst n old s s' t w h /\
    w `prefix_of` r1 /\ h `prefix_of` r2 /\
    (failing = false -> w = r1 /\ h = r2).
Proof.
  revert r1 r2 n s old.
  induction sched as [|turn sched IH]; intros r1 r2 n s old Hold.
  - cbn. destruct failing.
    + exists s, [], [], []. rewrite throw_run. split; [done|].
      split; [|by repeat split; try apply prefix_nil].
      unfold tee_outcome, progress. cbn. rewrite !app_nil_r, insert_id by done.
      by destruct (_ && _).
    + rewrite bind_run, (write_all_run _ _ _ old) by done. rewrite hash_all_run. cbn.
      eexists _, (map (EvWrite dst) r1 ++
                  map (fun pc => EvLog (LogPercent pc)) (progress env sz n r2)), r1, r2.
      split; [reflexivity|]. split; [|done].
      destruct (writes_of_writes dst r1) as (W1 & W2 & W3 & W4).
      destruct (percents_of_percents (progress env sz n r2)) as (P1 & P2 & P3 & P4).
      unfold tee_outcome. cbn.
      rewrite writes_app, percents_app, fetches_app, text_writes_app, <- app_assoc.
      rewrite W1, W2, W3, W4, P1, P2, P3, P4, app_nil_r. by repeat split.
  - destruct turn; cbn.
    + destruct r1 as [|c r1']; [apply IH, Hold|].
      rewrite bind_run, (write_chunk_run _ _ old) by done.
      destruct (IH r1' r2 n
                  (emit (EvWrite dst c) (set_files (<[dst := old ++ c]> (files s)) s))
                  (old ++ c)) as (s' & t & w & h & E & O & Pw & Ph & Hall).
      { apply lookup_insert_eq. }
      exists s', (EvWrite dst c :: t), (c :: w), h.
      split; [exact E|]. split; [|split; [by apply prefix_cons|split; [done|]]].
      * destruct O as (Hf & Hd & Ht & Hg & Hr & Hw & Hp & Hfe & Htw).
        unfold tee_outcome, writes, percents, fetches, text_writes in *. cbn in *.
        rewrite Hf, Ht, Hw, Hp, Hfe, Htw, insert_insert_eq, <- !app_assoc.
        by repeat split.
      * intros Hfa. destruct (Hall Hfa) as [-> ->]. done.
    + destruct r2 as [|c r2']; [apply IH, Hold|].
      rewrite bind_run, on_chunk_run.
      destruct (truthy_num sz && negb (truthy_opt (CI env))) eqn:Hshow.
      * destruct (IH r1 r2' (n + Z.of_nat (length c))
                    (emit (EvLog (LogPercent (percent (n + Z.of_nat (length c)) (default 0 sz))))
                          (set_digest (sha_digest s ++ c) s))
                    old Hold) as (s' & t & w & h & E & O & Pw & Ph & Hall).
        exists s', (EvLog (LogPercent (percent (n + Z.of_nat (length c)) (default 0 sz))) :: t),
               w, (c :: h).
        split; [exact E|]. split; [|split; [done|split; [by apply prefix_cons|]]].
        -- destruct O as (Hf & Hd & Ht & Hg & Hr & Hw & Hp & Hfe & Htw).
           unfold tee_outcome, writes, percents, fetches, text_writes in *. cbn in *.
           rewrite Hf, Ht, Hg, Hw, Hp, Hfe, Htw, progress_cons, Hshow, <- !app_assoc.
           by repeat split.
        -- intros Hfa. destruct (Hall Hfa) as [-> ->]. done.
      * destruct (IH r1 r2' n (set_digest (sha_digest s ++ c) s) old Hold)
          as (s' & t & w & h & E & O & Pw & Ph & Hall).
        exists s', t, w, (c :: h).
        split; [exact E|]. split; [|split; [done|split; [by apply prefix_cons|]]].
        -- destruct O as (Hf & Hd & Ht & Hg & Hr & Hw & Hp & Hfe & Htw).
           unfold tee_outcome, writes, percents, fetches, text_writes in *. cbn in *.
           rewrite Hf, Ht, Hg, Hw, Hp, Hfe, Htw, progress_cons, Hshow, <- !app_assoc.
           repeat split; try done. unfold progress. by rewrite Hshow.
        -- intros Hfa. destruct (Hall Hfa) as [-> ->]. done.
Qed.

(* ===================================================================== *)
(** ** Only [fetch] talks to the network *)
(* ===================================================================== *)

Lemma no_fetch_ret {A} (a : A) : no_fetch (mret a : M A).
Proof. intros s. exists []. by rewrite app_nil_r. Qed.

Lemma no_fetch_throw {A} (e : Error) : no_fetch (@throw A e).
Proof. intros s. exists []. by rewrite app_nil_r. Qed.

Lemma no_fetch_bind {A B} (m : M A) (k : A -> M B) :
  no_fetch m -> (forall a, no_fetch (k a)) -> no_fetch (m ≫= k).
Proof.
  intros Hm Hk s. rewrite bind_run.
  destruct (Hm s) as (t1 & E1 & F1). destruct (m s) as [[a|e] s1]; cbn in *.
  - destruct (Hk a s1) as (t2 & E2 & F2). exists (t1 ++ t2).
    by rewrite E2, E1, fetches_app, F1, F2, app_assoc.
  - by exists t1.
Qed.

Lemma no_fetch_finally {A} (m : M A) (fin : M unit) :
  no_fetch m -> no_fetch fin -> no_fetch (finally m fin).
Proof.
  intros Hm Hf s. rewrite finally_run.
  destruct (Hm s) as (t1 & E1 & F1). destruct (Hf (snd (m s))) as (t2 & E2 & F2).
  exists (t1 ++ t2). split.
  - destruct (fin (snd (m s))) as [[[]|e] s2]; cbn in *; by rewrite E2, E1, app_assoc.
  - by rewrite fetches_app, F1, F2.
Qed.

Lemma no_fetch_log (l : LogLine) : no_fetch (log l).
Proof. intros s. by exists [EvLog l]. Qed.

Lemma no_fetch_close (p : Path.t) : no_fetch (close p).
Proof. intros s. by exists [EvClose p]. Qed.

Lemma no_fetch_mkpath (p : Path.t) : no_fetch (mkpath p).
Proof. intros s. exists []. by rewrite app_nil_r. Qed.

Lemma no_fetch_hash_key (env : Env) (u : URL) : no_fetch (hash_key env u).
Proof. apply no_fetch_mkpath. Qed.

Lemma no_fetch_digest_update (b : list byte) : no_fetch (digest_update b).
Proof. intros s. exists []. by rewrite app_nil_r. Qed.

Lemma no_fetch_write_text (p : Path.t) (x : string) : no_fetch (write_text p x).
Proof. intros s. by exists [EvWriteText p x]. Qed.

Lemma no_fetch_write_chunk (p : Path.t) (b : list byte) : no_fetch (write_chunk p b).
Proof.
  intros s. unfold write_chunk. destruct (files s !! p).
  - by exists [EvWrite p b].
  - exists []. by rewrite app_nil_r.
Qed.

Lemma no_fetch_open_truncate (p : Path.t) : no_fetch (open_truncate p).
Proof.
  intros s. unfold open_truncate. destruct (bool_decide _).
  - by exists [EvOpen p].
  - exists []. by rewrite app_nil_r.
Qed.

Lemma no_fetch_open_read (p : Path.t) : no_fetch (open_read p).
Proof.
  intros s. unfold open_read. exists []. rewrite app_nil_r.
  by destruct (files s !! p).
Qed.

Lemma no_fetch_write_all (p : Path.t) (cs : list (list byte)) : no_fetch (write_all p cs).
Proof.
  induction cs as [|c cs IH]; cbn.
  - apply no_fetch_ret.
  - apply no_fetch_bind; [apply no_fetch_write_chunk|done].
Qed.

Lemma no_fetch_on_chunk (env : Env) (sz : option Z) (n : Z) (b : list byte) :
  no_fetch (on_chunk env sz n b).
Proof.
  unfold on_chunk. apply no_fetch_bind; [apply no_fetch_digest_update|intros _].
  destruct (_ && _); [|apply no_fetch_ret].
  apply no_fetch_bind; [apply no_fetch_log|intros _; apply no_fetch_ret].
Qed.

Lemma no_fetch_hash_all (env : Env) (sz : option Z) (n : Z) (cs : list (list byte)) :
  no_fetch (hash_all env sz n cs).
Proof.
  revert n. induction cs as [|c cs IH]; intros n; cbn.
  - apply no_fetch_ret.
  - apply no_fetch_bind; [apply no_fetch_on_chunk|done].
Qed.

Lemma no_fetch_tee_copy (env : Env) (sz : option Z) (dst : Path.t) (sched : list bool)
    (failing : bool) (r1 r2 : list (list byte)) (n : Z) :
  no_fetch (tee_copy env sz dst sched failing r1 r2 n).
Proof.
  revert r1 r2 n. induction sched as [|turn sched IH]; intros r1 r2 n; cbn.
  - destruct failing; [apply no_fetch_throw|].
    apply no_fetch_bind; [apply no_fetch_write_all|intros _; apply no_fetch_hash_all].
  - destruct turn.
    + destruct r1; [done|]. apply no_fetch_bind; [apply no_fetch_write_chunk|done].
    + destruct r2; [done|]. apply no_fetch_bind; [apply no_fetch_on_chunk|done].
Qed.

Lemma no_fetch_copy (src : Reader) (dst : Path.t) : no_fetch (copy src dst).
Proof.
  unfold copy. apply no_fetch_bind; [apply no_fetch_write_all|intros _].
  destruct (throws src); [apply no_fetch_throw|apply no_fetch_ret].
Qed.

Lemma no_fetch_record_marker (env : Env) (src : URL) (rsp : Response) :
  no_fetch (record_marker env src rsp).
Proof.
  unfold record_marker. destruct (rsp_headers rsp !! "Last-Modified") as [x|];
    [|apply no_fetch_ret].
  destruct (truthy x); [|apply no_fetch_ret].
  apply no_fetch_bind; [|intros m; apply no_fetch_write_text].
  apply no_fetch_bind; [apply no_fetch_hash_key|intros h; apply no_fetch_ret].
Qed.

Lemma no_fetch_internal_status {T} (env : Env) (src : URL) (dst : Path.t)
    (rsp : Response) (body : Stream -> Path.t -> option Z -> M T) :
  (forall st d sz, no_fetch (body st d sz)) ->
  no_fetch (internal_status env src dst rsp body).
Proof.
  intros Hbody. unfold internal_status.
  destruct (status rsp =? 200).
  - apply no_fetch_bind; [apply no_fetch_log|intros _].
    apply no_fetch_bind.
    { destruct (rsp_body rsp); [apply no_fetch_ret|apply no_fetch_throw]. }
    intros reader. apply no_fetch_bind; [apply no_fetch_open_truncate|intros _].
    apply no_fetch_finally; [|apply no_fetch_close].
    apply no_fetch_bind; [apply no_fetch_mkpath|intros _].
    apply no_fetch_bind; [apply Hbody|intros _; apply no_fetch_record_marker].
  - destruct (status rsp =? 304); [apply no_fetch_log|].
    apply no_fetch_bind.
    { intros s. exists []. by rewrite app_nil_r. }
    intros b. destruct (_ || _); [apply no_fetch_throw|apply no_fetch_ret].
Qed.

(** A call that gets past the scheme check sends exactly one request,
    with the headers [request_headers]. *)
Lemma internal_one_fetch {T} (env : Env) (opts : DownloadOptions)
    (body : Stream -> Path.t -> option Z -> M T) (s : State) :
  String.eqb (protocol (opt_src opts)) "file:" = false ->
  (forall st d sz, no_fetch (body st d sz)) ->
  exists t, trace (snd (internal env opts body s)) = trace s ++ t /\
            fetches t = [(opt_src opts, request_headers env opts s)].
Proof.
  intros Hproto Hbody.
  destruct (internal_run env opts body s Hproto) as (s1 & Q & _ & E).
  rewrite E. destruct Q as (_ & _ & Ht & _).
  destruct (server env (opt_src opts) (request_headers env opts s)) as [rsp|]; cbn.
  - destruct (no_fetch_internal_status env (opt_src opts) (dst_path env opts) rsp body Hbody s1)
      as (t & Et & Ft).
    exists ([EvLog (request_line env opts s);
             EvFetch (opt_src opts) (request_headers env opts s)] ++ t).
    split.
    + destruct (internal_status _ _ _ _ _ _) as [[[]|e] s2]; cbn in *;
        by rewrite Et, Ht, <- app_assoc.
    + by rewrite fetches_app, Ft.
  - eexists. split; [exact Ht|done].
Qed.

(* ===================================================================== *)
(** ** 304: the cache is confirmed *)
(* ===================================================================== *)

Lemma internal_304 {T} (env : Env) (opts : DownloadOptions)
    (body : Stream -> Path.t -> option Z -> M T) (s : State) (rsp : Response) :
  String.eqb (protocol (opt_src opts)) "file:" = false ->
  server env (opt_src opts) (request_headers env opts s) = Some rsp ->
  status rsp = 304 ->
  exists s',
    internal env opts body s = (Ok (dst_path env opts), s') /\
    quiet s s' [EvLog (request_line env opts s);
                EvFetch (opt_src opts) (request_headers env opts s);
                EvLog LogCacheHit].
Proof.
  intros Hproto Hrsp Hst.
  destruct (internal_run env opts body s Hproto) as (s1 & Q & _ & E).
  rewrite E, Hrsp, (internal_status_304 _ _ _ _ _ _ Hst).
  eexists. split; [reflexivity|].
  change [EvLog (request_line env opts s);
          EvFetch (opt_src opts) (request_headers env opts s); EvLog LogCacheHit]
    with ([EvLog (request_line env opts s);
           EvFetch (opt_src opts) (request_headers env opts s)] ++ [EvLog LogCacheHit]).
  eapply quiet_trans; [exact Q|apply quiet_emit].
Qed.

(** C8. A download that receives a 304 copies no body: the call returns
    the destination, the files are exactly those of before (so the bytes
    of the destination are unchanged), and the only events are the two
    log lines around the one request; the body callback never runs,
    whatever it is. *)
Theorem C8_not_modified_leaves_destination {T} (env : Env) (opts : DownloadOptions)
    (body : Stream -> Path.t -> option Z -> M T) (s : State) (rsp : Response) :
  String.eqb (protocol (opt_src opts)) "file:" = false ->
  server env (opt_src opts) (request_headers env opts s) = Some rsp ->
  status rsp = 304 ->
  exists s',
    internal env opts body s = (Ok (dst_path env opts), s') /\
    files s' = files s /\
    files s' !! dst_path env opts = files s !! dst_path env opts /\
    trace s' = trace s ++ [EvLog (request_line env opts s);
                           EvFetch (opt_src opts) (request_headers env opts s);
                           EvLog LogCacheHit] /\
    writes (drop (length (trace s)) (trace s')) = [].
Proof.
  intros Hproto Hrsp Hst.
  destruct (internal_304 env opts body s rsp Hproto Hrsp Hst) as (s' & E & Hf & _ & Ht & _).
  exists s'. repeat split; try done.
  - by rewrite Hf.
  - by rewrite Ht, drop_app_length.
Qed.

Lemma C8_witness :
  let env := Example.env false Example.rsp_304 [] in
  let opts := Example.opts Example.url None in
  let s := Example.cached Example.url "payload" in
  exists s',
    download env opts s = (Ok (dst_path env opts), s') /\
    files s' = files s /\
    files s' !! dst_path env opts = files s !! dst_path env opts /\
    trace s' = trace s ++ [EvLog (request_line env opts s);
                           EvFetch (opt_src opts) (request_headers env opts s);
                           EvLog LogCacheHit] /\
    writes (drop (length (trace s)) (trace s')) = [].
Proof.
  intros env opts s. unfold download.
  apply (C8_not_modified_leaves_destination env opts _ s Example.rsp_304);
    vm_compute; reflexivity.
Defined.

(* ===================================================================== *)
(** ** Any other status *)
(* ===================================================================== *)

(** C5. A response that is neither 200 nor 304 makes the download throw
    the error carrying the status and the URL, unless [numpty] is set and
    the destination is a file, in which case the destination is returned;
    either way no file is touched. *)
Theorem C5_unexpected_status {T} (env : Env) (opts : DownloadOptions)
    (body : Stream -> Path.t -> option Z -> M T) (s : State) (rsp : Response) :
  String.eqb (protocol (opt_src opts)) "file:" = false ->
  server env (opt_src opts) (request_headers env opts s) = Some rsp ->
  status rsp <> 200 -> status rsp <> 304 ->
  exists s',
    internal env opts body s =
      (if numpty env && bool_decide (is_Some (files s !! dst_path env opts))
       then Ok (dst_path env opts)
       else Throw (ErrStatus (status rsp) (opt_src opts)), s') /\
    files s' = files s.
Proof.
  intros Hproto Hrsp H2 H3.
  destruct (internal_run env opts body s Hproto) as (s1 & Q & _ & E).
  rewrite E, Hrsp, (internal_status_other _ _ _ _ _ _ H2 H3).
  destruct Q as (Hf & _). rewrite Hf.
  exists s1. split; [|done].
  by destruct (numpty env && bool_decide (is_Some (files s !! dst_path env opts))).
Qed.

Lemma C5_witness :
  (exists s', download (Example.env false Example.rsp_500 []) (Example.opts Example.url None)
                Example.empty = (Throw (ErrStatus 500 Example.url), s') /\
              files s' = files Example.empty) /\
  (exists s', download (Example.env true Example.rsp_500 []) (Example.opts Example.url None)
                (Example.cached Example.url "payload") =
                (Ok (dst_path (Example.env true Example.rsp_500 [])
                       (Example.opts Example.url None)), s') /\
              files s' = files (Example.cached Example.url "payload")).
Proof.
  unfold download. split.
  - destruct (C5_unexpected_status (Example.env false Example.rsp_500 [])
                (Example.opts Example.url None)
                (fun src dst _ => copy (readerFromStreamReader src) dst)
                Example.empty Example.rsp_500) as (s' & E & F);
      [vm_compute; congruence ..|].
    exists s'. split; [|exact F]. rewrite E. reflexivity.
  - destruct (C5_unexpected_status (Example.env true Example.rsp_500 [])
                (Example.opts Example.url None)
                (fun src dst _ => copy (readerFromStreamReader src) dst)
                (Example.cached Example.url "payload") Example.rsp_500) as (s' & E & F);
      [vm_compute; congruence ..|].
    exists s'. split; [|exact F]. rewrite E.
    match goal with
    | |- context [if ?c then _ else _] =>
        assert (Hc : c = true) by (vm_compute; reflexivity); rewrite Hc
    end.
    reflexivity.
Defined.

(* ===================================================================== *)
(** ** download_with_sha when no body was streamed *)
(* ===================================================================== *)

Lemma new_digest_run (s : State) :
  new_digest s = (Ok tt, set_run false (set_digest [] s)).
Proof. reflexivity. Qed.

Lemma open_read_run (p : Path.t) (s : State) :
  open_read p s = match files s !! p with
                  | Some bytes => (Ok bytes, s)
                  | None => (Throw (ErrNotFound p), s)
                  end.
Proof. reflexivity. Qed.

Lemma download_with_sha_eq (env : Env) (opts : DownloadOptions) (s : State) :
  download_with_sha env opts s =
    match internal env opts (sha_body env) (set_run false (set_digest [] s)) with
    | (Ok path, s1) =>
        if sha_run s1 then (Ok (path, Sha256.hex (sha_digest s1)), s1)
        else match files s1 !! path with
             | Some bytes =>
                 (Ok (path, Sha256.hex (sha_digest s1 ++ bytes)),
                  set_digest (sha_digest s1 ++ bytes) (emit (EvLog LogVerifying) s1))
             | None => (Throw (ErrNotFound path), emit (EvLog LogVerifying) s1)
             end
    | (Throw e, s1) => (Throw e, s1)
    end.
Proof.
  unfold download_with_sha. rewrite bind_run, new_digest_run, bind_run.
  destruct (internal env opts (sha_body env) _) as [[path|e] s1]; [|reflexivity].
  rewrite bind_run. unfold get_run. cbn.
  destruct (sha_run s1); cbn.
  - rewrite !bind_run, ret_run. reflexivity.
  - run. rewrite open_read_run. cbn.
    destruct (files s1 !! path) as [bytes|]; run; reflexivity.
Qed.

Lemma request_headers_reset (env : Env) (opts : DownloadOptions) (s : State) :
  request_headers env opts (set_run false (set_digest [] s)) = request_headers env opts s /\
  request_line env opts (set_run false (set_digest [] s)) = request_line env opts s.
Proof.
  split; [by apply request_headers_files|].
  unfold request_line. by rewrite (conditional_files env opts s (set_run false (set_digest [] s))).
Qed.

(** The header is attached only over an existing destination. *)
Lemma conditional_dst_exists (env : Env) (opts : DownloadOptions) (s : State) :
  conditional env opts s = true -> is_Some (files s !! dst_path env opts).
Proof.
  unfold conditional, usable_baseline. intros H.
  apply andb_true_iff in H as [_ H]. apply andb_true_iff in H as [_ H].
  by apply bool_decide_eq_true in H.
Qed.

(** C2. When the server answers 304 and the destination file exists,
    [download_with_sha] still returns a digest: the SHA-256 of the bytes
    the destination holds when the call ends, which are the bytes it held
    before; the file is re-read from disk ([LogVerifying]), and the one
    request of the call is the only one. *)
Theorem C2_cache_hit_still_hashes (env : Env) (opts : DownloadOptions) (s : State)
    (rsp : Response) (bytes : list byte) :
  String.eqb (protocol (opt_src opts)) "file:" = false ->
  server env (opt_src opts) (request_headers env opts s) = Some rsp ->
  status rsp = 304 ->
  files s !! dst_path env opts = Some bytes ->
  exists s',
    download_with_sha env opts s = (Ok (dst_path env opts, Sha256.hex bytes), s') /\
    files s' = files s /\
    files s' !! dst_path env opts = Some bytes /\
    trace s' = trace s ++ [EvLog (request_line env opts s);
                           EvFetch (opt_src opts) (request_headers env opts s);
                           EvLog LogCacheHit; EvLog LogVerifying] /\
    length (fetches (drop (length (trace s)) (trace s'))) = 1%nat.
Proof.
  intros Hproto Hrsp Hst Hfile.
  destruct (request_headers_reset env opts s) as [Hh Hl].
  destruct (internal_304 env opts (sha_body env) (set_run false (set_digest [] s)) rsp)
    as (s1 & E & Hf & _ & Ht & Hg & Hr); [done|by rewrite Hh|done|].
  rewrite Hh, Hl in Ht. cbn in Hf, Ht, Hg, Hr.
  rewrite download_with_sha_eq, E, Hr, Hf, Hfile, Hg. cbn.
  eexists. split; [reflexivity|]. cbn. rewrite Hf, Ht, <- app_assoc. cbn.
  repeat split; try done. by rewrite drop_app_length.
Qed.

Lemma C2_witness :
  exists s',
    download_with_sha (Example.env false Example.rsp_304 []) (Example.opts Example.url None)
      (Example.cached Example.url "payload") =
      (Ok (dst_path (Example.env false Example.rsp_304 []) (Example.opts Example.url None),
           Sha256.hex (Example.bytes "payload")), s') /\
    files s' = files (Example.cached Example.url "payload") /\
    files s' !! dst_path (Example.env false Example.rsp_304 []) (Example.opts Example.url None)
      = Some (Example.bytes "payload") /\
    trace s' = trace (Example.cached Example.url "payload") ++
      [EvLog (request_line (Example.env false Example.rsp_304 [])
                (Example.opts Example.url None) (Example.cached Example.url "payload"));
       EvFetch (opt_src (Example.opts Example.url None))
         (request_headers (Example.env false Example.rsp_304 [])
            (Example.opts Example.url None) (Example.cached Example.url "payload"));
       EvLog LogCacheHit; EvLog LogVerifying] /\
    length (fetches (drop (length (trace (Example.cached Example.url "payload")))
                       (trace s'))) = 1%nat.
Proof.
  apply (C2_cache_hit_still_hashes (Example.env false Example.rsp_304 [])
           (Example.opts Example.url None) (Example.cached Example.url "payload")
           Example.rsp_304 (Example.bytes "payload"));
    vm_compute; reflexivity.
Defined.

(* ===================================================================== *)
(** ** The conditional header *)
(* ===================================================================== *)

Lemma internal_auth_other (env : Env) (src : URL) (h : option (gmap string string))
    (k : string) :
  k <> "Authorization" ->
  default ∅ (internal_auth env src h) !! k = default ∅ h !! k.
Proof.
  intros Hk. unfold internal_auth.
  destruct (github_host (host src)); [|done].
  destruct (GITHUB_TOKEN env) as [token|]; [|done].
  destruct (truthy token); [|done].
  cbn. by rewrite lookup_insert_ne.
Qed.

Lemma request_headers_ims (env : Env) (opts : DownloadOptions) (s : State) :
  request_headers env opts s !! "If-Modified-Since" =
    if conditional env opts s then Some (baseline env opts s)
    else default ∅ (opt_headers opts) !! "If-Modified-Since".
Proof.
  unfold request_headers. rewrite internal_auth_other by done.
  destruct (conditional env opts s); [|done].
  cbn. apply lookup_insert_eq.
Qed.

Lemma conditional_iff (env : Env) (opts : DownloadOptions) (s : State) :
  conditional env opts s = true <->
  truthy_flag (opt_ephemeral opts) = false /\
  is_Some (files s !! mtime_path env (opt_src opts)) /\
  is_Some (files s !! dst_path env opts).
Proof.
  unfold conditional, usable_baseline.
  rewrite !andb_true_iff, negb_true_iff, !bool_decide_eq_true. tauto.
Qed.

Lemma no_fetch_sha_body (env : Env) (st : Stream) (d : Path.t) (sz : option Z) :
  no_fetch (sha_body env st d sz).
Proof.
  unfold sha_body. apply no_fetch_bind; [|intros _; apply no_fetch_tee_copy].
  intros s. exists []. by rewrite app_nil_r.
Qed.

Lemma download_one_fetch (env : Env) (opts : DownloadOptions) (s : State) :
  String.eqb (protocol (opt_src opts)) "file:" = false ->
  exists t, trace (snd (download env opts s)) = trace s ++ t /\
            fetches t = [(opt_src opts, request_headers env opts s)].
Proof.
  intros Hproto. apply internal_one_fetch; [done|].
  intros st d sz. apply no_fetch_copy.
Qed.

Lemma download_with_sha_one_fetch (env : Env) (opts : DownloadOptions) (s : State) :
  String.eqb (protocol (opt_src opts)) "file:" = false ->
  exists t, trace (snd (download_with_sha env opts s)) = trace s ++ t /\
            fetches t = [(opt_src opts, request_headers env opts s)].
Proof.
  intros Hproto. rewrite download_with_sha_eq.
  destruct (internal_one_fetch env opts (sha_body env) (set_run false (set_digest [] s)) Hproto)
    as (t & Et & Ft); [apply no_fetch_sha_body|].
  destruct (request_headers_reset env opts s) as [Hh _]. rewrite Hh in Ft. cbn in Et.
  destruct (internal env opts (sha_body env) _) as [[path|e] s1]; cbn in *; [|by exists t].
  destruct (sha_run s1); [by exists t|].
  exists (t ++ [EvLog LogVerifying]). rewrite fetches_app, Ft.
  destruct (files s1 !! path); cbn; by rewrite Et, app_assoc.
Qed.

(** C4. Every call past the scheme check sends one request, and its
    If-Modified-Since header is the marker's text exactly when [ephemeral]
    is not set and both the marker file and the destination file exist;
    otherwise the header is whatever the caller passed in [headers].  So
    with caller headers that do not name it, the request carries the
    header if and only if that condition holds, and with [ephemeral] set
    the downloader never adds it. *)
Theorem C4_conditional_header (env : Env) (opts : DownloadOptions) (s : State) :
  String.eqb (protocol (opt_src opts)) "file:" = false ->
  let h := request_headers env opts s in
  let own := default ∅ (opt_headers opts) !! "If-Modified-Since" in
  (exists t, trace (snd (download env opts s)) = trace s ++ t /\
             fetches t = [(opt_src opts, h)]) /\
  (exists t, trace (snd (download_with_sha env opts s)) = trace s ++ t /\
             fetches t = [(opt_src opts, h)]) /\
  h !! "If-Modified-Since" =
    (if conditional env opts s then Some (baseline env opts s) else own) /\
  (conditional env opts s = true <->
     truthy_flag (opt_ephemeral opts) = false /\
     is_Some (files s !! mtime_path env (opt_src opts)) /\
     is_Some (files s !! dst_path env opts)) /\
  (own = None ->
     (is_Some (h !! "If-Modified-Since") <->
        truthy_flag (opt_ephemeral opts) = false /\
        is_Some (files s !! mtime_path env (opt_src opts)) /\
        is_Some (files s !! dst_path env opts))) /\
  (truthy_flag (opt_ephemeral opts) = true -> h !! "If-Modified-Since" = own).
Proof.
  intros Hproto h own.
  split; [by apply download_one_fetch|].
  split; [by apply download_with_sha_one_fetch|].
  split; [apply request_headers_ims|].
  split; [apply conditional_iff|]. split.
  - intros Hown. unfold h. rewrite request_headers_ims, <- conditional_iff.
    destruct (conditional env opts s).
    + split; eauto.
    + fold own. rewrite Hown. split; [intros [? ?]|]; done.
  - intros He. unfold h. rewrite request_headers_ims.
    unfold conditional. by rewrite He.
Qed.

Lemma C4_witness :
  let env := Example.env false Example.rsp_304 [] in
  let opts := Example.opts Example.url None in
  let s := Example.cached Example.url "payload" in
  let h := request_headers env opts s in
  let own := default ∅ (opt_headers opts) !! "If-Modified-Since" in
  (exists t, trace (snd (download env opts s)) = trace s ++ t /\
             fetches t = [(opt_src opts, h)]) /\
  (exists t, trace (snd (download_with_sha env opts s)) = trace s ++ t /\
             fetches t = [(opt_src opts, h)]) /\
  h !! "If-Modified-Since" =
    (if conditional env opts s then Some (baseline env opts s) else own) /\
  (conditional env opts s = true <->
     truthy_flag (opt_ephemeral opts) = false /\
     is_Some (files s !! mtime_path env (opt_src opts)) /\
     is_Some (files s !! dst_path env opts)) /\
  (own = None ->
     (is_Some (h !! "If-Modified-Since") <->
        truthy_flag (opt_ephemeral opts) = false /\
        is_Some (files s !! mtime_path env (opt_src opts)) /\
        is_Some (files s !! dst_path env opts))) /\
  (truthy_flag (opt_ephemeral opts) = true -> h !! "If-Modified-Since" = own).
Proof.
  intros env opts s.
  apply (C4_conditional_header env opts s). vm_compute; reflexivity.
Defined.

(* ===================================================================== *)
(** ** 200: a fresh body *)
(* ===================================================================== *)

Lemma write_text_run (p : Path.t) (x : string) (s : State) :
  write_text p x s =
    (Ok tt, emit (EvWriteText p x) (set_files (<[p := list_byte_of_string x]> (files s)) s)).
Proof. reflexivity. Qed.

Lemma record_marker_run (env : Env) (src : URL) (rsp : Response) (s : State) :
  record_marker env src rsp s = (Ok tt, marked env src rsp s).
Proof.
  unfold record_marker, marked, marker_text.
  destruct (rsp_headers rsp !! "Last-Modified") as [x|]; [|done].
  destruct (truthy x); [|done].
  by rewrite bind_run, mtime_entry_run, write_text_run.
Qed.

(** A call that gets a 200 with a body and can open its destination: the
    state in which the body callback starts, and what follows it. *)
Lemma internal_200 {T} (env : Env) (opts : DownloadOptions)
    (body : Stream -> Path.t -> option Z -> M T) (s : State) (rsp : Response) (st : Stream) :
  String.eqb (protocol (opt_src opts)) "file:" = false ->
  server env (opt_src opts) (request_headers env opts s) = Some rsp ->
  status rsp = 200 ->
  rsp_body rsp = Some st ->
  openable env opts s ->
  exists s3,
    files s3 = <[dst_path env opts := []]> (files s) /\
    dirs s ⊆ dirs s3 /\
    trace s3 = trace s ++ opening env opts s rsp /\
    sha_digest s3 = sha_digest s /\ sha_run s3 = sha_run s /\
    internal env opts body s =
      match body st (dst_path env opts) (declared_size rsp) s3 with
      | (Ok _, s4) =>
          (Ok (dst_path env opts),
           emit (EvClose (dst_path env opts)) (marked env (opt_src opts) rsp s4))
      | (Throw e, s4) => (Throw e, emit (EvClose (dst_path env opts)) s4)
      end.
Proof.
  intros Hproto Hrsp Hst Hbody Hopen.
  destruct (internal_run env opts body s Hproto) as (s1 & Q & D & E).
  destruct Q as (Hf & Hd & Ht & Hg & Hr).
  assert (Hdir : Path.parent (dst_path env opts) ∈ dirs s1).
  { destruct Hopen as [Hnone|Hin]; [by apply D|by apply Hd]. }
  rewrite E, Hrsp, (internal_status_200 _ _ _ _ _ _ Hst), Hbody.
  cbn zeta. rewrite bool_decide_eq_true_2 by done.
  exists (set_dirs (dirs s1 ∪ list_to_set (Path.ancestors (Path.parent (dst_path env opts))))
            (emit (EvOpen (dst_path env opts))
               (set_files (<[dst_path env opts := []]> (files s1))
                  (emit (EvLog (LogDownloading (declared_size rsp))) s1)))).
  split; [|split; [|split; [|split; [|split]]]]; last first.
  - destruct (body st _ _ _) as [[x|e] s4]; [|reflexivity].
    by rewrite record_marker_run.
  - cbn. exact Hr.
  - cbn. exact Hg.
  - cbn. rewrite Ht, <- !app_assoc. reflexivity.
  - cbn. clear -Hd. set_solver.
  - cbn. by rewrite Hf.
Qed.


Lemma marked_files (env : Env) (src : URL) (rsp : Response) (s : State) :
  files (marked env src rsp s) = with_marker env src (marker_text rsp) (files s) /\
  trace (marked env src rsp s) = trace s ++ marker_events env src (marker_text rsp) /\
  sha_digest (marked env src rsp s) = sha_digest s /\
  sha_run (marked env src rsp s) = sha_run s.
Proof.
  unfold marked, with_marker, marker_events.
  destruct (marker_text rsp); cbn; by rewrite ?app_nil_r.
Qed.

Lemma copy_run (src : Reader) (dst : Path.t) (s : State) (old : list byte) :
  files s !! dst = Some old ->
  copy src dst s =
    (if throws src then Throw ErrStream else Ok tt,
     mkState (<[dst := old ++ concat (reads src)]> (files s)) (dirs s)
             (trace s ++ map (EvWrite dst) (reads src)) (sha_digest s) (sha_run s)).
Proof.
  intros Hold. unfold copy. rewrite bind_run, (write_all_run _ _ _ old) by done.
  by destruct (throws src).
Qed.

(** [download] on a 200: what is read from the body goes to the
    destination, then the marker is recorded unless the reading ended in
    the error of the stream. *)
Lemma download_200 (env : Env) (opts : DownloadOptions) (s : State)
    (rsp : Response) (st : Stream) :
  String.eqb (protocol (opt_src opts)) "file:" = false ->
  server env (opt_src opts) (request_headers env opts s) = Some rsp ->
  status rsp = 200 ->
  rsp_body rsp = Some st ->
  openable env opts s ->
  exists s',
    download env opts s =
      (if broken st then Throw ErrStream else Ok (dst_path env opts), s') /\
    files s' = with_marker env (opt_src opts) (recorded rsp st)
                 (<[dst_path env opts := concat (taken st)]> (files s)) /\
    trace s' = trace s ++ opening env opts s rsp ++
               map (EvWrite (dst_path env opts)) (taken st) ++
               marker_events env (opt_src opts) (recorded rsp st) ++
               [EvClose (dst_path env opts)].
Proof.
  intros Hproto Hrsp Hst Hbody Hopen. unfold download.
  destruct (internal_200 env opts
              (fun src dst _ => copy (readerFromStreamReader src) dst) s rsp st)
    as (s3 & Hf & Hd & Ht & Hg & Hr & E); try done.
  rewrite E, (copy_run _ _ _ []) by (rewrite Hf; apply lookup_insert_eq).
  fold (taken st) (broken st). unfold recorded. destruct (broken st); cbn.
  - eexists. split; [reflexivity|]. cbn.
    rewrite Hf, Ht, insert_insert_eq, <- !app_assoc. done.
  - eexists. split; [reflexivity|]. cbn.
    destruct (marked_files env (opt_src opts) rsp
                (mkState (<[dst_path env opts := concat (taken st)]> (files s3)) (dirs s3)
                   (trace s3 ++ map (EvWrite (dst_path env opts)) (taken st))
                   (sha_digest s3) (sha_run s3))) as (Mf & Mt & _ & _).
    rewrite Mf, Mt. cbn. rewrite Hf, Ht, insert_insert_eq, <- !app_assoc. done.
Qed.

Lemma sha_body_run (env : Env) (st : Stream) (dst : Path.t) (sz : option Z)
    (s : State) (old : list byte) :
  files s !! dst = Some old ->
  exists s' t w h,
    sha_body env st dst sz s = (if broken st then Throw ErrStream else Ok tt, s') /\
    tee_outcome env sz dst 0 old (set_run true s) s' t w h /\
    w `prefix_of` taken st /\ h `prefix_of` taken st /\
    (broken st = false -> w = taken st /\ h = taken st).
Proof.
  intros Hold. unfold sha_body. rewrite bind_run. unfold mark_run.
  cbn zeta. fold (taken st) (broken st).
  apply (tee_copy_run env sz dst (scheduler env) (broken st) (taken st) (taken st) 0
           (set_run true s) old Hold).
Qed.

(** [download_with_sha] on a 200, whatever the schedule of the two
    copies: the digest is the one of all that is read from the body, the
    destination holds what was written, and the marker follows. *)
Lemma download_with_sha_200 (env : Env) (opts : DownloadOptions) (s : State)
    (rsp : Response) (st : Stream) :
  String.eqb (protocol (opt_src opts)) "file:" = false ->
  server env (opt_src opts) (request_headers env opts s) = Some rsp ->
  status rsp = 200 ->
  rsp_body rsp = Some st ->
  openable env opts s ->
  exists s' t w h,
    download_with_sha env opts s =
      (if broken st then Throw ErrStream
       else Ok (dst_path env opts, Sha256.hex (concat (taken st))), s') /\
    files s' = with_marker env (opt_src opts) (recorded rsp st)
                 (<[dst_path env opts := concat w]> (files s)) /\
    trace s' = trace s ++ opening env opts s rsp ++ t ++
               marker_events env (opt_src opts) (recorded rsp st) ++
               [EvClose (dst_path env opts)] /\
    writes t = map (pair (dst_path env opts)) w /\
    percents t = progress env (declared_size rsp) 0 h /\
    fetches t = [] /\ text_writes t = [] /\
    sha_run s' = true /\ sha_digest s' = concat h /\
    w `prefix_of` taken st /\ h `prefix_of` taken st /\
    (broken st = false -> w = taken st /\ h = taken st).
Proof.
  intros Hproto Hrsp Hst Hbody Hopen.
  destruct (request_headers_reset env opts s) as [Hh Hl].
  destruct (internal_200 env opts (sha_body env) (set_run false (set_digest [] s)) rsp st)
    as (s3 & Hf & Hd & Ht & Hg & Hr & E); try done.
  unfold opening in Ht. rewrite Hh, Hl in Ht. fold (opening env opts s rsp) in Ht.
  cbn in Hf, Hd, Ht, Hg, Hr.
  destruct (sha_body_run env st (dst_path env opts) (declared_size rsp) s3 [])
    as (s4 & t & w & h & Eb & O & Pw & Ph & Hall).
  { rewrite Hf. apply lookup_insert_eq. }
  destruct O as (Of & Od & Ot & Og & Or & Ow & Op & Ofe & Otw). cbn in Of, Od, Ot, Og, Or.
  rewrite download_with_sha_eq, E, Eb.
  exists (if broken st then emit (EvClose (dst_path env opts)) s4
          else emit (EvClose (dst_path env opts)) (marked env (opt_src opts) rsp s4)), t, w, h.
  destruct (marked_files env (opt_src opts) rsp s4) as (Mf & Mt & Mg & Mr).
  unfold recorded. destruct (broken st) eqn:Hfail; cbn.
  - rewrite Of, Ot, Og, Or, Hf, Ht, Hg, insert_insert_eq, <- !app_assoc. cbn.
    by repeat split.
  - destruct (Hall eq_refl) as [-> ->].
    rewrite Mr, Mg, Mf, Mt, Or, Of, Ot, Og, Hf, Ht, Hg, insert_insert_eq, <- !app_assoc. cbn.
    by repeat split.
Qed.

(* ===================================================================== *)
(** ** The cache key *)
(* ===================================================================== *)

(** What [hash] digests for a URL with a query: the pathname, then "?",
    then [url.search], which starts with a "?" of its own. *)
Lemma hash_with_query (u : URL) (q : string) :
  query u = Some q -> truthy q = true ->
  hash u = Sha256.hex (list_byte_of_string (pathname u +:+ "??" +:+ q)).
Proof.
  intros Hq Ht. unfold hash, search. rewrite Hq, Ht. reflexivity.
Qed.

Lemma append_empty_r (x : string) : x +:+ "" = x.
Proof.
  induction x as [|c x IH]; [done|].
  change (String c (x +:+ "") = String c x). by rewrite IH.
Qed.

Lemma append_assoc (x y z : string) : (x +:+ y) +:+ z = x +:+ y +:+ z.
Proof.
  induction x as [|c x IH]; [done|].
  change (String c ((x +:+ y) +:+ z) = String c (x +:+ y +:+ z)). by rewrite IH.
Qed.

Lemma to_string_app (p q : Path.t) :
  Path.to_string (p ++ q) = Path.to_string p +:+ Path.to_string q.
Proof.
  induction p as [|c p IH]; [done|].
  cbn. rewrite IH. change ("/" +:+ ?x) with (String "/" x).
  change (String "/" ?x +:+ ?y) with (String "/" (x +:+ y)).
  by rewrite append_assoc.
Qed.

Lemma hash_without_query (u : URL) :
  query u = None -> hash u = Sha256.hex (list_byte_of_string (pathname u)).
Proof.
  intros Hq. unfold hash, search. rewrite Hq. cbn. by rewrite append_empty_r.
Qed.

(** C1. For https://example.com/a/b.tar.gz?v=2 the key [hash_key]
    returns is <root>/https/example.com/<h> and the default destination
    is <key>/b.tar.gz, but <h> is the SHA-256 of "/a/b.tar.gz??v=2", with
    the question mark doubled, which is not the SHA-256 of
    "/a/b.tar.gz?v=2". *)
Theorem C1_hash_key_doubles_question_mark (env : Env) (s : State) :
  let key := prefix_www env ++ ["https"; "example.com";
                                Sha256.hex (Example.bytes "/a/b.tar.gz??v=2")] in
  fst (hash_key env Example.url s) = Ok key /\
  key ∈ dirs (snd (hash_key env Example.url s)) /\
  Path.to_string key =
    Path.to_string (prefix_www env) +:+
    "/https/example.com/4c9648446ab81e1a585a60944e7f83a260e1113ce0c1278d5762b1fc3472df11" /\
  dst_path env (Example.opts Example.url None) = key ++ ["b.tar.gz"] /\
  Sha256.hex (Example.bytes "/a/b.tar.gz?v=2") =
    "e2d30571049bc93748bdbbe67de26b93e543e91f87f33b6050613894f6a227c3" /\
  key <> prefix_www env ++ ["https"; "example.com";
                            Sha256.hex (Example.bytes "/a/b.tar.gz?v=2")].
Proof.
  intros key.
  assert (Hkey : key_path env Example.url = key).
  { unfold key_path, key, Path.join. rewrite <- !app_assoc. reflexivity. }
  assert (Hhex : Sha256.hex (Example.bytes "/a/b.tar.gz??v=2") =
                 "4c9648446ab81e1a585a60944e7f83a260e1113ce0c1278d5762b1fc3472df11")
    by (vm_compute; reflexivity).
  split; [by rewrite hash_key_run, Hkey|].
  split; [rewrite <- Hkey; apply key_dir_made|].
  split.
  { unfold key. by rewrite Hhex, to_string_app. }
  split; [unfold dst_path; cbn; rewrite Hkey; reflexivity|].
  split; [vm_compute; reflexivity|].
  unfold key. intros H. apply app_inv_head in H.
  assert (Hne : Sha256.hex (Example.bytes "/a/b.tar.gz??v=2") <>
                Sha256.hex (Example.bytes "/a/b.tar.gz?v=2"))
    by (vm_compute; discriminate).
  congruence.
Qed.

(* ===================================================================== *)
(** ** When the digest is returned *)
(* ===================================================================== *)

Lemma internal_file_scheme {T} (env : Env) (opts : DownloadOptions)
    (body : Stream -> Path.t -> option Z -> M T) (s : State) :
  String.eqb (protocol (opt_src opts)) "file:" = true ->
  exists s', internal env opts body s = (Throw ErrFileScheme, s') /\ quiet s s' [].
Proof.
  intros Hproto. unfold internal.
  destruct (internal_dst_run env opts s) as (s0 & E0 & Q0 & _).
  rewrite bind_run, E0. cbn. rewrite Hproto. by exists s0.
Qed.

(** C3 as stated fails.  That [sha] is there only when bytes were
    streamed is refuted by a cache hit: the server answers 304, nothing is written, and the call
    returns the SHA-256 of the cached payload, which it read itself. *)
Lemma C3_counterexample :
  let env := Example.env false Example.rsp_304 [] in
  let opts := Example.opts Example.url None in
  let r := download_with_sha env opts (Example.cached Example.url "payload") in
  fst r = Ok (dst_path env opts, Sha256.hex (Example.bytes "payload")) /\
  sha_run (snd r) = false /\
  writes (trace (snd r)) = [] /\
  trace (snd r) =
    [EvLog LogQuerying;
     EvFetch Example.url (<["If-Modified-Since" := Example.last_modified]> ∅);
     EvLog LogCacheHit; EvLog LogVerifying].
Proof. vm_compute. repeat split. Qed.

(** C3, amended. [download_with_sha] returns a digest on every success.
    After a 200 the callback ran and the digest is the one of the body
    streamed; after any other status accepted (304, or the permissive
    fallback) the callback did not run, no file changed, and the digest
    is the one of the destination file as it was, read by the call
    itself. *)
Theorem C3_digest_always_returned (env : Env) (opts : DownloadOptions) (s : State)
    (p : Path.t) (sha : string) :
  fst (download_with_sha env opts s) = Ok (p, sha) ->
  let s' := snd (download_with_sha env opts s) in
  p = dst_path env opts /\
  exists rsp,
    server env (opt_src opts) (request_headers env opts s) = Some rsp /\
    if status rsp =? 200
    then sha_run s' = true /\
         exists st, rsp_body rsp = Some st /\ broken st = false /\
                    sha = Sha256.hex (concat (taken st))
    else sha_run s' = false /\
         exists bytes, files s !! p = Some bytes /\ files s' = files s /\
                       sha = Sha256.hex bytes.
Proof.
  intros H0. destruct (download_with_sha env opts s) as [r s'] eqn:H.
  cbn in H0. subst r. cbn zeta. cbn [snd].
  rewrite download_with_sha_eq in H.
  destruct (request_headers_reset env opts s) as [Hh _].
  destruct (String.eqb (protocol (opt_src opts)) "file:") eqn:Hproto.
  { destruct (internal_file_scheme env opts (sha_body env)
                (set_run false (set_digest [] s)) Hproto) as (s0 & E & _).
    rewrite E in H. discriminate. }
  destruct (internal_run env opts (sha_body env) (set_run false (set_digest [] s)) Hproto)
    as (s1 & Q & _ & E).
  rewrite E, Hh in H. clear E.
  destruct Q as (Hf & _ & _ & Hg & Hr). cbn in Hf, Hg, Hr.
  destruct (server env (opt_src opts) (request_headers env opts s)) as [rsp|];
    [|discriminate].
  cut (p = dst_path env opts /\
       if status rsp =? 200
       then sha_run s' = true /\
            exists st, rsp_body rsp = Some st /\ broken st = false /\
                       sha = Sha256.hex (concat (taken st))
       else sha_run s' = false /\
            exists bytes, files s !! p = Some bytes /\ files s' = files s /\
                          sha = Sha256.hex bytes).
  { intros [Hp Hq]. split; [done|]. by exists rsp. }
  destruct (status rsp =? 200) eqn:H200.
  - apply Z.eqb_eq in H200. rewrite (internal_status_200 _ _ _ _ _ _ H200) in H.
    cbn zeta in H. destruct (rsp_body rsp) as [st|]; [|discriminate].
    destruct (bool_decide (Path.parent (dst_path env opts) ∈ dirs s1)); [|discriminate].
    match type of H with
    | context [sha_body env st ?d ?z ?s3] =>
        destruct (sha_body_run env st d z s3 []) as (s4 & t & w & h & Eb & O & _ & _ & Hall);
          [apply lookup_insert_eq|]
    end.
    rewrite Eb in H. destruct (broken st) eqn:Hfail; [discriminate|].
    destruct (Hall eq_refl) as [-> ->].
    destruct O as (_ & _ & _ & Og & Or & _). cbn in Og, Or.
    destruct (marked_files env (opt_src opts) rsp s4) as (_ & _ & Mg & Mr).
    rewrite record_marker_run in H. cbn in H. rewrite Mr, Or in H.
    injection H as <- <- <-. cbn.
    rewrite Mr, Mg, Og, Or, Hg. split; [done|]. split; [done|].
    exists st. by repeat split.
  - destruct (status rsp =? 304) eqn:H304.
    + apply Z.eqb_eq in H304. rewrite (internal_status_304 _ _ _ _ _ _ H304) in H.
      cbn in H. rewrite Hr, Hf, Hg in H.
      destruct (files s !! dst_path env opts) as [bytes|] eqn:Hfile; [|discriminate].
      injection H as <- <- <-. cbn. rewrite Hr, Hf. split; [done|]. split; [done|].
      exists bytes. by repeat split.
    + apply Z.eqb_neq in H200, H304.
      rewrite (internal_status_other _ _ _ _ _ _ H200 H304) in H.
      destruct (numpty env && _); [|discriminate].
      rewrite Hr, Hf, Hg in H.
      destruct (files s !! dst_path env opts) as [bytes|] eqn:Hfile; [|discriminate].
      injection H as <- <- <-. cbn. rewrite Hr, Hf. split; [done|]. split; [done|].
      exists bytes. by repeat split.
Qed.

Lemma C3_witness :
  let env := Example.env false Example.rsp_304 [] in
  let opts := Example.opts Example.url None in
  let s := Example.cached Example.url "payload" in
  let p := dst_path env opts in
  let sha := Sha256.hex (Example.bytes "payload") in
  fst (download_with_sha env opts s) = Ok (p, sha) /\
  (let s' := snd (download_with_sha env opts s) in
   p = dst_path env opts /\
   exists rsp,
     server env (opt_src opts) (request_headers env opts s) = Some rsp /\
     if status rsp =? 200
     then sha_run s' = true /\
          exists st, rsp_body rsp = Some st /\ broken st = false /\
                     sha = Sha256.hex (concat (taken st))
     else sha_run s' = false /\
          exists bytes, files s !! p = Some bytes /\ files s' = files s /\
                        sha = Sha256.hex bytes).
Proof.
  intros env opts s p sha.
  assert (H : fst (download_with_sha env opts s) = Ok (p, sha))
    by (vm_compute; reflexivity).
  split; [exact H|].
  exact (C3_digest_always_returned env opts s p sha H).
Defined.

(* ===================================================================== *)
(** ** The digest and the destination file *)
(* ===================================================================== *)

(** Whatever the schedule of the two readers, when the destination is
    not the marker the returned digest is the digest of the bytes the
    destination file holds at the end, which are the reads written to
    it, in order. *)
Lemma sha_matches_destination (env : Env) (opts : DownloadOptions) (s : State)
    (rsp : Response) (st : Stream) :
  String.eqb (protocol (opt_src opts)) "file:" = false ->
  server env (opt_src opts) (request_headers env opts s) = Some rsp ->
  status rsp = 200 ->
  rsp_body rsp = Some st ->
  broken st = false ->
  openable env opts s ->
  dst_path env opts <> mtime_path env (opt_src opts) ->
  let r := download_with_sha env opts s in
  exists bytes,
    fst r = Ok (dst_path env opts, Sha256.hex bytes) /\
    files (snd r) !! dst_path env opts = Some bytes /\
    bytes = concat (taken st) /\
    bytes = concat (map snd (writes (drop (length (trace s)) (trace (snd r))))).
Proof.
  intros Hproto Hrsp Hst Hbody Hfail Hopen Hne r. unfold r.
  destruct (download_with_sha_200 env opts s rsp st)
    as (s' & t & w & h & E & Hf & Ht & Hw & _ & _ & Htw & _ & _ & _ & _ & Hall); try done.
  destruct (Hall Hfail) as [-> ->]. rewrite Hfail in E. rewrite E. cbn.
  exists (concat (taken st)). repeat split.
  - rewrite Hf. unfold with_marker.
    destruct (recorded rsp st); [rewrite lookup_insert_ne by done|];
      by rewrite lookup_insert_eq.
  - rewrite Ht, drop_app_length. unfold opening.
    rewrite !writes_app, Hw. unfold marker_events.
    destruct (recorded rsp st); cbn; rewrite app_nil_r, map_map; cbn;
      by rewrite map_id.
Qed.

(** C6. A payload whose URL path ends in "mtime" gets the marker's own
    path as its default destination.  The body "hello" is written and
    hashed, the call returns the digest of "hello", and then the marker
    write replaces the file: the destination ends up holding the
    Last-Modified text, whose digest is another one. *)
Theorem C6_payload_named_mtime_is_overwritten :
  let rsp := Example.rsp_200 "5" (Some Example.last_modified) ["hello"] false in
  let env := Example.env false rsp [] in
  let opts := Example.opts Example.url_mtime None in
  let r := download_with_sha env opts Example.empty in
  dst_path env opts = mtime_path env Example.url_mtime /\
  fst r = Ok (dst_path env opts, Sha256.hex (Example.bytes "hello")) /\
  writes (trace (snd r)) = [(dst_path env opts, Example.bytes "hello")] /\
  files (snd r) !! dst_path env opts = Some (Example.bytes Example.last_modified) /\
  Sha256.hex (Example.bytes Example.last_modified) <> Sha256.hex (Example.bytes "hello").
Proof. vm_compute. repeat split. discriminate. Qed.

(* ===================================================================== *)
(** ** The marker and the body *)
(* ===================================================================== *)

(** When the destination is not the marker: a [download] that gets a 200
    writes the marker after all of the body, writes it only for a
    response with a Last-Modified text and a body read without error, and
    otherwise leaves the marker file as it was. *)
Lemma marker_follows_body (env : Env) (opts : DownloadOptions) (s : State)
    (rsp : Response) (st : Stream) :
  String.eqb (protocol (opt_src opts)) "file:" = false ->
  server env (opt_src opts) (request_headers env opts s) = Some rsp ->
  status rsp = 200 ->
  rsp_body rsp = Some st ->
  openable env opts s ->
  dst_path env opts <> mtime_path env (opt_src opts) ->
  let s' := snd (download env opts s) in
  trace s' = trace s ++ opening env opts s rsp ++
             map (EvWrite (dst_path env opts)) (taken st) ++
             marker_events env (opt_src opts) (recorded rsp st) ++
             [EvClose (dst_path env opts)] /\
  files s' !! mtime_path env (opt_src opts) =
    match recorded rsp st with
    | Some text => Some (list_byte_of_string text)
    | None => files s !! mtime_path env (opt_src opts)
    end /\
  (broken st = true -> recorded rsp st = None) /\
  (rsp_headers rsp !! "Last-Modified" = None -> recorded rsp st = None).
Proof.
  intros Hproto Hrsp Hst Hbody Hopen Hne s'. unfold s'.
  destruct (download_200 env opts s rsp st) as (s1 & E & Hf & Ht); try done.
  rewrite E. cbn. split; [done|]. split; [|split].
  - rewrite Hf. unfold with_marker. destruct (recorded rsp st).
    + apply lookup_insert_eq.
    + by rewrite lookup_insert_ne.
  - unfold recorded. by intros ->.
  - unfold recorded, marker_text. intros ->. by destruct (broken st).
Qed.

(** C7. With a payload named "mtime" the marker does not keep its prior
    state when the body fails: the response has no Last-Modified and its
    stream errors after "he", the download throws, and the marker file,
    being the destination, now holds "he" instead of the stored date;
    no marker write took place. *)
Theorem C7_marker_lost_when_payload_named_mtime :
  let rsp := Example.rsp_200 "5" None ["he"] true in
  let env := Example.env false rsp [] in
  let opts := Example.opts Example.url_mtime None in
  let s := Example.cached Example.url_mtime "old" in
  let r := download env opts s in
  dst_path env opts = mtime_path env Example.url_mtime /\
  files s !! mtime_path env Example.url_mtime = Some (Example.bytes Example.last_modified) /\
  fst r = Throw ErrStream /\
  text_writes (trace (snd r)) = [] /\
  files (snd r) !! mtime_path env Example.url_mtime = Some (Example.bytes "he").
Proof. vm_compute. repeat split. Qed.

(* ===================================================================== *)
(** ** Doubles of 53 bits *)
(* ===================================================================== *)

Lemma digits2_size (m : positive) : digits2_pos m = Pos.size m.
Proof. induction m; cbn; congruence. Qed.

Lemma size_bounds (m : positive) :
  2 ^ Z.pos (Pos.size m) <= 2 * Z.pos m /\ Z.pos m < 2 ^ Z.pos (Pos.size m).
Proof.
  pose proof (Pos.size_gt m) as Hgt. pose proof (Pos.size_le m) as Hle.
  apply Pos2Z.pos_lt_pos in Hgt. apply Pos2Z.pos_le_pos in Hle.
  rewrite Pos2Z.inj_pow in Hgt, Hle. lia.
Qed.

(** A mantissa of 53 bits. *)
Lemma digits2_53 (m : positive) :
  digits2_pos m = 53%positive <-> 2 ^ 52 <= Z.pos m < 2 ^ 53.
Proof.
  rewrite digits2_size. destruct (size_bounds m) as [Hle Hgt]. split.
  - intros H. rewrite H in Hgt, Hle. lia.
  - intros [Hlo Hhi].
    destruct (Z.lt_trichotomy (Z.pos (Pos.size m)) 53) as [Hc|[Hc|Hc]]; [|lia|].
    + assert (2 ^ Z.pos (Pos.size m) <= 2 ^ 52) by (apply Z.pow_le_mono_r; lia). lia.
    + assert (2 ^ 54 <= 2 ^ Z.pos (Pos.size m)) by (apply Z.pow_le_mono_r; lia). lia.
Qed.

Lemma fexp_53 (e : Z) : -1074 <= e -> fexp prec emax (53 + e) = e.
Proof. intros H. unfold fexp, SpecFloat.emin, prec, emax. lia. Qed.

Lemma fexp_54 (e : Z) : -1075 <= e -> fexp prec emax (54 + e) = e + 1.
Proof. intros H. unfold fexp, SpecFloat.emin, prec, emax. lia. Qed.

(** Rounding a mantissa that already has 53 bits changes nothing. *)
Lemma round_canonical (s : bool) (m : positive) (e : Z) :
  digits2_pos m = 53%positive -> -1074 <= e <= 971 ->
  binary_round_aux prec emax s (Z.pos m) e loc_Exact = S754_finite s m e.
Proof.
  intros Hm He. unfold binary_round_aux, shr_fexp. cbn [Zdigits2 shr_record_of_loc].
  rewrite Hm, fexp_53, Z.sub_diag by lia. cbn [shr shr_m loc_of_shr_record round_nearest_even].
  cbn [Zdigits2 shr_record_of_loc]. rewrite Hm, fexp_53, Z.sub_diag by lia. cbn [shr shr_m].
  replace (e <=? emax - prec) with true; [done|].
  symmetry. apply Z.leb_le. unfold emax, prec. lia.
Qed.

(** Rounding twice such a mantissa halves it and raises the exponent. *)
Lemma round_double (s : bool) (m : positive) (e : Z) :
  digits2_pos m = 53%positive -> -1075 <= e <= 970 ->
  binary_round_aux prec emax s (Z.pos m~0) e loc_Exact = S754_finite s m (e + 1).
Proof.
  intros Hm He. unfold binary_round_aux, shr_fexp.
  cbn [Zdigits2 shr_record_of_loc digits2_pos]. rewrite Hm.
  change (Z.pos (Pos.succ 53)) with 54. rewrite fexp_54 by lia.
  replace (e + 1 - e) with 1 by lia.
  cbn [shr SpecFloat.iter_pos shr_1 shr_m shr_r shr_s loc_of_shr_record round_nearest_even orb].
  cbn [Zdigits2 shr_record_of_loc]. rewrite Hm, fexp_53, Z.sub_diag by lia. cbn [shr shr_m].
  replace (e + 1 <=? emax - prec) with true; [done|].
  symmetry. apply Z.leb_le. unfold emax, prec. lia.
Qed.

(** Dividing a double of 53 bits by 1024 lowers its exponent by ten. *)
Lemma div_1024 (x : float) (m : positive) (e : Z) :
  Prim2SF x = S754_finite false m e ->
  digits2_pos m = 53%positive -> -1000 <= e <= 971 ->
  Prim2SF (x / 1024) = S754_finite false m (e - 10).
Proof.
  intros Hx Hm He. rewrite div_spec, Hx.
  change (Prim2SF 1024) with (S754_finite false 4503599627370496 (-42)).
  unfold SF64div, SFdiv, SFdiv_core_binary. cbn [Zdigits2 xorb].
  rewrite Hm. change (Z.pos (digits2_pos 4503599627370496)) with 53.
  replace (53 + e - (53 + -42)) with (53 + (e - 11)) by lia.
  rewrite fexp_53 by lia.
  change IntDef.Z.min with Z.min. rewrite Z.min_l by lia.
  replace (e - -42 - (e - 11)) with 53 by lia.
  change IntDef.Z.shiftl with Z.shiftl. rewrite Z.shiftl_mul_pow2 by lia.
  change IntDef.Z.div_eucl with Z.div_eucl.
  assert (Hd : Z.div_eucl (Z.pos m * 2 ^ 53) 4503599627370496 = (Z.pos m~0, 0)).
  { pose proof (Z.div_eucl_eq (Z.pos m * 2 ^ 53) 4503599627370496 ltac:(lia)) as Heq.
    pose proof (Z.mod_pos_bound (Z.pos m * 2 ^ 53) 4503599627370496 ltac:(lia)) as Hb.
    unfold Z.modulo in Hb.
    destruct (Z.div_eucl (Z.pos m * 2 ^ 53) 4503599627370496) as [q r].
    f_equal; lia. }
  rewrite Hd. cbn [new_location]. 
  change (new_location 4503599627370496 0) with loc_Exact.
  rewrite round_double by lia. f_equal. lia.
Qed.

Lemma iter_xO_spec (p k : positive) : Z.pos (Pos.iter xO p k) = Z.pos p * 2 ^ Z.pos k.
Proof.
  induction k as [|k IH] using Pos.peano_ind.
  - cbn. lia.
  - rewrite Pos.iter_succ, Pos2Z.inj_xO, IH, Pos2Z.inj_succ, Z.pow_succ_r by lia. lia.
Qed.

Lemma valid_canonical (m : positive) (e : Z) :
  digits2_pos m = 53%positive -> -1074 <= e <= 971 ->
  valid_binary (S754_finite false m e) = true.
Proof.
  intros Hm He. unfold SpecFloat.valid_binary, bounded, canonical_mantissa.
  rewrite Hm, fexp_53 by lia. rewrite Z.eqb_refl. apply Z.leb_le. unfold emax, prec. lia.
Qed.

(** An integer below 2^53 is a double. *)
Lemma number_holds (sz : Z) : 0 < sz < 2 ^ 53 -> holds (number sz) sz 0.
Proof.
  intros Hsz. destruct sz as [|p|p]; try lia.
  unfold number, binary_normalize, binary_round, shl_align.
  destruct (size_bounds p) as [Hle Hgt]. rewrite <- digits2_size in Hle, Hgt.
  set (d := digits2_pos p) in *.
  assert (Hd : 1 <= Z.pos d <= 53).
  { split; [lia|]. destruct (Z.le_gt_cases (Z.pos d) 53) as [|Hc]; [done|].
    assert (2 ^ 54 <= 2 ^ Z.pos d) by (apply Z.pow_le_mono_r; lia). lia. }
  assert (Hf : fexp prec emax (Z.pos d + 0) = Z.pos d - 53).
  { unfold fexp, SpecFloat.emin, prec, emax. lia. }
  rewrite Hf, Z.sub_0_r.
  destruct (Z.pos d - 53) as [|k|k] eqn:Hk; try lia.
  - assert (Hm : digits2_pos p = 53%positive) by (fold d; lia).
    rewrite round_canonical by (done || lia).
    exists p, 0. rewrite Prim2SF_SF2Prim by (apply valid_canonical; done || lia).
    repeat split; try done; lia.
  - assert (Hm : digits2_pos (Pos.iter xO p k) = 53%positive).
    { apply digits2_53. rewrite iter_xO_spec.
      assert (Hp : 2 ^ Z.pos d * 2 ^ Z.pos k = 2 ^ 53).
      { rewrite <- Z.pow_add_r by lia. f_equal. lia. }
      assert (0 < 2 ^ Z.pos k) by (apply Z.pow_pos_nonneg; lia).
      nia. }
    rewrite round_canonical by (done || lia).
    exists (Pos.iter xO p k), (Z.neg k).
    rewrite Prim2SF_SF2Prim by (apply valid_canonical; done || lia).
    split; [done|]. split; [done|]. split; [lia|].
    rewrite iter_xO_spec. reflexivity.
Qed.

(* ===================================================================== *)
(** ** Rounding to nearest even *)
(* ===================================================================== *)

Lemma rne_near (n d : Z) :
  0 < d ->
  (2 * rne n d - 1) * d <= 2 * n <= (2 * rne n d + 1) * d /\
  (2 * n = (2 * rne n d + 1) * d \/ 2 * n = (2 * rne n d - 1) * d ->
   Z.even (rne n d) = true).
Proof.
  intros Hd. unfold rne.
  pose proof (Z.div_mod n d ltac:(lia)) as Hn.
  pose proof (Z.mod_pos_bound n d Hd) as Hr.
  set (q := n / d) in *. set (r := n mod d) in *.
  destruct (Z.compare_spec (2 * r) d) as [He|Hl|Hg].
  - destruct (Z.even q) eqn:Hq.
    + split; [nia|]. intros _. exact Hq.
    + split; [nia|]. intros _. rewrite Z.even_add, Hq. reflexivity.
  - split; [nia|]. intros [H|H]; nia.
  - split; [nia|]. intros [H|H]; nia.
Qed.

(** The rounding keeps the order of the quotients. *)
Lemma rne_mono (n d n' d' : Z) :
  0 < d -> 0 < d' -> n * d' <= n' * d -> rne n d <= rne n' d'.
Proof.
  intros Hd Hd' Hle.
  destruct (rne_near n d Hd) as [[Hlo _] Hev].
  destruct (rne_near n' d' Hd') as [[_ Hhi] Hev'].
  set (m := rne n d) in *. set (m' := rne n' d') in *.
  destruct (Z.le_gt_cases m m') as [|Hgt]; [done|exfalso].
  assert (H1 : (2 * m - 1) * d * d' <= 2 * n * d') by nia.
  assert (H2 : 2 * n' * d <= (2 * m' + 1) * d' * d) by nia.
  assert (H3 : (2 * m - 1) * (d * d') <= (2 * m' + 1) * (d * d')) by nia.
  assert (Hdd : 0 < d * d') by nia.
  assert (Hm : m = m' + 1) by nia.
  assert (E1 : 2 * n = (2 * m - 1) * d) by nia.
  assert (E2 : 2 * n' = (2 * m' + 1) * d') by nia.
  specialize (Hev (or_intror E1)). specialize (Hev' (or_introl E2)).
  rewrite Hm, Z.even_add, Hev' in Hev. discriminate.
Qed.

Lemma rne_exact (a d : Z) : 0 < d -> rne (a * d) d = a.
Proof.
  intros Hd. unfold rne. rewrite Z.mod_mul, Z.div_mul by lia.
  destruct (Z.compare_spec (2 * 0) d); lia || done.
Qed.

Lemma rne_bounds (n d a b : Z) :
  0 < d -> a * d <= n <= b * d -> a <= rne n d <= b.
Proof.
  intros Hd [Ha Hb]. split.
  - rewrite <- (rne_exact a d Hd). apply rne_mono; nia.
  - rewrite <- (rne_exact b d Hd). apply rne_mono; nia.
Qed.

(* ===================================================================== *)
(** ** The right shifts of the rounding *)
(* ===================================================================== *)

Lemma shr_1_spec (m : Z) (r s : bool) :
  0 <= m ->
  shr_1 (Build_shr_record m r s) = Build_shr_record (m / 2) (Z.odd m) (r || s).
Proof.
  intros Hm. rewrite <- Z.div2_div.
  destruct m as [|[p|p|]|]; try lia; reflexivity.
Qed.

Lemma new_location_spec (n d : Z) :
  0 < d -> new_location d (n mod d) = location_of n d.
Proof.
  intros Hd. pose proof (Z.mod_pos_bound n d Hd) as Hr.
  unfold new_location, new_location_even, new_location_odd, location_of.
  set (r := n mod d) in *.
  change IntDef.Z.even with Z.even.
  destruct (Z.even d) eqn:He; [reflexivity|].
  destruct (Z.eqb_spec r 0); [reflexivity|]. f_equal.
  destruct (Z.compare_spec (2 * r + 1) d) as [H|H|H];
    destruct (Z.compare_spec (2 * r) d) as [H'|H'|H']; try reflexivity; try lia.
  rewrite <- H', Z.even_mul in He. discriminate.
Qed.

Lemma located_init (n d : Z) :
  located n d (shr_record_of_loc (n / d) (location_of n d)).
Proof. unfold located. by destruct (location_of n d) as [|[]]. Qed.

Lemma located_step (n d : Z) (mrs : shr_record) :
  0 <= n -> 0 < d -> located n d mrs -> located n (d * 2) (shr_1 mrs).
Proof.
  intros Hn Hd [Hm Hl]. destruct mrs as [m r s]. cbn [shr_m] in Hm. subst m.
  assert (Hq : 0 <= n / d) by (apply Z.div_pos; lia).
  rewrite shr_1_spec by done. unfold located. cbn [shr_m]. split.
  - rewrite Z.div_div by lia. reflexivity.
  - pose proof (Z.mod_pos_bound n d Hd) as Hr.
    unfold location_of in *. rewrite Z.rem_mul_r, Zmod_odd by lia.
    set (q := n / d) in *. set (rho := n mod d) in *.
    destruct (Z.eqb_spec rho 0) as [Hz|Hz].
    + destruct r, s; try discriminate Hl. rewrite Hz. cbn [orb loc_of_shr_record].
      destruct (Z.odd q); cbn [loc_of_shr_record].
      * destruct (Z.eqb_spec (0 + d * 1) 0); [lia|].
        destruct (Z.compare_spec (2 * (0 + d * 1)) (d * 2)); done || lia.
      * destruct (Z.eqb_spec (0 + d * 0) 0); [done|lia].
    + assert (Hs : r || s = true) by (destruct r, s; done).
      rewrite Hs. destruct (Z.odd q); cbn [loc_of_shr_record].
      * destruct (Z.eqb_spec (rho + d * 1) 0); [lia|].
        destruct (Z.compare_spec (2 * (rho + d * 1)) (d * 2)); done || lia.
      * destruct (Z.eqb_spec (rho + d * 0) 0); [lia|].
        destruct (Z.compare_spec (2 * (rho + d * 0)) (d * 2)); done || lia.
Qed.

Lemma located_iter (p : positive) (n d : Z) (mrs : shr_record) :
  0 <= n -> 0 < d -> located n d mrs ->
  located n (d * 2 ^ Z.pos p) (SpecFloat.iter_pos shr_1 p mrs).
Proof.
  intros Hn. revert d mrs.
  induction p as [p IH|p IH|]; intros d mrs Hd H; cbn [SpecFloat.iter_pos].
  - assert (Hp : 0 < 2 ^ Z.pos p) by (apply Z.pow_pos_nonneg; lia).
    replace (d * 2 ^ Z.pos p~1) with (d * 2 * 2 ^ Z.pos p * 2 ^ Z.pos p).
    2:{ replace (Z.pos p~1) with (1 + Z.pos p + Z.pos p) by lia.
        rewrite !Z.pow_add_r by lia. change (2 ^ 1) with 2. lia. }
    apply IH; [nia|]. apply IH; [lia|]. by apply located_step.
  - assert (Hp : 0 < 2 ^ Z.pos p) by (apply Z.pow_pos_nonneg; lia).
    replace (d * 2 ^ Z.pos p~0) with (d * 2 ^ Z.pos p * 2 ^ Z.pos p).
    2:{ replace (Z.pos p~0) with (Z.pos p + Z.pos p) by lia.
        rewrite Z.pow_add_r by lia. lia. }
    apply IH; [nia|]. by apply IH.
  - change (2 ^ 1) with 2. by apply located_step.
Qed.

Lemma located_round (n d : Z) (mrs : shr_record) :
  0 < d -> located n d mrs ->
  round_nearest_even (shr_m mrs) (loc_of_shr_record mrs) = rne n d.
Proof.
  intros Hd [-> ->]. unfold location_of, rne, round_nearest_even.
  change IntDef.Z.even with Z.even.
  destruct (Z.eqb_spec (n mod d) 0) as [->|_].
  - destruct (Z.compare_spec (2 * 0) d); lia || done.
  - destruct (2 * (n mod d) ?= d); reflexivity.
Qed.

Lemma digits2_eq (p : positive) (t : Z) :
  2 ^ (t - 1) <= Z.pos p < 2 ^ t -> Z.pos (digits2_pos p) = t.
Proof.
  intros [Hlo Hhi]. rewrite digits2_size. destruct (size_bounds p) as [Hle Hgt].
  set (z := Z.pos (Pos.size p)) in *.
  assert (Ht : 0 < t).
  { destruct (Z.lt_ge_cases 0 t) as [|Hc]; [done|exfalso].
    destruct (Z.eq_dec t 0) as [->|]; [cbn in Hhi; lia|].
    rewrite Z.pow_neg_r in Hhi by lia. lia. }
  destruct (Z.lt_trichotomy z t) as [Hc|[Hc|Hc]]; [exfalso|done|exfalso].
  - assert (2 ^ z <= 2 ^ (t - 1)) by (apply Z.pow_le_mono_r; lia). lia.
  - assert (2 ^ (t + 1) <= 2 ^ z) by (apply Z.pow_le_mono_r; lia).
    rewrite Z.pow_add_r in * by lia. lia.
Qed.

Lemma shr_located (n d e k : Z) (mrs : shr_record) :
  0 <= n -> 0 < d -> 0 <= k -> located n d mrs ->
  exists mrs', shr mrs e k = (mrs', e + k) /\ located n (d * 2 ^ k) mrs'.
Proof.
  intros Hn Hd Hk H. destruct k as [|p|p]; [| |lia].
  - exists mrs. cbn [shr]. rewrite Z.add_0_r, Z.mul_1_r. done.
  - eexists. split; [reflexivity|]. by apply located_iter.
Qed.

(** Rounding [n / d] to 53 bits from a quotient of [53 + k] bits. *)
Lemma round_spec (n d ex k : Z) :
  0 < d -> 0 <= k -> 2 ^ (52 + k) * d <= n < 2 ^ (53 + k) * d ->
  -1074 <= ex + k <= 969 ->
  exists m e,
    binary_round_aux prec emax false (n / d) ex (location_of n d) = S754_finite false m e /\
    digits2_pos m = 53%positive /\ ex + k <= e <= ex + k + 1 /\
    Z.pos m * 2 ^ (e + 1074) = rne n (d * 2 ^ k) * 2 ^ (ex + k + 1074).
Proof.
  intros Hd Hk [Hlo Hhi] He.
  assert (Hpk : 0 < 2 ^ k) by (apply Z.pow_pos_nonneg; lia).
  assert (Hp52 : 0 < 2 ^ (52 + k)) by (apply Z.pow_pos_nonneg; lia).
  assert (Hn : 0 <= n) by nia.
  assert (Hq : 2 ^ (52 + k) <= n / d < 2 ^ (53 + k)).
  { split; [apply Z.div_le_lower_bound; lia|apply Z.div_lt_upper_bound; lia]. }
  destruct (n / d) as [|pq|pq] eqn:Eq; [lia| |lia].
  assert (Hdig : Z.pos (digits2_pos pq) = 53 + k).
  { apply digits2_eq. replace (53 + k - 1) with (52 + k) by lia. done. }
  unfold binary_round_aux, shr_fexp at 1. cbn [Zdigits2]. rewrite Hdig.
  replace (53 + k + ex) with (53 + (ex + k)) by lia. rewrite fexp_53 by lia.
  replace (ex + k - ex) with k by lia.
  destruct (shr_located n d ex k (shr_record_of_loc (Z.pos pq) (location_of n d)))
    as (mrs' & -> & Hloc); try done.
  { rewrite <- Eq. apply located_init. }
  rewrite (located_round n (d * 2 ^ k)) by (done || lia).
  assert (Hb : 2 ^ 52 <= rne n (d * 2 ^ k) <= 2 ^ 53).
  { apply rne_bounds; [lia|]. rewrite !Z.pow_add_r in * by lia. lia. }
  set (z := rne n (d * 2 ^ k)) in *.
  set (e := ex + k) in *.
  assert (HA : 0 < 2 ^ (e + 1074)) by (apply Z.pow_pos_nonneg; lia).
  destruct (Z.eq_dec z (2 ^ 53)) as [Hz|Hz].
  - rewrite Hz. exists 4503599627370496%positive, (e + 1).
    unfold shr_fexp. change (2 ^ 53) with (Z.pos 9007199254740992).
    cbn [Zdigits2 shr_record_of_loc].
    change (Z.pos (digits2_pos 9007199254740992)) with 54.
    rewrite fexp_54 by lia. replace (e + 1 - e) with 1 by lia.
    cbn [shr SpecFloat.iter_pos shr_1 shr_m].
    replace (e + 1 <=? emax - prec) with true
      by (symmetry; apply Z.leb_le; unfold emax, prec; lia).
    split; [done|]. split; [done|]. split; [lia|].
    replace (e + 1 + 1074) with (1 + (e + 1074)) by lia.
    rewrite Z.pow_add_r by lia. lia.
  - destruct z as [|pz|pz] eqn:Ez; [lia| |lia].
    assert (Hdz : digits2_pos pz = 53%positive).
    { apply digits2_53. lia. }
    exists pz, e. unfold shr_fexp. cbn [Zdigits2 shr_record_of_loc].
    rewrite Hdz, fexp_53, Z.sub_diag by lia. cbn [shr shr_m].
    replace (e <=? emax - prec) with true
      by (symmetry; apply Z.leb_le; unfold emax, prec; lia).
    split; [done|]. split; [done|]. split; [lia|done].
Qed.

(* ===================================================================== *)
(** ** Division and multiplication of doubles *)
(* ===================================================================== *)

Lemma div_eucl_pair (a b : Z) : Z.div_eucl a b = (a / b, a mod b).
Proof. unfold Z.div, Z.modulo. by destruct (Z.div_eucl a b). Qed.

Lemma weight_finite (x : float) (m : positive) (e : Z) :
  Prim2SF x = S754_finite false m e -> weight x = Z.pos m * 2 ^ (e + 1074).
Proof. unfold weight. by intros ->. Qed.

(** The quotient of two integers below 2^53, as doubles, is their exact
    quotient rounded to 53 bits. *)
Lemma div_rounded (x y : float) (a b : Z) :
  holds x a 0 -> holds y b 0 ->
  exists m e,
    Prim2SF (x / y) = S754_finite false m e /\ digits2_pos m = 53%positive /\
    -106 <= e <= 1 /\ rounded (weight (x / y)) a b.
Proof.
  intros (m1 & e1 & Hx & Hm1 & He1 & Hv1) (m2 & e2 & Hy & Hm2 & He2 & Hv2).
  rewrite Z.mul_0_r, Z.add_0_r in He1, He2, Hv1, Hv2.
  pose proof (proj1 (digits2_53 m1) Hm1) as Hb1.
  pose proof (proj1 (digits2_53 m2) Hm2) as Hb2.
  set (n := Z.pos m1 * 2 ^ 53).
  assert (Hk : exists k, 0 <= k <= 1 /\
                 2 ^ (52 + k) * Z.pos m2 <= n < 2 ^ (53 + k) * Z.pos m2).
  { unfold n. destruct (Z.lt_ge_cases (Z.pos m1) (Z.pos m2)).
    - exists 0. split; [lia|]. change (2 ^ (52 + 0)) with (2 ^ 52).
      change (2 ^ (53 + 0)) with (2 ^ 53). lia.
    - exists 1. split; [lia|]. change (2 ^ (52 + 1)) with (2 ^ 53).
      change (2 ^ (53 + 1)) with (2 * 2 ^ 53). lia. }
  destruct Hk as (k & Hk & Hn).
  destruct (round_spec n (Z.pos m2) (e1 - e2 - 53) k) as (m & e & Hr & Hm & He & Hw);
    try done; try lia.
  exists m, e.
  assert (Hdiv : Prim2SF (x / y) = S754_finite false m e).
  { rewrite div_spec, Hx, Hy.
    unfold SF64div, SFdiv, SFdiv_core_binary. cbn [Zdigits2 xorb]. rewrite Hm1, Hm2.
    replace (53 + e1 - (53 + e2)) with (53 + (e1 - e2 - 53)) by lia.
    rewrite fexp_53 by lia.
    change IntDef.Z.min with Z.min. rewrite Z.min_l by lia.
    replace (e1 - e2 - (e1 - e2 - 53)) with 53 by lia.
    change IntDef.Z.shiftl with Z.shiftl. rewrite Z.shiftl_mul_pow2 by lia.
    change IntDef.Z.div_eucl with Z.div_eucl. fold n.
    rewrite div_eucl_pair, new_location_spec by lia. exact Hr. }
  split; [exact Hdiv|]. split; [exact Hm|]. split; [lia|].
  rewrite (weight_finite _ m e Hdiv).
  assert (Hpk : 0 < 2 ^ k) by (apply Z.pow_pos_nonneg; lia).
  exists n, (Z.pos m2 * 2 ^ k), (e1 - e2 - 53 + k).
  split; [lia|]. split.
  { rewrite !Z.pow_add_r in Hn by lia. lia. }
  split; [lia|]. split; [exact Hw|].
  unfold n. rewrite Hv1, Hv2.
  assert (Hp : 2 ^ (- e1) * 2 ^ 53 * 2 ^ (e1 - e2 - 53 + k + 1074) =
               2 ^ 1074 * (2 ^ (- e2) * 2 ^ k)).
  { rewrite <- !Z.pow_add_r by lia. f_equal. lia. }
  transitivity (a * b * (2 ^ (- e1) * 2 ^ 53 * 2 ^ (e1 - e2 - 53 + k + 1074))); [ring|].
  rewrite Hp. ring.
Qed.

(** The product of two doubles is their exact product rounded to 53
    bits. *)
Lemma mul_rounded (x y : float) :
  normal 150 x -> normal 150 y ->
  normal 400 (x * y) /\
  rounded (weight (x * y)) (weight x * weight y) (2 ^ 1074 * 2 ^ 1074).
Proof.
  intros (mx & ex & Hx & Hmx & Hex) (my & ey & Hy & Hmy & Hey).
  pose proof (proj1 (digits2_53 mx) Hmx) as Hbx.
  pose proof (proj1 (digits2_53 my) Hmy) as Hby.
  set (n := Z.pos mx * Z.pos my).
  assert (Hk : exists k, 52 <= k <= 53 /\ 2 ^ (52 + k) * 1 <= n < 2 ^ (53 + k) * 1).
  { unfold n. destruct (Z.lt_ge_cases (Z.pos mx * Z.pos my) (2 ^ 105)).
    - exists 52. split; [lia|]. change (2 ^ (52 + 52)) with (2 ^ 52 * 2 ^ 52).
      change (2 ^ (53 + 52)) with (2 ^ 105). nia.
    - exists 53. split; [lia|]. change (2 ^ (52 + 53)) with (2 ^ 105).
      change (2 ^ (53 + 53)) with (2 ^ 53 * 2 ^ 53). nia. }
  destruct Hk as (k & Hk & Hn).
  destruct (round_spec n 1 (ex + ey) k) as (m & e & Hr & Hm & He & Hw);
    try done; try lia.
  rewrite Z.div_1_r in Hr. rewrite Z.mul_1_l in Hw.
  assert (Hloc : location_of n 1 = loc_Exact).
  { unfold location_of. by rewrite Z.mod_1_r. }
  rewrite Hloc in Hr.
  assert (Hmul : Prim2SF (x * y) = S754_finite false m e).
  { rewrite mul_spec, Hx, Hy. unfold SF64mul, SFmul. cbn [xorb].
    change (Z.pos (PosDef.Pos.mul mx my)) with (Z.pos mx * Z.pos my).
    change IntDef.Z.add with Z.add. exact Hr. }
  split.
  { exists m, e. split; [exact Hmul|]. split; [exact Hm|]. lia. }
  rewrite (weight_finite _ m e Hmul), (weight_finite _ _ _ Hx), (weight_finite _ _ _ Hy).
  assert (Hpk : 0 < 2 ^ k) by (apply Z.pow_pos_nonneg; lia).
  exists n, (2 ^ k), (ex + ey + k).
  split; [lia|]. split.
  { rewrite !Z.pow_add_r, !Z.mul_1_r in Hn by lia. lia. }
  split; [lia|]. split; [exact Hw|].
  unfold n.
  assert (Hp : 2 ^ (ex + ey + k + 1074) * 2 ^ 1074 =
               2 ^ (ex + 1074) * 2 ^ (ey + 1074) * 2 ^ k).
  { rewrite <- !Z.pow_add_r by lia. f_equal. lia. }
  transitivity (Z.pos mx * Z.pos my * 2 ^ 1074 * (2 ^ (ex + ey + k + 1074) * 2 ^ 1074));
    [ring|].
  rewrite Hp. ring.
Qed.

(** Doubles that are rounded quotients are ordered as the quotients. *)
Lemma rounded_mono (w a b w' a' b' : Z) :
  0 < b -> 0 < b' -> rounded w a b -> rounded w' a' b' ->
  a * b' <= a' * b -> w <= w'.
Proof.
  intros Hb Hb' (n & d & e & Hd & Hn & He & -> & Hv)
    (n' & d' & e' & Hd' & Hn' & He' & -> & Hv') Hle.
  assert (HT : 0 < 2 ^ 1074) by (apply Z.pow_pos_nonneg; lia).
  assert (HA : 0 < 2 ^ (e + 1074)) by (apply Z.pow_pos_nonneg; lia).
  assert (HA' : 0 < 2 ^ (e' + 1074)) by (apply Z.pow_pos_nonneg; lia).
  destruct (rne_bounds n d (2 ^ 52) (2 ^ 53) Hd ltac:(lia)) as [Hr1 Hr2].
  destruct (rne_bounds n' d' (2 ^ 52) (2 ^ 53) Hd' ltac:(lia)) as [Hr1' Hr2'].
  assert (Hkey : n * d' * 2 ^ (e + 1074) <= n' * d * 2 ^ (e' + 1074)).
  { apply (Z.mul_le_mono_pos_r _ _ (b * b')); [nia|].
    replace (n * d' * 2 ^ (e + 1074) * (b * b'))
      with (n * 2 ^ (e + 1074) * b * (d' * b')) by ring.
    replace (n' * d * 2 ^ (e' + 1074) * (b * b'))
      with (n' * 2 ^ (e' + 1074) * b' * (d * b)) by ring.
    rewrite Hv, Hv'.
    replace (a * 2 ^ 1074 * d * (d' * b')) with (a * b' * (2 ^ 1074 * d * d')) by ring.
    replace (a' * 2 ^ 1074 * d' * (d * b)) with (a' * b * (2 ^ 1074 * d * d')) by ring.
    apply Z.mul_le_mono_nonneg_r; [nia|done]. }
  set (r := rne n d) in *. set (r' := rne n' d') in *.
  destruct (Z.lt_trichotomy e e') as [Hc|[Hc|Hc]].
  - clear Hkey. replace (e' + 1074) with ((e + 1074) + (e' - e)) by lia.
    rewrite (Z.pow_add_r 2 (e + 1074) (e' - e)) by lia.
    assert (HB : 2 ^ 1 <= 2 ^ (e' - e)) by (apply Z.pow_le_mono_r; lia).
    set (A := 2 ^ (e + 1074)) in *. set (B := 2 ^ (e' - e)) in *.
    clearbody A B. change (2 ^ 1) with 2 in HB.
    assert (H1 : r * A <= 2 ^ 53 * A) by (apply Z.mul_le_mono_nonneg_r; lia).
    assert (H2 : 2 * A <= A * B) by (rewrite (Z.mul_comm 2); apply Z.mul_le_mono_nonneg_l; lia).
    assert (H3 : 2 ^ 52 * (A * B) <= r' * (A * B)) by (apply Z.mul_le_mono_nonneg_r; lia).
    lia.
  - subst e'. apply Z.mul_le_mono_nonneg_r; [lia|].
    apply rne_mono; [done..|].
    apply (Z.mul_le_mono_pos_r _ _ (2 ^ (e + 1074))); [done|]. lia.
  - exfalso.
    replace (e + 1074) with ((e' + 1074) + (e - e')) in Hkey by lia.
    rewrite (Z.pow_add_r 2 (e' + 1074) (e - e')) in Hkey by lia.
    assert (HB : 2 ^ 1 <= 2 ^ (e - e')) by (apply Z.pow_le_mono_r; lia).
    clear HA. set (A := 2 ^ (e' + 1074)) in *. set (B := 2 ^ (e - e')) in *.
    clearbody A B. change (2 ^ 1) with 2 in HB.
    assert (Hdd : 0 < d * d') by (apply Z.mul_pos_pos; lia).
    assert (HAB : 2 * A <= A * B)
      by (rewrite (Z.mul_comm 2); apply Z.mul_le_mono_nonneg_l; lia).
    assert (H0 : 2 ^ 52 * (d * d') <= n * d').
    { replace (2 ^ 52 * (d * d')) with (2 ^ 52 * d * d') by ring.
      apply Z.mul_le_mono_nonneg_r; lia. }
    assert (H1 : 2 ^ 52 * (d * d') * (A * B) <= n * d' * (A * B))
      by (apply Z.mul_le_mono_nonneg_r; lia).
    assert (H2' : n' * d < 2 ^ 53 * (d * d')).
    { replace (2 ^ 53 * (d * d')) with (2 ^ 53 * d' * d) by ring.
      apply Z.mul_lt_mono_pos_r; lia. }
    assert (H2 : n' * d * A < 2 ^ 53 * (d * d') * A)
      by (apply Z.mul_lt_mono_pos_r; lia).
    assert (H3 : 2 ^ 52 * (d * d') * (2 * A) <= 2 ^ 52 * (d * d') * (A * B))
      by (apply Z.mul_le_mono_nonneg_l; lia).
    lia.
Qed.

(** [Math.round] of a positive double, from its weight. *)
Lemma Math_round_weight (x : float) (m : positive) (e : Z) :
  Prim2SF x = S754_finite false m e -> -1074 <= e ->
  Math_round x = (2 * weight x + 2 ^ 1074) / (2 * 2 ^ 1074).
Proof.
  intros Hx He. rewrite (weight_finite x m e Hx). unfold Math_round. rewrite Hx.
  assert (HT : 0 < 2 ^ 1074) by (apply Z.pow_pos_nonneg; lia).
  destruct (Z.leb_spec 0 e) as [Hp|Hn].
  - rewrite Z.pow_add_r by lia.
    replace (2 * (Z.pos m * (2 ^ e * 2 ^ 1074)) + 2 ^ 1074)
      with (Z.pos m * 2 ^ e * (2 * 2 ^ 1074) + 2 ^ 1074) by ring.
    rewrite Z.div_add_l, (Z.div_small (2 ^ 1074)) by lia. lia.
  - assert (Hu : 0 < 2 ^ (- e)) by (apply Z.pow_pos_nonneg; lia).
    assert (Hc : 0 < 2 ^ (e + 1074)) by (apply Z.pow_pos_nonneg; lia).
    assert (HTe : 2 ^ 1074 = 2 ^ (- e) * 2 ^ (e + 1074)).
    { rewrite <- Z.pow_add_r by lia. f_equal. lia. }
    rewrite HTe.
    replace (2 * (Z.pos m * 2 ^ (e + 1074)) + 2 ^ (- e) * 2 ^ (e + 1074))
      with ((2 * Z.pos m + 2 ^ (- e)) * 2 ^ (e + 1074)) by ring.
    replace (2 * (2 ^ (- e) * 2 ^ (e + 1074)))
      with (2 * 2 ^ (- e) * 2 ^ (e + 1074)) by ring.
    rewrite Z.div_mul_cancel_r by lia. reflexivity.
Qed.

Lemma holds_normal (x : float) (n : Z) : holds x n 0 -> normal 150 x.
Proof.
  intros (m & e & Hx & Hm & He & _). exists m, e. split; [done|]. split; [done|lia].
Qed.

(** The percentage follows the order of the quotients: it is computed in
    three steps, a division, a multiplication and a rounding to an
    integer, each of which keeps the order. *)
Lemma percent_le (n sz n' sz' : Z) :
  0 < n < 2 ^ 53 -> 0 < sz < 2 ^ 53 -> 0 < n' < 2 ^ 53 -> 0 < sz' < 2 ^ 53 ->
  n * sz' <= n' * sz -> percent n sz <= percent n' sz'.
Proof.
  intros Hn Hsz Hn' Hsz' Hle. unfold percent.
  destruct (div_rounded (number n) (number sz) n sz) as (m & e & Hq & Hm & He & Hr);
    [by apply number_holds..|].
  destruct (div_rounded (number n') (number sz') n' sz') as (m' & e' & Hq' & Hm' & He' & Hr');
    [by apply number_holds..|].
  assert (Hc : normal 150 (number 100)) by (apply (holds_normal _ 100), number_holds; lia).
  destruct (mul_rounded (number n / number sz) (number 100)) as [(my & ey & Hy & _ & Hey) Hp];
    [exists m, e; split; [done|]; split; [done|lia]|done|].
  destruct (mul_rounded (number n' / number sz') (number 100))
    as [(my' & ey' & Hy' & _ & Hey') Hp'];
    [exists m', e'; split; [done|]; split; [done|lia]|done|].
  rewrite (Math_round_weight _ my ey Hy), (Math_round_weight _ my' ey' Hy') by lia.
  assert (HT : 0 < 2 ^ 1074) by (apply Z.pow_pos_nonneg; lia).
  apply Z.div_le_mono; [lia|].
  assert (Hw : weight (number n / number sz) <= weight (number n' / number sz')).
  { apply (rounded_mono _ n sz _ n' sz'); done || lia. }
  assert (H100 : 0 <= weight (number 100)).
  { destruct Hc as (mc & ec & Hc & _ & _). rewrite (weight_finite _ mc ec Hc).
    apply Z.mul_nonneg_nonneg; [lia|]. apply Z.pow_nonneg. lia. }
  assert (weight (number n / number sz * number 100) <=
          weight (number n' / number sz' * number 100)); [|lia].
  eapply rounded_mono; [| |exact Hp|exact Hp'|]; [nia|nia|].
  apply Z.mul_le_mono_nonneg_r; [nia|].
  apply Z.mul_le_mono_nonneg_r; [done|exact Hw].
Qed.

(* ===================================================================== *)
(** ** What is read from a body *)
(* ===================================================================== *)

Lemma bufSize_pos : (0 < bufSize)%nat.
Proof. unfold bufSize. apply Nat.neq_0_lt_0, Nat.pow_nonzero. done. Qed.

Lemma slices_nil (fuel : nat) : slices fuel [] = [].
Proof. by destruct fuel. Qed.

Lemma slices_concat (fuel : nat) (c : list byte) :
  (length c <= fuel)%nat -> concat (slices fuel c) = c.
Proof.
  revert c. induction fuel as [|fuel IH]; intros c Hc.
  - destruct c; [done|cbn in Hc; lia].
  - destruct c as [|b c]; [done|]. cbn [slices concat].
    rewrite IH, take_drop; [done|].
    pose proof bufSize_pos. rewrite length_drop. cbn [length] in *. lia.
Qed.

Lemma slices_bounded (fuel : nat) (c : list byte) :
  Forall (fun w => w <> [] /\ (length w <= bufSize)%nat) (slices fuel c).
Proof.
  revert c. induction fuel as [|fuel IH]; intros c; [by destruct c|].
  destruct c as [|b c]; [done|]. cbn [slices]. constructor; [|apply IH].
  pose proof bufSize_pos as Hb. split.
  - destruct bufSize; [lia|done].
  - rewrite length_take. lia.
Qed.

Lemma slices_small (c : list byte) :
  c <> [] -> (length c <= bufSize)%nat -> slices (length c) c = [c].
Proof.
  intros Hc Hl. destruct c as [|b c]; [done|]. cbn [length slices].
  rewrite take_ge, drop_ge, slices_nil by done. done.
Qed.

(** What is read is what the stream delivers, unless reading ended at a
    chunk of no bytes. *)
Lemma reader_reads_concat (cs : list (list byte)) :
  reader_ends cs = false -> concat (reader_reads cs) = concat cs.
Proof.
  induction cs as [|c cs IH]; [done|]. destruct c as [|b c]; [done|].
  cbn [reader_ends]. intros H.
  change (reader_reads ((b :: c) :: cs))
    with (slices (length (b :: c)) (b :: c) ++ reader_reads cs).
  rewrite concat_app, slices_concat, IH by done. done.
Qed.

(** Each read has bytes, and no more than the buffer holds. *)
Lemma reader_reads_bounded (cs : list (list byte)) :
  Forall (fun w => w <> [] /\ (length w <= bufSize)%nat) (reader_reads cs).
Proof.
  induction cs as [|c cs IH]; [done|]. destruct c as [|b c]; [done|].
  change (reader_reads ((b :: c) :: cs))
    with (slices (length (b :: c)) (b :: c) ++ reader_reads cs).
  apply Forall_app. split; [apply slices_bounded|done].
Qed.

(** Chunks that have bytes and fit the buffer are read one by one. *)
Lemma reader_reads_small (cs : list (list byte)) :
  Forall (fun c => c <> [] /\ (length c <= bufSize)%nat) cs -> reader_reads cs = cs.
Proof.
  induction 1 as [|c cs [Hc Hl] _ IH]; [done|]. destruct c as [|b c]; [done|].
  change (reader_reads ((b :: c) :: cs))
    with (slices (length (b :: c)) (b :: c) ++ reader_reads cs).
  rewrite slices_small, IH by done. done.
Qed.

Lemma taken_bounded (st : Stream) :
  Forall (fun w => w <> [] /\ (length w <= bufSize)%nat) (taken st).
Proof. apply reader_reads_bounded. Qed.

(** For a body without a chunk of no bytes: what is taken is all its
    bytes, and the copies end in an error exactly when the stream does. *)
Lemma taken_whole (st : Stream) :
  reader_ends (chunks st) = false ->
  concat (taken st) = concat (chunks st) /\ broken st = fails st.
Proof.
  intros H. split; [by apply reader_reads_concat|].
  unfold broken, readerFromStreamReader. cbn [throws]. rewrite H. apply andb_true_r.
Qed.

(** The copies end in an error only when the stream does. *)
Lemma broken_fails (st : Stream) : broken st = true -> fails st = true.
Proof.
  unfold broken, readerFromStreamReader. cbn [throws]. by intros [? _]%andb_true_iff.
Qed.

(* ===================================================================== *)
(** ** Progress *)
(* ===================================================================== *)

Lemma declared_size_pos (rsp : Response) (sz : Z) :
  declared_size rsp = Some sz -> 0 < sz.
Proof. apply chuzzle_pos. Qed.

(** The percentage of a few quotients, by evaluation. *)
Example percent_at_thresholds :
  percent 1 1 = 100 /\ percent 199 200 = 100 /\
  percent 1989999999999999 2000000000000000 = 99.
Proof. vm_compute. done. Qed.

(** No percentage above 100 while the count is within the size. *)
Lemma percent_at_most_100 (n sz : Z) :
  0 < n -> n <= sz -> sz < 2 ^ 53 -> percent n sz <= 100.
Proof.
  intros Hn Hle Hsz. destruct percent_at_thresholds as (<- & _).
  apply percent_le; lia.
Qed.

(** From 99.5 % of the size on, the percentage is 100. *)
Lemma percent_100 (n sz : Z) :
  0 < n -> sz < 2 ^ 53 -> 199 * sz <= 200 * n <= 200 * sz -> percent n sz = 100.
Proof.
  intros Hn Hsz [Hlo Hhi]. apply Z.le_antisymm.
  - apply percent_at_most_100; lia.
  - destruct percent_at_thresholds as (_ & <- & _). apply percent_le; lia.
Qed.

(** Below 99.5 % of a size of at most 10^13 bytes, it is less. *)
Lemma percent_below_100 (n sz : Z) :
  0 < n -> sz <= 10 ^ 13 -> 200 * n < 199 * sz -> percent n sz <= 99.
Proof.
  intros Hn Hsz Hlt. destruct percent_at_thresholds as (_ & _ & <-).
  assert (10 ^ 13 < 2 ^ 53) by done.
  change (10 ^ 13) with 10000000000000 in *.
  apply percent_le; lia.
Qed.

(** The percentage of [n] in [sz] rounded from the exact quotient, a half
    going up: what [percent] gives in doubles is not always that. *)
Lemma percent_exact_100 (n sz : Z) :
  0 < sz -> (percent_exact n sz = 100 <-> 199 * sz <= 200 * n < 201 * sz).
Proof.
  intros Hsz. unfold percent_exact. split.
  - intros H.
    pose proof (Z.mul_div_le (200 * n + sz) (2 * sz)).
    pose proof (Z.mul_succ_div_gt (200 * n + sz) (2 * sz)). nia.
  - intros H. symmetry. apply Z.div_unique with (200 * n + sz - 200 * sz); lia.
Qed.

(** Where the doubles part from the exact rounding, for a declared size
    of 1000: the four counts whose exact percentage is a half that the
    double product falls just short of (285 / 1000 * 100 is
    28.499999999999996). *)
Example binary64_ties_at_1000 :
  filter (fun n => negb (percent n 1000 =? percent_exact n 1000))
         (map Z.of_nat (seq 0 1001)) = [145; 285; 565; 575].
Proof. vm_compute. reflexivity. Qed.

Lemma byte_counts_ge (n : Z) (cs : list (list byte)) (k : Z) :
  k ∈ byte_counts n cs -> n <= k.
Proof.
  revert n. induction cs as [|c cs IH]; intros n; cbn.
  - intros H. by apply elem_of_nil in H.
  - intros [->|H]%elem_of_cons; [lia|]. apply IH in H. lia.
Qed.

(** A count is past the bytes of a read that has some, and within the
    bytes of all the reads. *)
Lemma byte_counts_range (n : Z) (cs : list (list byte)) (k : Z) :
  Forall (fun c => c <> []) cs -> k ∈ byte_counts n cs ->
  n < k <= n + Z.of_nat (length (concat cs)).
Proof.
  intros Hne. revert n. induction Hne as [|c cs Hc _ IH]; intros n; cbn [byte_counts].
  - intros H. by apply elem_of_nil in H.
  - cbn [concat]. rewrite length_app, Nat2Z.inj_add.
    assert (0 < Z.of_nat (length c)) by (destruct c; [done|cbn [length]; lia]).
    intros [->|H']%elem_of_cons; [lia|]. apply IH in H'. lia.
Qed.

Lemma byte_counts_sorted (n : Z) (cs : list (list byte)) (i j : nat) (a b : Z) :
  (i <= j)%nat -> byte_counts n cs !! i = Some a -> byte_counts n cs !! j = Some b -> a <= b.
Proof.
  revert n i j. induction cs as [|c cs IH]; intros n i j Hij Ha Hb; [done|].
  cbn in Ha, Hb. destruct i as [|i], j as [|j]; cbn in *; try lia.
  - simplify_eq. lia.
  - injection Ha as <-. apply (byte_counts_ge _ cs). by eapply list_elem_of_lookup_2.
  - eapply (IH _ i j); [lia|done..].
Qed.

Lemma last_cons_default {A} (x d : A) (l : list A) :
  List.last (x :: l) d = List.last l x.
Proof.
  revert x d. induction l as [|y l IH]; intros x d; [done|].
  change (List.last (x :: y :: l) d) with (List.last (y :: l) d).
  by rewrite !IH.
Qed.

Lemma byte_counts_last (n : Z) (cs : list (list byte)) :
  List.last (byte_counts n cs) n = n + Z.of_nat (length (concat cs)).
Proof.
  revert n. induction cs as [|c cs IH]; intros n; [cbn; lia|].
  change (byte_counts n (c :: cs))
    with ((n + Z.of_nat (length c)) :: byte_counts (n + Z.of_nat (length c)) cs).
  cbn [concat]. rewrite length_app, Nat2Z.inj_add, Z.add_assoc, <- IH.
  apply last_cons_default.
Qed.

(** C9 as stated fails.  1000 declared bytes delivered as 996 and then 4:
    the percentage shown after the first chunk is already 100, with four
    bytes still to come.  The same happens at the size the claim names:
    1048000 bytes of 1048576 round to 100. *)
Lemma C9_counterexample :
  let rsp := mkResponse 200 (<["Content-Length" := "1000"]> ∅)
               (Some (mkStream [repeat "x"%byte 996; repeat "y"%byte 4] false)) in
  let env := Example.env false rsp [] in
  let r := download_with_sha env (Example.opts Example.url None) Example.empty in
  declared_size rsp = Some 1000 /\
  byte_counts 0 [repeat "x"%byte 996; repeat "y"%byte 4] = [996; 1000] /\
  percents (trace (snd r)) = [100; 100] /\
  percent 1048000 1048576 = 100.
Proof. vm_compute. repeat split. Qed.

Lemma last_map {A B} (f : A -> B) (l : list A) (d : A) :
  List.last (map f l) (f d) = f (List.last l d).
Proof.
  revert d. induction l as [|x l IH]; intros d; [done|].
  change (map f (x :: l)) with (f x :: map f l).
  by rewrite !last_cons_default, IH.
Qed.

Lemma percents_opening (env : Env) (opts : DownloadOptions) (s : State) (rsp : Response) :
  percents (opening env opts s rsp) = [].
Proof. unfold opening, request_line. by destruct (conditional env opts s). Qed.

Lemma percents_marker_events (env : Env) (src : URL) (m : option string) :
  percents (marker_events env src m) = [].
Proof. by destruct m. Qed.

Lemma last_elem_of {A} (x d : A) (l : list A) : List.last (x :: l) d ∈ x :: l.
Proof.
  revert x. induction l as [|y l IH]; intros x; [apply list_elem_of_here|].
  change (List.last (x :: y :: l) d) with (List.last (y :: l) d).
  apply list_elem_of_further, IH.
Qed.

(** The percentages of a call whose body is read to its end. *)
Lemma percents_shown (env : Env) (opts : DownloadOptions) (s : State)
    (rsp : Response) (st : Stream) (sz : Z) :
  String.eqb (protocol (opt_src opts)) "file:" = false ->
  server env (opt_src opts) (request_headers env opts s) = Some rsp ->
  status rsp = 200 ->
  rsp_body rsp = Some st ->
  broken st = false ->
  openable env opts s ->
  declared_size rsp = Some sz ->
  truthy_opt (CI env) = false ->
  percents (drop (length (trace s)) (trace (snd (download_with_sha env opts s)))) =
    map (fun n => percent n sz) (byte_counts 0 (taken st)).
Proof.
  intros Hproto Hrsp Hst Hbody Hfail Hopen Hsz Hci.
  pose proof (declared_size_pos rsp sz Hsz) as Hpos.
  destruct (download_with_sha_200 env opts s rsp st)
    as (s' & t & w & h & E & _ & Ht & _ & Hp & _ & _ & _ & _ & _ & _ & Hall); try done.
  destruct (Hall Hfail) as [-> ->]. rewrite E. cbn [snd].
  rewrite Ht, drop_app_length, !percents_app, percents_opening,
    percents_marker_events, Hp, Hsz.
  unfold progress. rewrite Hci. cbn.
  destruct (sz =? 0) eqn:Hz; [apply Z.eqb_eq in Hz; lia|].
  cbn. by rewrite app_nil_r.
Qed.

(** The count after the last read of a body is its length. *)
Lemma byte_counts_whole (cs : list (list byte)) :
  cs <> [] ->
  List.last (byte_counts 0 cs) 0 = Z.of_nat (length (concat cs)) /\
  Z.of_nat (length (concat cs)) ∈ byte_counts 0 cs.
Proof.
  intros Hne. destruct cs as [|c cs]; [done|].
  assert (Hlast : List.last (byte_counts 0 (c :: cs)) 0 =
                  Z.of_nat (length (concat (c :: cs)))).
  { change (byte_counts 0 (c :: cs))
      with ((0 + Z.of_nat (length c)) :: byte_counts (0 + Z.of_nat (length c)) cs).
    rewrite last_cons_default, byte_counts_last.
    cbn [concat]. rewrite length_app. lia. }
  split; [exact Hlast|]. rewrite <- Hlast.
  change (byte_counts 0 (c :: cs))
    with ((0 + Z.of_nat (length c)) :: byte_counts (0 + Z.of_nat (length c)) cs).
  apply last_elem_of.
Qed.

(** C9, amended. With a declared Content-Length [sz] and outside CI, the
    percentages shown are [Math.round(n / sz * 100)], computed in doubles,
    for the byte count [n] after each read of the body.  They never
    decrease.  100 is shown from 99.5 % of [sz] on, so possibly before
    the last bytes have come, and for a size of at most 10^13 bytes not
    before 99.5 %.  When the body has the declared length the last
    percentage is 100 and none is above it. *)
Theorem C9_progress_is_rounded (env : Env) (opts : DownloadOptions) (s : State)
    (rsp : Response) (st : Stream) (sz : Z) :
  String.eqb (protocol (opt_src opts)) "file:" = false ->
  server env (opt_src opts) (request_headers env opts s) = Some rsp ->
  status rsp = 200 ->
  rsp_body rsp = Some st ->
  broken st = false ->
  openable env opts s ->
  declared_size rsp = Some sz ->
  sz < 2 ^ 53 ->
  Z.of_nat (length (concat (taken st))) < 2 ^ 53 ->
  truthy_opt (CI env) = false ->
  let counts := byte_counts 0 (taken st) in
  let ps := percents (drop (length (trace s))
                           (trace (snd (download_with_sha env opts s)))) in
  ps = map (fun n => percent n sz) counts /\
  (forall i j a b, (i <= j)%nat -> ps !! i = Some a -> ps !! j = Some b -> a <= b) /\
  (forall i n, counts !! i = Some n ->
     199 * sz <= 200 * n <= 200 * sz -> ps !! i = Some 100) /\
  (forall i n, counts !! i = Some n ->
     sz <= 10 ^ 13 -> ps !! i = Some 100 -> 199 * sz <= 200 * n) /\
  (Z.of_nat (length (concat (taken st))) = sz ->
   List.last ps 0 = 100 /\ forall p, p ∈ ps -> p <= 100).
Proof.
  intros Hproto Hrsp Hst Hbody Hfail Hopen Hsz Hbig Hlen Hci counts ps.
  pose proof (declared_size_pos rsp sz Hsz) as Hpos.
  assert (Hps : ps = map (fun n => percent n sz) counts)
    by (by apply (percents_shown env opts s rsp st sz)).
  assert (Hin : forall n, n ∈ counts -> 0 < n < 2 ^ 53).
  { intros n Hn. apply byte_counts_range in Hn; [lia|].
    eapply Forall_impl; [apply taken_bounded|]. by intros w [? _]. }
  assert (Hat : forall i n, counts !! i = Some n -> ps !! i = Some (percent n sz)).
  { intros i n Hn. by rewrite Hps, list_lookup_fmap, Hn. }
  split; [exact Hps|]. split; [|split; [|split]].
  - intros i j a b Hij Ha Hb.
    assert (Hia : is_Some (counts !! i)).
    { apply lookup_lt_is_Some. apply lookup_lt_Some in Ha.
      by rewrite Hps, length_map in Ha. }
    assert (Hjb : is_Some (counts !! j)).
    { apply lookup_lt_is_Some. apply lookup_lt_Some in Hb.
      by rewrite Hps, length_map in Hb. }
    destruct Hia as [na Hna], Hjb as [nb Hnb].
    rewrite (Hat i na Hna) in Ha. rewrite (Hat j nb Hnb) in Hb.
    injection Ha as <-. injection Hb as <-.
    pose proof (Hin na (list_elem_of_lookup_2 _ _ _ Hna)).
    pose proof (Hin nb (list_elem_of_lookup_2 _ _ _ Hnb)).
    apply percent_le; try lia.
    apply Z.mul_le_mono_nonneg_r; [lia|].
    by eapply (byte_counts_sorted 0 (taken st) i j).
  - intros i n Hn Hnear. rewrite (Hat i n Hn). f_equal.
    pose proof (Hin n (list_elem_of_lookup_2 _ _ _ Hn)).
    apply percent_100; lia.
  - intros i n Hn Hsmall Hp. rewrite (Hat i n Hn) in Hp. injection Hp as Hp.
    pose proof (Hin n (list_elem_of_lookup_2 _ _ _ Hn)).
    destruct (Z.le_gt_cases (199 * sz) (200 * n)) as [|Hlt]; [done|].
    pose proof (percent_below_100 n sz ltac:(lia) Hsmall Hlt). lia.
  - intros Hwhole.
    assert (Hne : taken st <> []).
    { intros Hnil. rewrite Hnil in Hwhole. cbn in Hwhole. lia. }
    destruct (byte_counts_whole (taken st) Hne) as [Hlast Hmem].
    fold counts in Hlast, Hmem. rewrite Hwhole in Hlast, Hmem. split.
    + rewrite Hps.
      assert (H0 : percent sz sz = 100) by (apply percent_100; lia).
      destruct counts as [|c cs] eqn:Hcs; [by apply elem_of_nil in Hmem|].
      change (map ?f (c :: cs)) with (f c :: map f cs).
      rewrite last_cons_default, (last_map (fun n => percent n sz) cs c).
      rewrite <- (last_cons_default c 0), Hlast. exact H0.
    + intros p Hp. rewrite Hps in Hp.
      apply list_elem_of_fmap in Hp as (n & -> & Hn).
      pose proof (Hin n Hn).
      apply byte_counts_range in Hn.
      2:{ eapply Forall_impl; [apply taken_bounded|]. by intros w [? _]. }
      apply percent_at_most_100; lia.
Qed.

Lemma C9_witness :
  let rsp := Example.rsp_200 "10" None ["hello"; "world"] false in
  let env := Example.env false rsp [false; true] in
  let opts := Example.opts Example.url None in
  let s := Example.empty in
  let st := mkStream [Example.bytes "hello"; Example.bytes "world"] false in
  let sz := 10 in
  let counts := byte_counts 0 (taken st) in
  let ps := percents (drop (length (trace s))
                           (trace (snd (download_with_sha env opts s)))) in
  ps = map (fun n => percent n sz) counts /\
  (forall i j a b, (i <= j)%nat -> ps !! i = Some a -> ps !! j = Some b -> a <= b) /\
  (forall i n, counts !! i = Some n ->
     199 * sz <= 200 * n <= 200 * sz -> ps !! i = Some 100) /\
  (forall i n, counts !! i = Some n ->
     sz <= 10 ^ 13 -> ps !! i = Some 100 -> 199 * sz <= 200 * n) /\
  (Z.of_nat (length (concat (taken st))) = sz ->
   List.last ps 0 = 100 /\ forall p, p ∈ ps -> p <= 100).
Proof.
  intros rsp env opts s st sz.
  apply (C9_progress_is_rounded env opts s rsp st sz);
    first [by left | vm_compute; reflexivity].
Defined.

(** For the size the spec names, 1048576 bytes: the percentages at some
    counts, and at a count reached through a chunk of more than 32 KiB,
    which is read, and counted, in two parts. *)
Example percents_of_1MiB :
  map (fun n => percent n 1048576) [65536; 524288; 1043333; 1043334; 1048000; 1048576] =
    [6; 50; 99; 100; 100; 100] /\
  map (fun w => Z.of_nat (length w))
      (taken (mkStream [repeat "x"%byte (Z.to_nat 40000);
                        repeat "y"%byte (Z.to_nat 8576)] false)) =
    [32768; 7232; 8576].
Proof. vm_compute. done. Qed.

(* ===================================================================== *)
(** ** Ephemeral calls still record the baseline *)
(* ===================================================================== *)

Lemma key_path_prefix (env env2 : Env) (u : URL) :
  prefix_www env2 = prefix_www env -> key_path env2 u = key_path env u.
Proof. unfold key_path. by intros ->. Qed.

Lemma paths_same_call (env env2 : Env) (opts opts2 : DownloadOptions) :
  prefix_www env2 = prefix_www env ->
  opt_src opts2 = opt_src opts ->
  opt_dst opts2 = opt_dst opts ->
  mtime_path env2 (opt_src opts2) = mtime_path env (opt_src opts) /\
  dst_path env2 opts2 = dst_path env opts.
Proof.
  intros Hp Hs Hd. unfold mtime_path, dst_path.
  by rewrite Hs, Hd, (key_path_prefix env env2 _ Hp).
Qed.

(** Once the marker holds [text] and the destination exists, a later call
    for the same URL and destination that is not ephemeral sends
    If-Modified-Since: [text]. *)
Lemma later_call_is_conditional (env env2 : Env) (opts opts2 : DownloadOptions)
    (s' : State) (text : string) :
  files s' !! mtime_path env (opt_src opts) = Some (list_byte_of_string text) ->
  is_Some (files s' !! dst_path env opts) ->
  prefix_www env2 = prefix_www env ->
  opt_src opts2 = opt_src opts ->
  opt_dst opts2 = opt_dst opts ->
  truthy_flag (opt_ephemeral opts2) = false ->
  conditional env2 opts2 s' = true /\
  request_headers env2 opts2 s' !! "If-Modified-Since" = Some text.
Proof.
  intros Hm Hd Hp Hs Hdst He.
  destruct (paths_same_call env env2 opts opts2 Hp Hs Hdst) as [Em Ed].
  assert (Hc : conditional env2 opts2 s' = true).
  { apply conditional_iff. rewrite Em, Ed, Hm. eauto. }
  split; [exact Hc|].
  rewrite request_headers_ims, Hc. unfold baseline.
  by rewrite Em, Hm, string_of_list_byte_of_string.
Qed.

Lemma marker_event_in (env : Env) (src : URL) (text : string) (t0 t1 t2 t3 : list Event) :
  (mtime_path env src, text)
    ∈ text_writes (t0 ++ t1 ++ t2 ++ marker_events env src (Some text) ++ t3).
Proof.
  rewrite !text_writes_app. cbn.
  apply elem_of_app; right. apply elem_of_app; right. apply elem_of_app; right.
  apply list_elem_of_here.
Qed.

(** C10. A call with [ephemeral] set that gets a 200 with a Last-Modified
    text, and whose body arrives whole, returns its destination and has
    written the marker <key>/mtime with that text; the default
    destination is <key>/<basename>, in the same directory.  A later
    call for the same URL and destination that is not ephemeral is then
    conditional: its one request carries If-Modified-Since with the text.
    Shown for [download] and for [download_with_sha]. *)
Theorem C10_ephemeral_still_records (env : Env) (opts : DownloadOptions) (s : State)
    (rsp : Response) (st : Stream) (text : string) :
  String.eqb (protocol (opt_src opts)) "file:" = false ->
  server env (opt_src opts) (request_headers env opts s) = Some rsp ->
  status rsp = 200 ->
  rsp_body rsp = Some st ->
  broken st = false ->
  openable env opts s ->
  truthy_flag (opt_ephemeral opts) = true ->
  rsp_headers rsp !! "Last-Modified" = Some text ->
  truthy text = true ->
  let key := key_path env (opt_src opts) in
  let marker := mtime_path env (opt_src opts) in
  let later (s' : State) :=
    forall env2 opts2,
      prefix_www env2 = prefix_www env ->
      opt_src opts2 = opt_src opts ->
      opt_dst opts2 = opt_dst opts ->
      truthy_flag (opt_ephemeral opts2) = false ->
      exists t h,
        trace (snd (download env2 opts2 s')) = trace s' ++ t /\
        fetches t = [(opt_src opts, h)] /\
        h !! "If-Modified-Since" = Some text in
  conditional env opts s = false /\
  marker = Path.join key "mtime" /\
  (opt_dst opts = None ->
   dst_path env opts = Path.join key (Path.basename (url_path (opt_src opts))) /\
   Path.parent (dst_path env opts) = key) /\
  (fst (download env opts s) = Ok (dst_path env opts) /\
   files (snd (download env opts s)) !! marker = Some (list_byte_of_string text) /\
   (marker, text) ∈ text_writes (trace (snd (download env opts s))) /\
   later (snd (download env opts s))) /\
  (exists sha,
     fst (download_with_sha env opts s) = Ok (dst_path env opts, sha) /\
     files (snd (download_with_sha env opts s)) !! marker = Some (list_byte_of_string text) /\
     (marker, text) ∈ text_writes (trace (snd (download_with_sha env opts s))) /\
     later (snd (download_with_sha env opts s))).
Proof.
  intros Hproto Hrsp Hst Hbody Hfail Hopen Heph Hlm Htxt key marker later.
  assert (Hrec : recorded rsp st = Some text).
  { unfold recorded, marker_text. by rewrite Hfail, Hlm, Htxt. }
  assert (Hlater : forall s',
            files s' = with_marker env (opt_src opts) (Some text)
                         (<[dst_path env opts := concat (taken st)]> (files s)) ->
            files s' !! marker = Some (list_byte_of_string text) /\ later s').
  { intros s' Hf.
    assert (Hm : files s' !! marker = Some (list_byte_of_string text))
      by (rewrite Hf; apply lookup_insert_eq).
    split; [exact Hm|].
    intros env2 opts2 Hp Hs Hd He.
    destruct (later_call_is_conditional env env2 opts opts2 s' text) as [_ Hims]; try done.
    { rewrite Hf. cbn. rewrite lookup_insert. case_decide; [eauto|].
      rewrite lookup_insert_eq. eauto. }
    destruct (download_one_fetch env2 opts2 s') as (t & Et & Ft); [by rewrite Hs|].
    exists t, (request_headers env2 opts2 s'). by rewrite <- Hs. }
  split; [unfold conditional; by rewrite Heph|].
  split; [done|]. split.
  { intros Hnone. unfold dst_path. rewrite Hnone. cbn.
    split; [done|apply parent_join]. }
  split.
  - destruct (download_200 env opts s rsp st) as (s' & E & Hf & Ht); try done.
    rewrite E, Hfail. cbn. rewrite Hrec in Hf, Ht.
    destruct (Hlater s' Hf) as [Hm Hl]. repeat split; try done.
    rewrite Ht. apply marker_event_in.
  - destruct (download_with_sha_200 env opts s rsp st)
      as (s' & t & w & h & E & Hf & Ht & _ & _ & _ & _ & _ & _ & _ & _ & Hall); try done.
    destruct (Hall Hfail) as [-> ->].
    rewrite E, Hfail. cbn. rewrite Hrec in Hf, Ht.
    destruct (Hlater s' Hf) as [Hm Hl].
    exists (Sha256.hex (concat (taken st))). repeat split; try done.
    rewrite Ht. apply marker_event_in.
Qed.

Lemma C10_witness :
  let rsp := Example.rsp_200 "5" (Some Example.last_modified) ["hello"] false in
  let env := Example.env false rsp [] in
  let opts := Example.opts Example.url (Some true) in
  let s := Example.empty in
  let st := mkStream [Example.bytes "hello"] false in
  let text := Example.last_modified in
  let key := key_path env (opt_src opts) in
  let marker := mtime_path env (opt_src opts) in
  let later (s' : State) :=
    forall env2 opts2,
      prefix_www env2 = prefix_www env ->
      opt_src opts2 = opt_src opts ->
      opt_dst opts2 = opt_dst opts ->
      truthy_flag (opt_ephemeral opts2) = false ->
      exists t h,
        trace (snd (download env2 opts2 s')) = trace s' ++ t /\
        fetches t = [(opt_src opts, h)] /\
        h !! "If-Modified-Since" = Some text in
  conditional env opts s = false /\
  marker = Path.join key "mtime" /\
  (opt_dst opts = None ->
   dst_path env opts = Path.join key (Path.basename (url_path (opt_src opts))) /\
   Path.parent (dst_path env opts) = key) /\
  (fst (download env opts s) = Ok (dst_path env opts) /\
   files (snd (download env opts s)) !! marker = Some (list_byte_of_string text) /\
   (marker, text) ∈ text_writes (trace (snd (download env opts s))) /\
   later (snd (download env opts s))) /\
  (exists sha,
     fst (download_with_sha env opts s) = Ok (dst_path env opts, sha) /\
     files (snd (download_with_sha env opts s)) !! marker = Some (list_byte_of_string text) /\
     (marker, text) ∈ text_writes (trace (snd (download_with_sha env opts s))) /\
     later (snd (download_with_sha env opts s))).
Proof.
  intros rsp env opts s st text.
  apply (C10_ephemeral_still_records env opts s rsp st text);
    first [by left | vm_compute; reflexivity].
Defined.

(* ===================================================================== *)
(** ** Calls that fail before the destination is opened *)
(* ===================================================================== *)

Lemma union_twice (d k : gset (list string)) : d ∪ k ∪ k = d ∪ k.
Proof. rewrite <- (assoc_L (∪)). f_equal. apply (idemp_L (∪)). Qed.

(** [internal] up to the response, with the state spelled out. *)
Lemma internal_sent {T} (env : Env) (opts : DownloadOptions)
    (body : Stream -> Path.t -> option Z -> M T) (s : State) :
  String.eqb (protocol (opt_src opts)) "file:" = false ->
  internal env opts body s =
    match server env (opt_src opts) (request_headers env opts s) with
    | Some rsp =>
        match internal_status env (opt_src opts) (dst_path env opts) rsp body
                (sent env opts s) with
        | (Ok _, s2) => (Ok (dst_path env opts), s2)
        | (Throw e, s2) => (Throw e, s2)
        end
    | None => (Throw (ErrTransport (opt_src opts)), sent env opts s)
    end.
Proof.
  intros Hproto.
  assert (E : forall s0 : State,
    files s0 = files s ->
    internal_headers env opts (dst_path env opts) s0 =
      (Ok (if conditional env opts s
           then Some (<["If-Modified-Since" := baseline env opts s]>
                        (default ∅ (opt_headers opts)))
           else opt_headers opts),
       emit (EvLog (request_line env opts s))
         (set_dirs (dirs s0 ∪ (if negb (truthy_flag (opt_ephemeral opts))
                               then list_to_set (Path.ancestors (key_path env (opt_src opts)))
                               else ∅)) s0))).
  { intros s0 Hf.
    unfold internal_headers, request_line, conditional, usable_baseline, baseline.
    rewrite <- Hf.
    destruct (truthy_flag (opt_ephemeral opts)); cbn.
    - run. do 2 f_equal. unfold set_dirs. destruct s0; cbn. f_equal.
      by rewrite (right_id_L ∅ (∪)).
    - run. rewrite mtime_entry_run. run.
      destruct (files s0 !! mtime_path env (opt_src opts)) as [b|] eqn:Hm; run.
      + destruct (files s0 !! dst_path env opts) as [b'|] eqn:Hd; run.
        * rewrite mtime_entry_run; run.
          rewrite (read_run _ _ b) by done. run.
          do 2 f_equal. unfold emit, set_dirs; cbn. f_equal. apply union_twice.
        * reflexivity.
      + reflexivity. }
  unfold internal, internal_dst, sent, made_dirs, dst_path.
  destruct (opt_dst opts) as [d|] eqn:Hdst; cbn.
  - run. rewrite Hproto. rewrite bind_run.
    unfold dst_path in E. rewrite Hdst in E. cbn in E. rewrite (E s eq_refl). cbn.
    rewrite bind_run, fetch_run.
    change (default ∅ (internal_auth env (opt_src opts) _))
      with (request_headers env opts s).
    destruct (server env (opt_src opts) (request_headers env opts s)) as [rsp|]; cbn.
    + rewrite bind_run.
      destruct (internal_status _ _ _ _ _ _) as [[[]|e] s2]; reflexivity.
    + reflexivity.
  - run. rewrite hash_key_run. cbn. rewrite ret_run. cbn. rewrite Hproto. rewrite bind_run.
    unfold dst_path in E. rewrite Hdst in E. cbn in E. rewrite E by reflexivity. cbn.
    rewrite bind_run, fetch_run.
    change (default ∅ (internal_auth env (opt_src opts) _))
      with (request_headers env opts s).
    assert (Hs : forall k : gset (list string),
      dirs s ∪ k ∪ (if negb (truthy_flag (opt_ephemeral opts)) then k else ∅) = dirs s ∪ k).
    { intros k. destruct (negb _); [apply union_twice|by rewrite (right_id_L ∅ (∪))]. }
    unfold emit, set_dirs. cbn. rewrite Hs.
    destruct (server env (opt_src opts) (request_headers env opts s)) as [rsp|]; cbn.
    + rewrite bind_run.
      destruct (internal_status _ _ _ _ _ _) as [[[]|e] s2]; reflexivity.
    + reflexivity.
Qed.

(** [download_with_sha] starts [internal] with its two variables reset;
    the request and the state it arrives in are the same otherwise. *)
Lemma sent_reset (env : Env) (opts : DownloadOptions) (s : State) :
  sent env opts (set_run false (set_digest [] s)) =
  set_run false (set_digest [] (sent env opts s)).
Proof. reflexivity. Qed.

Lemma download_with_sha_sent (env : Env) (opts : DownloadOptions) (s : State) :
  String.eqb (protocol (opt_src opts)) "file:" = false ->
  internal env opts (sha_body env) (set_run false (set_digest [] s)) =
    match server env (opt_src opts) (request_headers env opts s) with
    | Some rsp =>
        match internal_status env (opt_src opts) (dst_path env opts) rsp (sha_body env)
                (set_run false (set_digest [] (sent env opts s))) with
        | (Ok _, s2) => (Ok (dst_path env opts), s2)
        | (Throw e, s2) => (Throw e, s2)
        end
    | None => (Throw (ErrTransport (opt_src opts)),
               set_run false (set_digest [] (sent env opts s)))
    end.
Proof. intros Hproto. by rewrite internal_sent. Qed.

Lemma marked_dirs (env : Env) (src : URL) (rsp : Response) (s : State) :
  dirs (marked env src rsp s) =
    match marker_text rsp with
    | Some _ => dirs s ∪ list_to_set (Path.ancestors (key_path env src))
    | None => dirs s
    end.
Proof. unfold marked. by destruct (marker_text rsp). Qed.

(** X1. A [file:] URL is refused (line 40): [download] and
    [download_with_sha] throw without a request, a log line or a change to
    any file.  The check comes after line 39, so when no [dst] was given
    the cache directory of the URL has been made all the same. *)
Theorem file_scheme_is_refused (env : Env) (opts : DownloadOptions) (s : State) :
  String.eqb (protocol (opt_src opts)) "file:" = true ->
  let r := download env opts s in
  let r' := download_with_sha env opts s in
  fst r = Throw ErrFileScheme /\ fst r' = Throw ErrFileScheme /\
  files (snd r) = files s /\ trace (snd r) = trace s /\
  files (snd r') = files s /\ trace (snd r') = trace s /\
  dirs (snd r) =
    match opt_dst opts with
    | Some _ => dirs s
    | None => dirs s ∪ list_to_set (Path.ancestors (key_path env (opt_src opts)))
    end /\
  dirs (snd r') = dirs (snd r).
Proof.
  intros Hproto. cbn zeta.
  rewrite download_with_sha_eq. unfold download, internal, internal_dst.
  destruct (opt_dst opts) as [d|]; run; rewrite ?hash_key_run; run; rewrite Hproto; run; done.
Qed.

Lemma file_scheme_is_refused_witness :
  let env := Example.env false Example.rsp_304 [] in
  let opts := Example.opts Cases.url_file None in
  let s := Example.empty in
  let r := download env opts s in
  let r' := download_with_sha env opts s in
  fst r = Throw ErrFileScheme /\ fst r' = Throw ErrFileScheme /\
  files (snd r) = files s /\ trace (snd r) = trace s /\
  files (snd r') = files s /\ trace (snd r') = trace s /\
  dirs (snd r) =
    match opt_dst opts with
    | Some _ => dirs s
    | None => dirs s ∪ list_to_set (Path.ancestors (key_path env (opt_src opts)))
    end /\
  dirs (snd r') = dirs (snd r).
Proof.
  exact (file_scheme_is_refused (Example.env false Example.rsp_304 [])
           (Example.opts Cases.url_file None) Example.empty eq_refl).
Defined.

(** X2. When [fetch] rejects (line 59), the call rejects with the same
    error after its one request; no file has changed, so a destination
    cached before is still there. *)
Theorem transport_failure_touches_no_file (env : Env) (opts : DownloadOptions) (s : State) :
  String.eqb (protocol (opt_src opts)) "file:" = false ->
  server env (opt_src opts) (request_headers env opts s) = None ->
  let r := download env opts s in
  let r' := download_with_sha env opts s in
  let t := [EvLog (request_line env opts s);
            EvFetch (opt_src opts) (request_headers env opts s)] in
  fst r = Throw (ErrTransport (opt_src opts)) /\
  fst r' = Throw (ErrTransport (opt_src opts)) /\
  files (snd r) = files s /\ files (snd r') = files s /\
  trace (snd r) = trace s ++ t /\ trace (snd r') = trace s ++ t.
Proof.
  intros Hproto Hsrv. cbn zeta.
  rewrite download_with_sha_eq, download_with_sha_sent by done.
  unfold download. rewrite internal_sent by done. rewrite Hsrv. cbn.
  rewrite <- !app_assoc. done.
Qed.

Lemma transport_failure_touches_no_file_witness :
  let env := Cases.env_offline in
  let opts := Example.opts Example.url None in
  let s := Example.cached Example.url "payload" in
  let r := download env opts s in
  let r' := download_with_sha env opts s in
  let t := [EvLog (request_line env opts s);
            EvFetch (opt_src opts) (request_headers env opts s)] in
  fst r = Throw (ErrTransport (opt_src opts)) /\
  fst r' = Throw (ErrTransport (opt_src opts)) /\
  files (snd r) = files s /\ files (snd r') = files s /\
  trace (snd r) = trace s ++ t /\ trace (snd r') = trace s ++ t.
Proof.
  exact (transport_failure_touches_no_file
           Cases.env_offline
           (Example.opts Example.url None) (Example.cached Example.url "payload")
           eq_refl eq_refl).
Defined.

(** X3. A 200 response without a body panics (line 69) after the size
    line is logged and before the destination is opened: no file has
    changed. *)
Theorem missing_body_panics_before_open (env : Env) (opts : DownloadOptions) (s : State)
    (rsp : Response) :
  String.eqb (protocol (opt_src opts)) "file:" = false ->
  server env (opt_src opts) (request_headers env opts s) = Some rsp ->
  status rsp = 200 ->
  rsp_body rsp = None ->
  let r := download env opts s in
  let r' := download_with_sha env opts s in
  let t := [EvLog (request_line env opts s);
            EvFetch (opt_src opts) (request_headers env opts s);
            EvLog (LogDownloading (declared_size rsp))] in
  fst r = Throw ErrPanic /\ fst r' = Throw ErrPanic /\
  files (snd r) = files s /\ files (snd r') = files s /\
  trace (snd r) = trace s ++ t /\ trace (snd r') = trace s ++ t.
Proof.
  intros Hproto Hsrv H200 Hbody. cbn zeta.
  rewrite download_with_sha_eq, download_with_sha_sent by done.
  unfold download. rewrite internal_sent by done. rewrite Hsrv.
  rewrite !internal_status_200 by done. rewrite Hbody. cbn.
  rewrite <- !app_assoc. done.
Qed.

Lemma missing_body_panics_before_open_witness :
  let rsp := mkResponse 200 ∅ None in
  let env := Example.env false rsp [] in
  let opts := Example.opts Example.url None in
  let s := Example.cached Example.url "payload" in
  let r := download env opts s in
  let r' := download_with_sha env opts s in
  let t := [EvLog (request_line env opts s);
            EvFetch (opt_src opts) (request_headers env opts s);
            EvLog (LogDownloading (declared_size rsp))] in
  fst r = Throw ErrPanic /\ fst r' = Throw ErrPanic /\
  files (snd r) = files s /\ files (snd r') = files s /\
  trace (snd r) = trace s ++ t /\ trace (snd r') = trace s ++ t.
Proof.
  exact (missing_body_panics_before_open
           (Example.env false (mkResponse 200 ∅ None) [])
           (Example.opts Example.url None) (Example.cached Example.url "payload")
           (mkResponse 200 ∅ None) eq_refl eq_refl eq_refl eq_refl).
Defined.

(** X4. The destination is opened (line 70) before its directory is made
    (line 72): with a [dst] whose directory does not exist, and is not the
    cache directory the call makes for its key, a 200 ends in the error of
    [Deno.open], after the request; no file is written and the directory
    is still missing. *)
Theorem missing_directory_is_not_made (env : Env) (opts : DownloadOptions) (s : State)
    (rsp : Response) (st : Stream) (d : Path.t) :
  String.eqb (protocol (opt_src opts)) "file:" = false ->
  opt_dst opts = Some d ->
  server env (opt_src opts) (request_headers env opts s) = Some rsp ->
  status rsp = 200 ->
  rsp_body rsp = Some st ->
  (Path.parent d ∉ dirs s) ->
  (Path.parent d ∉ Path.ancestors (key_path env (opt_src opts))) ->
  let r := download env opts s in
  let r' := download_with_sha env opts s in
  let t := [EvLog (request_line env opts s);
            EvFetch (opt_src opts) (request_headers env opts s);
            EvLog (LogDownloading (declared_size rsp))] in
  fst r = Throw (ErrNotFound d) /\ fst r' = Throw (ErrNotFound d) /\
  files (snd r) = files s /\ files (snd r') = files s /\
  trace (snd r) = trace s ++ t /\ trace (snd r') = trace s ++ t /\
  (Path.parent d ∉ dirs (snd r)) /\ (Path.parent d ∉ dirs (snd r')).
Proof.
  intros Hproto Hdst Hsrv H200 Hbody Hno Hkey. cbn zeta.
  assert (Hd : dst_path env opts = d) by (unfold dst_path; by rewrite Hdst).
  assert (Hnot : Path.parent d ∉ dirs (sent env opts s)).
  { cbn. unfold made_dirs. intros [Hin|Hin]%elem_of_union; [done|].
    destruct (_ || _); [by apply elem_of_list_to_set in Hin|by apply elem_of_empty in Hin]. }
  rewrite download_with_sha_eq, download_with_sha_sent by done.
  unfold download. rewrite internal_sent by done. rewrite Hsrv.
  rewrite !internal_status_200 by done. rewrite Hbody, Hd. cbn zeta.
  change (dirs (set_run false (set_digest [] (sent env opts s)))) with (dirs (sent env opts s)).
  rewrite bool_decide_eq_false_2 by done. cbn -[sent].
  repeat split; try done; cbn; by rewrite <- !app_assoc.
Qed.

Lemma missing_directory_is_not_made_witness :
  let rsp := Example.rsp_200 "5" None ["hello"] false in
  let env := Example.env false rsp [] in
  let d := ["tmp"; "out"; "b.tar.gz"] in
  let opts := mkOptions Example.url (Some d) None None in
  let s := Example.empty in
  let r := download env opts s in
  let r' := download_with_sha env opts s in
  let t := [EvLog (request_line env opts s);
            EvFetch (opt_src opts) (request_headers env opts s);
            EvLog (LogDownloading (declared_size rsp))] in
  fst r = Throw (ErrNotFound d) /\ fst r' = Throw (ErrNotFound d) /\
  files (snd r) = files s /\ files (snd r') = files s /\
  trace (snd r) = trace s ++ t /\ trace (snd r') = trace s ++ t /\
  (Path.parent d ∉ dirs (snd r)) /\ (Path.parent d ∉ dirs (snd r')).
Proof.
  apply (missing_directory_is_not_made
           (Example.env false (Example.rsp_200 "5" None ["hello"] false) [])
           (mkOptions Example.url (Some ["tmp"; "out"; "b.tar.gz"]) None None)
           Example.empty (Example.rsp_200 "5" None ["hello"] false)
           (mkStream [Example.bytes "hello"] false) ["tmp"; "out"; "b.tar.gz"]);
    try reflexivity.
  - apply not_elem_of_empty.
  - intros H. apply list_elem_of_In in H. vm_compute in H. intuition discriminate.
Defined.

(* ===================================================================== *)
(** ** The token for GitHub hosts *)
(* ===================================================================== *)

(** X5. The request carries [Authorization: bearer <token>] exactly when
    the host matches the pattern of line 51 and GITHUB_TOKEN is set to a
    non-empty string, replacing whatever the caller had put under that
    name; otherwise the caller's header is passed on.  Every header other
    than Authorization and If-Modified-Since is the caller's. *)
Theorem github_token_is_attached (env : Env) (opts : DownloadOptions) (s : State) :
  String.eqb (protocol (opt_src opts)) "file:" = false ->
  let h := request_headers env opts s in
  let own := default ∅ (opt_headers opts) in
  let sends := github_host (host (opt_src opts)) && truthy_opt (GITHUB_TOKEN env) in
  (exists t, trace (snd (download env opts s)) = trace s ++ t /\
             fetches t = [(opt_src opts, h)]) /\
  (exists t, trace (snd (download_with_sha env opts s)) = trace s ++ t /\
             fetches t = [(opt_src opts, h)]) /\
  h !! "Authorization" =
    (if sends then Some ("bearer " +:+ default "" (GITHUB_TOKEN env))
     else own !! "Authorization") /\
  (forall k, k <> "Authorization" -> k <> "If-Modified-Since" -> h !! k = own !! k).
Proof.
  intros Hproto. cbn zeta.
  split; [by apply download_one_fetch|]. split; [by apply download_with_sha_one_fetch|].
  unfold request_headers, internal_auth.
  split.
  - destruct (github_host _); cbn.
    + destruct (GITHUB_TOKEN env) as [tok|]; cbn.
      * destruct (truthy tok); cbn; [by rewrite lookup_insert_eq|].
        destruct (conditional env opts s); cbn; [|done].
        by rewrite lookup_insert_ne.
      * destruct (conditional env opts s); cbn; [|done].
        by rewrite lookup_insert_ne.
    + destruct (conditional env opts s); cbn; [|done].
      by rewrite lookup_insert_ne.
  - intros k Hk1 Hk2.
    fold (internal_auth env (opt_src opts)
            (if conditional env opts s
             then Some (<["If-Modified-Since" := baseline env opts s]>
                          (default ∅ (opt_headers opts)))
             else opt_headers opts)).
    rewrite internal_auth_other by done.
    destruct (conditional env opts s); cbn; [|done].
    by rewrite lookup_insert_ne.
Qed.

Lemma github_token_is_attached_witness :
  let env := Cases.env_token Example.rsp_304 in
  let opts := Example.opts Cases.url_github None in
  let s := Example.empty in
  let h := request_headers env opts s in
  let own := default ∅ (opt_headers opts) in
  let sends := github_host (host (opt_src opts)) && truthy_opt (GITHUB_TOKEN env) in
  (exists t, trace (snd (download env opts s)) = trace s ++ t /\
             fetches t = [(opt_src opts, h)]) /\
  (exists t, trace (snd (download_with_sha env opts s)) = trace s ++ t /\
             fetches t = [(opt_src opts, h)]) /\
  h !! "Authorization" =
    (if sends then Some ("bearer " +:+ default "" (GITHUB_TOKEN env))
     else own !! "Authorization") /\
  (forall k, k <> "Authorization" -> k <> "If-Modified-Since" -> h !! k = own !! k).
Proof.
  exact (github_token_is_attached (Cases.env_token Example.rsp_304)
           (Example.opts Cases.url_github None) Example.empty eq_refl).
Defined.

Lemma github_suffix_spec (s : string) :
  github_suffix s = true <->
  exists c, s = "github" +:+ String c "com" /\ is_line_terminator c = false.
Proof.
  split.
  - intros H.
    do 6 (destruct s as [|[[] [] [] [] [] [] [] []] s]; try discriminate H).
    destruct s as [|c s]; [discriminate H|].
    do 3 (destruct s as [|[[] [] [] [] [] [] [] []] s]; try discriminate H).
    destruct s; [|discriminate H].
    exists c. split; [reflexivity|].
    change (negb (is_line_terminator c) = true) in H. by destruct (is_line_terminator c).
  - intros (c & -> & Hc). change (negb (is_line_terminator c) = true). by rewrite Hc.
Qed.

Lemma github_host_from_spec (s : string) (at_start : bool) :
  github_host_from at_start s = true <->
  exists pre c,
    s = pre +:+ "github" +:+ String c "com" /\ is_line_terminator c = false /\
    ((pre = "" /\ at_start = true) \/ exists p, pre = p +:+ ".").
Proof.
  revert at_start. induction s as [|a s IH]; intros at_start.
  - split; [by destruct at_start|].
    intros (pre & c & E & _). by destruct pre.
  - change (github_host_from at_start (String a s))
      with ((at_start && github_suffix (String a s)) || github_host_from (Ascii.eqb a ".") s).
    rewrite orb_true_iff, andb_true_iff, github_suffix_spec, IH. split.
    + intros [[-> (c & E & Hc)]|(pre & c & E & Hc & Hpre)].
      * exists "", c. split; [exact E|]. split; [exact Hc|]. by left.
      * exists (String a pre), c. split; [by rewrite E|]. split; [exact Hc|]. right.
        destruct Hpre as [[-> Ha]|(p & ->)].
        -- exists "". apply Ascii.eqb_eq in Ha. by subst.
        -- by exists (String a p).
    + intros (pre & c & E & Hc & Hpre). destruct pre as [|a' pre].
      * left. destruct Hpre as [[_ ->]|(p & Hp)]; [|by destruct p].
        split; [done|]. by exists c.
      * right. injection E as -> E. exists pre, c. split; [exact E|]. split; [exact Hc|].
        destruct Hpre as [[? _]|(p & Hp)]; [done|].
        destruct p as [|a'' p].
        -- left. injection Hp as -> ->. split; [done|]. apply Ascii.eqb_refl.
        -- right. injection Hp as -> ->. by exists p.
Qed.

(** X6. The hosts the pattern [/(^|\.)github.com$/] accepts: the whole
    host, or the part after one of its dots, is "github", any one
    character that is not a line terminator, then "com" (the dot of the
    pattern is not escaped). *)
Theorem github_host_matches (h : string) :
  github_host h = true <->
  exists pre c,
    h = pre +:+ "github" +:+ String c "com" /\ is_line_terminator c = false /\
    (pre = "" \/ exists p, pre = p +:+ ".").
Proof.
  unfold github_host. rewrite github_host_from_spec. split.
  - intros (pre & c & E & Hc & [[Hpre _]|Hp]); exists pre, c; eauto.
  - intros (pre & c & E & Hc & [Hpre|Hp]); exists pre, c; eauto.
Qed.

Lemma last_char_app (x y : string) :
  truthy y = true -> last_char (x +:+ y) = last_char y.
Proof.
  intros Hy. induction x as [|a x IH]; [done|].
  change (String a x +:+ y) with (String a (x +:+ y)).
  rewrite <- IH. destruct (x +:+ y) eqn:E; [|done].
  destruct x; [|done]. change (y = "") in E. by subst.
Qed.

Lemma last_char_digit (s : string) :
  is_port s = true -> exists c, last_char s = Some c /\ is_decimal_digit c = true.
Proof.
  unfold is_port. intros [Ht Hd]%andb_true_iff.
  induction s as [|a s IH]; [done|].
  cbn in Hd. apply andb_true_iff in Hd as [Ha Hs].
  destruct s as [|b s]; [by exists a|].
  apply IH; done.
Qed.

(** X7. The pattern is tried on [src.host], which carries the port: a URL
    with an explicit port never matches, and the request gets no token. *)
Theorem explicit_port_gets_no_token (env : Env) (opts : DownloadOptions) (s : State) :
  is_port (port (opt_src opts)) = true ->
  github_host (host (opt_src opts)) = false /\
  request_headers env opts s !! "Authorization" =
    default ∅ (opt_headers opts) !! "Authorization".
Proof.
  intros Hport.
  assert (Hno : github_host (host (opt_src opts)) = false).
  { destruct (github_host _) eqn:E; [|done]. exfalso.
    unfold github_host in E. apply github_host_from_spec in E as (pre & c & E & _).
    apply (f_equal last_char) in E. unfold host in E.
    assert (Ht : truthy (port (opt_src opts)) = true).
    { unfold is_port in Hport. by apply andb_true_iff in Hport as [? _]. }
    rewrite Ht in E.
    rewrite (last_char_app (hostname (opt_src opts))) in E.
    2:{ done. }
    rewrite (last_char_app ":" _ Ht) in E.
    rewrite (last_char_app pre) in E by done.
    destruct (last_char_digit _ Hport) as (d & Hd & Hdig).
    rewrite Hd in E. cbn in E. injection E as ->. done. }
  split; [exact Hno|].
  unfold request_headers, internal_auth. rewrite Hno.
  destruct (conditional env opts s); cbn; [|done].
  by rewrite lookup_insert_ne.
Qed.

Lemma explicit_port_gets_no_token_witness :
  let env := Cases.env_token Example.rsp_304 in
  let opts := Example.opts Cases.url_github_port None in
  github_host (host (opt_src opts)) = false /\
  request_headers env opts Example.empty !! "Authorization" =
    default ∅ (opt_headers opts) !! "Authorization".
Proof.
  exact (explicit_port_gets_no_token
           (Cases.env_token Example.rsp_304)
           (Example.opts Cases.url_github_port None) Example.empty eq_refl).
Defined.

(* ===================================================================== *)
(** ** What a 200 leaves on disk *)
(* ===================================================================== *)

Lemma with_marker_other (env : Env) (src : URL) (m : option string)
    (f : gmap (list string) (list byte)) (p : Path.t) :
  p <> mtime_path env src -> with_marker env src m f !! p = f !! p.
Proof. intros Hp. destruct m; cbn; [by rewrite lookup_insert_ne|done]. Qed.

(** X8. After a 200 whose body is read to its end, [download] returns the
    destination, which holds exactly the bytes read, whatever it held
    before: the bytes of all the chunks of the body, unless one of them
    is empty, at which the reading stops.  They are written in the order
    read, in writes of at most 32 KiB, none of them empty: a longer chunk
    takes several writes.  No file but the destination and the marker
    has changed. *)
Theorem download_replaces_destination (env : Env) (opts : DownloadOptions) (s : State)
    (rsp : Response) (st : Stream) :
  String.eqb (protocol (opt_src opts)) "file:" = false ->
  server env (opt_src opts) (request_headers env opts s) = Some rsp ->
  status rsp = 200 ->
  rsp_body rsp = Some st ->
  broken st = false ->
  openable env opts s ->
  dst_path env opts <> mtime_path env (opt_src opts) ->
  let r := download env opts s in
  fst r = Ok (dst_path env opts) /\
  files (snd r) !! dst_path env opts = Some (concat (taken st)) /\
  (reader_ends (chunks st) = false -> concat (taken st) = concat (chunks st)) /\
  (forall p, p <> dst_path env opts -> p <> mtime_path env (opt_src opts) ->
             files (snd r) !! p = files s !! p) /\
  writes (drop (length (trace s)) (trace (snd r))) =
    map (pair (dst_path env opts)) (taken st) /\
  Forall (fun w => w <> [] /\ (length w <= bufSize)%nat) (taken st).
Proof.
  intros Hproto Hsrv H200 Hbody Hfail Hopen Hne. cbn zeta.
  destruct (download_200 env opts s rsp st) as (s' & E & Hf & Ht); try done.
  rewrite E, Hfail. cbn. split; [done|]. rewrite Hf. split; [|split; [|split; [|split]]].
  - rewrite with_marker_other by done. apply lookup_insert_eq.
  - apply reader_reads_concat.
  - intros p Hp Hm. rewrite with_marker_other by done. by rewrite lookup_insert_ne.
  - rewrite Ht, drop_app_length, !writes_app.
    destruct (writes_of_writes (dst_path env opts) (taken st)) as (-> & _).
    unfold opening, request_line.
    destruct (conditional env opts s), (recorded rsp st); cbn; by rewrite app_nil_r.
  - apply taken_bounded.
Qed.

Lemma download_replaces_destination_witness :
  let rsp := Example.rsp_200 "10" (Some Example.last_modified) ["hello"; "world"] false in
  let st := mkStream [Example.bytes "hello"; Example.bytes "world"] false in
  let env := Example.env false rsp [] in
  let opts := Example.opts Example.url None in
  let s := Example.cached Example.url "stale payload, longer than the new one" in
  let r := download env opts s in
  fst r = Ok (dst_path env opts) /\
  files (snd r) !! dst_path env opts = Some (concat (taken st)) /\
  (reader_ends (chunks st) = false -> concat (taken st) = concat (chunks st)) /\
  (forall p, p <> dst_path env opts -> p <> mtime_path env (opt_src opts) ->
             files (snd r) !! p = files s !! p) /\
  writes (drop (length (trace s)) (trace (snd r))) =
    map (pair (dst_path env opts)) (taken st) /\
  Forall (fun w => w <> [] /\ (length w <= bufSize)%nat) (taken st).
Proof.
  apply (download_replaces_destination
           (Example.env false
              (Example.rsp_200 "10" (Some Example.last_modified) ["hello"; "world"] false) [])
           (Example.opts Example.url None)
           (Example.cached Example.url "stale payload, longer than the new one")
           (Example.rsp_200 "10" (Some Example.last_modified) ["hello"; "world"] false)
           (mkStream [Example.bytes "hello"; Example.bytes "world"] false));
    try reflexivity.
  - by left.
  - vm_compute. discriminate.
Defined.

(** X9. When the body stream errors, [download] throws that error, the
    destination holds the chunks delivered until then (what it held
    before is gone), no other file has changed, no marker was written,
    and the handle is closed: the last event is its close. *)
Theorem failed_body_leaves_partial_file (env : Env) (opts : DownloadOptions) (s : State)
    (rsp : Response) (st : Stream) :
  String.eqb (protocol (opt_src opts)) "file:" = false ->
  server env (opt_src opts) (request_headers env opts s) = Some rsp ->
  status rsp = 200 ->
  rsp_body rsp = Some st ->
  broken st = true ->
  openable env opts s ->
  let r := download env opts s in
  fst r = Throw ErrStream /\
  files (snd r) !! dst_path env opts = Some (concat (taken st)) /\
  (forall p, p <> dst_path env opts -> files (snd r) !! p = files s !! p) /\
  text_writes (drop (length (trace s)) (trace (snd r))) = [] /\
  List.last (trace (snd r)) (EvOpen (dst_path env opts)) = EvClose (dst_path env opts).
Proof.
  intros Hproto Hsrv H200 Hbody Hfail Hopen. cbn zeta.
  destruct (download_200 env opts s rsp st) as (s' & E & Hf & Ht); try done.
  rewrite E. unfold recorded in Hf, Ht. rewrite Hfail in Hf, Ht |- *.
  change (marker_events env (opt_src opts) None) with (@nil Event) in Ht.
  change (with_marker env (opt_src opts) None ?f) with f in Hf.
  split; [done|]. cbn [snd]. rewrite Hf. split; [apply lookup_insert_eq|]. split.
  - intros p Hp. by rewrite lookup_insert_ne.
  - rewrite Ht. split.
    + rewrite drop_app_length, !text_writes_app.
      destruct (writes_of_writes (dst_path env opts) (taken st)) as (_ & _ & _ & ->).
      unfold opening, request_line. by destruct (conditional env opts s).
    + rewrite !app_assoc. apply List.last_last.
Qed.

Lemma failed_body_leaves_partial_file_witness :
  let rsp := Example.rsp_200 "10" (Some Example.last_modified) ["hel"] true in
  let st := mkStream [Example.bytes "hel"] true in
  let env := Example.env false rsp [] in
  let opts := Example.opts Example.url None in
  let s := Example.cached Example.url "payload" in
  let r := download env opts s in
  fst r = Throw ErrStream /\
  files (snd r) !! dst_path env opts = Some (concat (taken st)) /\
  (forall p, p <> dst_path env opts -> files (snd r) !! p = files s !! p) /\
  text_writes (drop (length (trace s)) (trace (snd r))) = [] /\
  List.last (trace (snd r)) (EvOpen (dst_path env opts)) = EvClose (dst_path env opts).
Proof.
  apply (failed_body_leaves_partial_file
           (Example.env false (Example.rsp_200 "10" (Some Example.last_modified) ["hel"] true) [])
           (Example.opts Example.url None)
           (Example.cached Example.url "payload")
           (Example.rsp_200 "10" (Some Example.last_modified) ["hel"] true)
           (mkStream [Example.bytes "hel"] true));
    try reflexivity.
  by left.
Defined.

(** X10. A download that failed midway leaves the marker of the earlier
    download beside the truncated destination, so a later call is
    conditional on that marker, and when the server answers 304 it
    returns the truncated file as a cache hit. *)
Theorem truncated_file_passes_as_cached (env env2 : Env) (opts : DownloadOptions) (s : State)
    (rsp rsp2 : Response) (st : Stream) (text : string) :
  String.eqb (protocol (opt_src opts)) "file:" = false ->
  server env (opt_src opts) (request_headers env opts s) = Some rsp ->
  status rsp = 200 ->
  rsp_body rsp = Some st ->
  broken st = true ->
  openable env opts s ->
  dst_path env opts <> mtime_path env (opt_src opts) ->
  files s !! mtime_path env (opt_src opts) = Some (list_byte_of_string text) ->
  truthy_flag (opt_ephemeral opts) = false ->
  prefix_www env2 = prefix_www env ->
  let s1 := snd (download env opts s) in
  server env2 (opt_src opts) (request_headers env2 opts s1) = Some rsp2 ->
  status rsp2 = 304 ->
  fst (download env opts s) = Throw ErrStream /\
  request_headers env2 opts s1 !! "If-Modified-Since" = Some text /\
  fst (download env2 opts s1) = Ok (dst_path env opts) /\
  files (snd (download env2 opts s1)) !! dst_path env opts = Some (concat (taken st)).
Proof.
  intros Hproto Hsrv H200 Hbody Hfail Hopen Hne Hmark Heph Hpre s1 Hsrv2 H304.
  destruct (download_200 env opts s rsp st) as (s' & E & Hf & Ht); try done.
  unfold recorded in Hf. rewrite Hfail in Hf, E.
  change (with_marker env (opt_src opts) None ?f) with f in Hf.
  assert (Hs1 : s1 = s') by (unfold s1; by rewrite E). clearbody s1. subst s1.
  rewrite E. split; [done|].
  destruct (paths_same_call env env2 opts opts Hpre eq_refl eq_refl) as [Pm Pd].
  destruct (later_call_is_conditional env env2 opts opts s' text) as [_ Hims]; try done.
  { rewrite Hf. by rewrite lookup_insert_ne. }
  { rewrite Hf, lookup_insert_eq. eauto. }
  split; [exact Hims|].
  destruct (internal_304 env2 opts
              (fun src dst _ => copy (readerFromStreamReader src) dst) s' rsp2)
    as (s2 & E2 & (Hf2 & _)); try done.
  unfold download at 1 2. rewrite E2, Pd. cbn. split; [done|].
  rewrite Hf2, Hf. apply lookup_insert_eq.
Qed.

Lemma truncated_file_passes_as_cached_witness :
  let rsp := Example.rsp_200 "10" (Some "Thu, 22 Oct 2015 09:00:00 GMT") ["hel"] true in
  let st := mkStream [Example.bytes "hel"] true in
  let env := Example.env false rsp [] in
  let env2 := Example.env false Example.rsp_304 [] in
  let opts := Example.opts Example.url None in
  let s := Example.cached Example.url "payload" in
  let text := Example.last_modified in
  let s1 := snd (download env opts s) in
  fst (download env opts s) = Throw ErrStream /\
  request_headers env2 opts s1 !! "If-Modified-Since" = Some text /\
  fst (download env2 opts s1) = Ok (dst_path env opts) /\
  files (snd (download env2 opts s1)) !! dst_path env opts = Some (concat (taken st)).
Proof.
  apply (truncated_file_passes_as_cached
           (Example.env false
              (Example.rsp_200 "10" (Some "Thu, 22 Oct 2015 09:00:00 GMT") ["hel"] true) [])
           (Example.env false Example.rsp_304 [])
           (Example.opts Example.url None)
           (Example.cached Example.url "payload")
           (Example.rsp_200 "10" (Some "Thu, 22 Oct 2015 09:00:00 GMT") ["hel"] true)
           Example.rsp_304
           (mkStream [Example.bytes "hel"] true) Example.last_modified);
    try reflexivity.
  - by left.
  - vm_compute. discriminate.
Defined.

(** X11. A 200 with an empty body: the destination becomes an empty file,
    nothing is written or shown as progress, the digest returned is the
    SHA-256 of the empty string, and the marker is recorded as for any
    other body. *)
Theorem empty_body_is_an_empty_file (env : Env) (opts : DownloadOptions) (s : State)
    (rsp : Response) :
  String.eqb (protocol (opt_src opts)) "file:" = false ->
  server env (opt_src opts) (request_headers env opts s) = Some rsp ->
  status rsp = 200 ->
  rsp_body rsp = Some (mkStream [] false) ->
  openable env opts s ->
  dst_path env opts <> mtime_path env (opt_src opts) ->
  let r := download_with_sha env opts s in
  fst r = Ok (dst_path env opts,
              "e3b0c44298fc1c149afbf4c8996fb92427ae41e4649b934ca495991b7852b855") /\
  files (snd r) !! dst_path env opts = Some [] /\
  writes (drop (length (trace s)) (trace (snd r))) = [] /\
  percents (drop (length (trace s)) (trace (snd r))) = [] /\
  files (snd r) !! mtime_path env (opt_src opts) =
    match marker_text rsp with
    | Some text => Some (list_byte_of_string text)
    | None => files s !! mtime_path env (opt_src opts)
    end.
Proof.
  intros Hproto Hsrv H200 Hbody Hopen Hne. cbn zeta.
  destruct (download_with_sha_200 env opts s rsp (mkStream [] false))
    as (s' & t & w & h & E & Hf & Ht & Hw & Hp & _ & _ & _ & _ & _ & _ & Hall); try done.
  unfold recorded in *.
  change (broken (mkStream [] false)) with false in *.
  change (taken (mkStream [] false)) with (@nil (list byte)) in *.
  destruct (Hall eq_refl) as [-> ->]. cbn in E, Hf, Hw, Hp.
  rewrite E. cbn [fst snd]. split; [by rewrite <- sha256_empty|].
  rewrite Hf, Ht.
  split; [|split; [|split]].
  - rewrite with_marker_other by done. apply lookup_insert_eq.
  - rewrite drop_app_length, !writes_app, Hw.
    unfold opening, request_line.
    destruct (conditional env opts s), (marker_text rsp); done.
  - rewrite drop_app_length, !percents_app, Hp, percents_opening, percents_marker_events.
    unfold progress. by destruct (_ && _).
  - destruct (marker_text rsp); cbn.
    + apply lookup_insert_eq.
    + by rewrite lookup_insert_ne.
Qed.

Lemma empty_body_is_an_empty_file_witness :
  let rsp := mkResponse 200 (<["Content-Length" := "0"]> ∅) (Some (mkStream [] false)) in
  let env := Example.env false rsp [] in
  let opts := Example.opts Example.url None in
  let s := Example.cached Example.url "payload" in
  let r := download_with_sha env opts s in
  fst r = Ok (dst_path env opts,
              "e3b0c44298fc1c149afbf4c8996fb92427ae41e4649b934ca495991b7852b855") /\
  files (snd r) !! dst_path env opts = Some [] /\
  writes (drop (length (trace s)) (trace (snd r))) = [] /\
  percents (drop (length (trace s)) (trace (snd r))) = [] /\
  files (snd r) !! mtime_path env (opt_src opts) =
    match marker_text rsp with
    | Some text => Some (list_byte_of_string text)
    | None => files s !! mtime_path env (opt_src opts)
    end.
Proof.
  apply (empty_body_is_an_empty_file
           (Example.env false
              (mkResponse 200 (<["Content-Length" := "0"]> ∅) (Some (mkStream [] false))) [])
           (Example.opts Example.url None) (Example.cached Example.url "payload")
           (mkResponse 200 (<["Content-Length" := "0"]> ∅) (Some (mkStream [] false))));
    try reflexivity.
  - by left.
  - vm_compute. discriminate.
Defined.

(** X12. [download_with_sha] does to the disk what [download] does: when no
    body stream fails, the two leave the same files and directories, and
    [download_with_sha] returns the path [download] returns.  It fails
    where [download] succeeds only when it has to hash a file that does not
    exist. *)
Theorem download_with_sha_writes_what_download_writes
    (env : Env) (opts : DownloadOptions) (s : State) :
  (forall rsp st,
     server env (opt_src opts) (request_headers env opts s) = Some rsp ->
     rsp_body rsp = Some st -> broken st = false) ->
  let r := download env opts s in
  let r' := download_with_sha env opts s in
  files (snd r') = files (snd r) /\ dirs (snd r') = dirs (snd r) /\
  match fst r' with
  | Ok (p, _) => fst r = Ok p
  | Throw e =>
      fst r = Throw e \/
      exists p, fst r = Ok p /\ e = ErrNotFound p /\ files (snd r) !! p = None
  end.
Proof.
  intros Hwhole. cbn zeta. rewrite download_with_sha_eq. unfold download.
  destruct (String.eqb (protocol (opt_src opts)) "file:") eqn:Hproto.
  { unfold internal, internal_dst.
    destruct (opt_dst opts) as [d|]; run; rewrite ?hash_key_run; run; rewrite Hproto; run;
      auto. }
  rewrite !internal_sent by done.
  change (request_headers env opts (set_run false (set_digest [] s)))
    with (request_headers env opts s).
  rewrite sent_reset.
  destruct (server env (opt_src opts) (request_headers env opts s)) as [rsp|] eqn:Hsrv;
    [|cbn; auto].
  set (s1 := sent env opts s).
  destruct (Z.eq_dec (status rsp) 200) as [H200|H200].
  - rewrite !internal_status_200 by done. cbn zeta.
    destruct (rsp_body rsp) as [st|] eqn:Hbody; [|cbn; auto].
    specialize (Hwhole rsp st eq_refl Hbody).
    change (dirs (set_run false (set_digest [] s1))) with (dirs s1).
    destruct (bool_decide (Path.parent (dst_path env opts) ∈ dirs s1)); [|cbn; auto].
    rewrite (copy_run _ _ _ []) by apply lookup_insert_eq.
    fold (taken st) (broken st).
    match goal with |- context [sha_body env st ?d ?z ?s0] =>
      destruct (sha_body_run env st d z s0 []) as (s4 & t & w & h & E & O & _ & _ & Hall)
    end; [apply lookup_insert_eq|].
    destruct (Hall Hwhole) as [-> ->].
    destruct O as (Of & Od & Ot & Og & Or & _).
    rewrite E, Hwhole. cbn.
    rewrite !record_marker_run. cbn.
    match goal with |- context [marked env ?u rsp s4] =>
      destruct (marked_files env u rsp s4) as (Mf & _ & _ & Mr);
      pose proof (marked_dirs env u rsp s4) as Md
    end.
    match goal with |- context [marked env ?u rsp (mkState ?a ?b ?c ?d ?e)] =>
      destruct (marked_files env u rsp (mkState a b c d e)) as (Mf' & _);
      pose proof (marked_dirs env u rsp (mkState a b c d e)) as Md'
    end.
    rewrite Mr, Or. cbn. rewrite Mf, Mf', Md, Md', Of, Od. cbn.
    rewrite !insert_insert_eq. done.
  - destruct (Z.eq_dec (status rsp) 304) as [H304|H304].
    + rewrite !internal_status_304 by done. cbn.
      destruct (files s !! dst_path env opts) eqn:Hfile; cbn; [done|].
      split; [done|]. split; [done|]. right. eauto.
    + rewrite !internal_status_other by done. cbn.
      destruct (numpty env); cbn; [|auto].
      destruct (files s !! dst_path env opts) eqn:Hfile; cbn; rewrite ?Hfile; cbn; auto.
Qed.

Lemma download_with_sha_writes_what_download_writes_witness :
  let rsp := Example.rsp_200 "10" (Some Example.last_modified) ["hello"; "world"] false in
  let env := Example.env false rsp [true; false; false] in
  let opts := Example.opts Example.url None in
  let s := Example.empty in
  let r := download env opts s in
  let r' := download_with_sha env opts s in
  files (snd r') = files (snd r) /\ dirs (snd r') = dirs (snd r) /\
  match fst r' with
  | Ok (p, _) => fst r = Ok p
  | Throw e =>
      fst r = Throw e \/
      exists p, fst r = Ok p /\ e = ErrNotFound p /\ files (snd r) !! p = None
  end.
Proof.
  apply (download_with_sha_writes_what_download_writes
           (Example.env false
              (Example.rsp_200 "10" (Some Example.last_modified) ["hello"; "world"] false)
              [true; false; false])
           (Example.opts Example.url None) Example.empty).
  intros rsp st [= <-] [= <-]. reflexivity.
Defined.

(** X13. The interleaving of the two readers of the tee'd stream (lines
    112-124) does not show in the outcome: for any two schedules the call
    returns the same path and digest, leaves the same files and
    directories, writes the same chunks in the same order and shows the
    same percentages. *)
Theorem interleaving_does_not_matter (env : Env) (opts : DownloadOptions) (s : State)
    (sched : list bool) :
  (forall rsp st,
     server env (opt_src opts) (request_headers env opts s) = Some rsp ->
     rsp_body rsp = Some st -> broken st = false) ->
  let r := download_with_sha env opts s in
  let r' := download_with_sha (with_scheduler env sched) opts s in
  fst r' = fst r /\ files (snd r') = files (snd r) /\ dirs (snd r') = dirs (snd r) /\
  percents (trace (snd r')) = percents (trace (snd r)) /\
  writes (trace (snd r')) = writes (trace (snd r)) /\
  text_writes (trace (snd r')) = text_writes (trace (snd r)).
Proof.
  intros Hwhole. cbn zeta. rewrite !download_with_sha_eq.
  destruct (String.eqb (protocol (opt_src opts)) "file:") eqn:Hproto.
  { unfold internal, internal_dst.
    destruct (opt_dst opts) as [d|]; run; rewrite ?hash_key_run; run; rewrite Hproto; run;
      done. }
  rewrite !internal_sent by done.
  change (request_headers (with_scheduler env sched) opts (set_run false (set_digest [] s)))
    with (request_headers env opts s).
  change (request_headers env opts (set_run false (set_digest [] s)))
    with (request_headers env opts s).
  change (server (with_scheduler env sched)) with (server env).
  change (dst_path (with_scheduler env sched) opts) with (dst_path env opts).
  change (sent (with_scheduler env sched) opts (set_run false (set_digest [] s)))
    with (sent env opts (set_run false (set_digest [] s))).
  destruct (server env (opt_src opts) (request_headers env opts s)) as [rsp|] eqn:Hsrv;
    [|done].
  set (s1 := sent env opts (set_run false (set_digest [] s))).
  destruct (Z.eq_dec (status rsp) 200) as [H200|H200].
  - rewrite !internal_status_200 by done. cbn zeta.
    destruct (rsp_body rsp) as [st|] eqn:Hbody; [|done].
    specialize (Hwhole rsp st eq_refl Hbody).
    destruct (bool_decide (Path.parent (dst_path env opts) ∈ dirs s1)); [|done].
    match goal with |- context [sha_body env st ?d ?z ?s0] =>
      destruct (sha_body_run env st d z s0 []) as (s4 & t & w & h & E & O & _ & _ & Hall);
        [apply lookup_insert_eq|];
      destruct (sha_body_run (with_scheduler env sched) st d z s0 [])
        as (s4' & t' & w' & h' & E' & O' & _ & _ & Hall');
        [apply lookup_insert_eq|]
    end.
    destruct (Hall Hwhole) as [-> ->]. destruct (Hall' Hwhole) as [-> ->].
    destruct O as (Of & Od & Ot & Og & Or & Ow & Op & _ & Ox).
    destruct O' as (Of' & Od' & Ot' & Og' & Or' & Ow' & Op' & _ & Ox').
    rewrite E, E', Hwhole. cbn.
    change (record_marker (with_scheduler env sched)) with (record_marker env).
    rewrite !record_marker_run. cbn.
    destruct (marked_files env (opt_src opts) rsp s4) as (Mf & Mt & Mg & Mr).
    destruct (marked_files env (opt_src opts) rsp s4') as (Mf' & Mt' & Mg' & Mr').
    pose proof (marked_dirs env (opt_src opts) rsp s4) as Md.
    pose proof (marked_dirs env (opt_src opts) rsp s4') as Md'.
    rewrite Mr, Mr', Or, Or'. cbn.
    rewrite Mg, Mg', Og, Og', Mf, Mf', Of, Of', Md, Md', Od, Od', Mt, Mt', Ot, Ot'.
    rewrite !percents_app, !writes_app, !text_writes_app.
    rewrite Ow, Ow', Op, Op', Ox, Ox'. done.
  - destruct (Z.eq_dec (status rsp) 304) as [H304|H304].
    + rewrite !internal_status_304 by done. done.
    + rewrite !internal_status_other by done. done.
Qed.

Lemma interleaving_does_not_matter_witness :
  let rsp := Example.rsp_200 "10" (Some Example.last_modified) ["hello"; "world"] false in
  let env := Example.env false rsp [true; true; false; false] in
  let opts := Example.opts Example.url None in
  let s := Example.empty in
  let r := download_with_sha env opts s in
  let r' := download_with_sha (with_scheduler env [false; true; false; true]) opts s in
  fst r' = fst r /\ files (snd r') = files (snd r) /\ dirs (snd r') = dirs (snd r) /\
  percents (trace (snd r')) = percents (trace (snd r)) /\
  writes (trace (snd r')) = writes (trace (snd r)) /\
  text_writes (trace (snd r')) = text_writes (trace (snd r)).
Proof.
  apply (interleaving_does_not_matter
           (Example.env false
              (Example.rsp_200 "10" (Some Example.last_modified) ["hello"; "world"] false)
              [true; true; false; false])
           (Example.opts Example.url None) Example.empty [false; true; false; true]).
  intros rsp st [= <-] [= <-]. reflexivity.
Defined.

(** X14. The digest returned by the download is the digest a later call
    returns from the cache: after a 200, a call for the same URL answered
    with 304 writes nothing and returns the same path and the same
    SHA-256. *)
Theorem digest_is_the_same_from_the_cache (env env2 : Env) (opts : DownloadOptions)
    (s : State) (rsp rsp2 : Response) (st : Stream) :
  String.eqb (protocol (opt_src opts)) "file:" = false ->
  server env (opt_src opts) (request_headers env opts s) = Some rsp ->
  status rsp = 200 ->
  rsp_body rsp = Some st ->
  broken st = false ->
  openable env opts s ->
  dst_path env opts <> mtime_path env (opt_src opts) ->
  prefix_www env2 = prefix_www env ->
  let r := download_with_sha env opts s in
  server env2 (opt_src opts) (request_headers env2 opts (snd r)) = Some rsp2 ->
  status rsp2 = 304 ->
  let r2 := download_with_sha env2 opts (snd r) in
  fst r = Ok (dst_path env opts, Sha256.hex (concat (taken st))) /\
  fst r2 = fst r /\
  files (snd r2) = files (snd r) /\
  writes (drop (length (trace (snd r))) (trace (snd r2))) = [].
Proof.
  intros Hproto Hsrv H200 Hbody Hfail Hopen Hne Hpre r Hsrv2 H304 r2.
  destruct (download_with_sha_200 env opts s rsp st)
    as (s' & t & w & h & E & Hf & _ & _ & _ & _ & _ & _ & _ & _ & _ & Hall); try done.
  destruct (Hall Hfail) as [-> ->]. rewrite Hfail in E.
  assert (Hr : r = (Ok (dst_path env opts, Sha256.hex (concat (taken st))), s'))
    by (unfold r; exact E).
  clearbody r. subst r. cbn [fst snd] in *. split; [done|].
  destruct (paths_same_call env env2 opts opts Hpre eq_refl eq_refl) as [_ Pd].
  assert (Hfile : files s' !! dst_path env2 opts = Some (concat (taken st))).
  { rewrite Pd, Hf, with_marker_other by done. apply lookup_insert_eq. }
  unfold r2. rewrite download_with_sha_eq, internal_sent by done.
  change (request_headers env2 opts (set_run false (set_digest [] s')))
    with (request_headers env2 opts s').
  rewrite Hsrv2, internal_status_304 by done. cbn. rewrite Hfile. cbn.
  rewrite Pd. split; [done|]. split; [done|].
  rewrite <- !app_assoc, drop_app_length. cbn.
  unfold request_line. by destruct (conditional env2 opts s').
Qed.

Lemma digest_is_the_same_from_the_cache_witness :
  let rsp := Example.rsp_200 "10" (Some Example.last_modified) ["hello"; "world"] false in
  let st := mkStream [Example.bytes "hello"; Example.bytes "world"] false in
  let env := Example.env false rsp [true; false] in
  let env2 := Example.env false Example.rsp_304 [] in
  let opts := Example.opts Example.url None in
  let r := download_with_sha env opts Example.empty in
  let r2 := download_with_sha env2 opts (snd r) in
  fst r = Ok (dst_path env opts, Sha256.hex (concat (taken st))) /\
  fst r2 = fst r /\
  files (snd r2) = files (snd r) /\
  writes (drop (length (trace (snd r))) (trace (snd r2))) = [].
Proof.
  apply (digest_is_the_same_from_the_cache
           (Example.env false
              (Example.rsp_200 "10" (Some Example.last_modified) ["hello"; "world"] false)
              [true; false])
           (Example.env false Example.rsp_304 [])
           (Example.opts Example.url None) Example.empty
           (Example.rsp_200 "10" (Some Example.last_modified) ["hello"; "world"] false)
           Example.rsp_304
           (mkStream [Example.bytes "hello"; Example.bytes "world"] false));
    try reflexivity.
  - by left.
  - vm_compute. discriminate.
Defined.

(* ===================================================================== *)
(** ** A 304 is taken at its word; progress can be silent *)
(* ===================================================================== *)

(** X15. A 304 is taken at its word (lines 83-85): when no file exists at
    the destination, [download] still returns the destination, where there
    is no file, and [download_with_sha] fails on opening it (line 129). *)
Theorem not_modified_is_trusted_without_a_file (env : Env) (opts : DownloadOptions)
    (s : State) (rsp : Response) :
  String.eqb (protocol (opt_src opts)) "file:" = false ->
  server env (opt_src opts) (request_headers env opts s) = Some rsp ->
  status rsp = 304 ->
  files s !! dst_path env opts = None ->
  let r := download env opts s in
  let r' := download_with_sha env opts s in
  fst r = Ok (dst_path env opts) /\
  files (snd r) !! dst_path env opts = None /\
  fst r' = Throw (ErrNotFound (dst_path env opts)) /\
  files (snd r') = files s.
Proof.
  intros Hproto Hsrv H304 Hnone. cbn zeta.
  rewrite download_with_sha_eq. unfold download.
  rewrite !internal_sent by done.
  change (request_headers env opts (set_run false (set_digest [] s)))
    with (request_headers env opts s).
  rewrite Hsrv, !internal_status_304 by done. cbn. rewrite Hnone. done.
Qed.

Lemma not_modified_is_trusted_without_a_file_witness :
  let env := Example.env false Example.rsp_304 [] in
  let opts := Example.opts Example.url None in
  let s := Example.empty in
  let r := download env opts s in
  let r' := download_with_sha env opts s in
  fst r = Ok (dst_path env opts) /\
  files (snd r) !! dst_path env opts = None /\
  fst r' = Throw (ErrNotFound (dst_path env opts)) /\
  files (snd r') = files s.
Proof.
  exact (not_modified_is_trusted_without_a_file (Example.env false Example.rsp_304 [])
           (Example.opts Example.url None) Example.empty Example.rsp_304
           eq_refl eq_refl eq_refl eq_refl).
Defined.


(** X16. No percentage is shown when CI is set to a non-empty string, or
    when the response declares no usable size (line 117), whatever the
    response and whether or not the body fails. *)
Theorem progress_is_silent (env : Env) (opts : DownloadOptions) (s : State) :
  truthy_opt (CI env) = true \/
  (forall rsp, server env (opt_src opts) (request_headers env opts s) = Some rsp ->
               declared_size rsp = None) ->
  percents (drop (length (trace s)) (trace (snd (download_with_sha env opts s)))) = [].
Proof.
  intros Hquiet. rewrite download_with_sha_eq.
  destruct (String.eqb (protocol (opt_src opts)) "file:") eqn:Hproto.
  { unfold internal, internal_dst.
    destruct (opt_dst opts) as [d|]; run; rewrite ?hash_key_run; run; rewrite Hproto; run;
      by rewrite drop_all. }
  rewrite internal_sent by done.
  change (request_headers env opts (set_run false (set_digest [] s)))
    with (request_headers env opts s).
  rewrite sent_reset.
  assert (Hreq : percents [EvLog (request_line env opts s);
                           EvFetch (opt_src opts) (request_headers env opts s)] = []).
  { unfold request_line. by destruct (conditional env opts s). }
  destruct (server env (opt_src opts) (request_headers env opts s)) as [rsp|] eqn:Hsrv.
  2:{ cbn. rewrite <- app_assoc, drop_app_length. exact Hreq. }
  set (s1 := sent env opts s).
  assert (Ht1 : trace (set_run false (set_digest [] s1)) =
                trace s ++ [EvLog (request_line env opts s);
                            EvFetch (opt_src opts) (request_headers env opts s)]).
  { cbn. by rewrite <- app_assoc. }
  destruct (Z.eq_dec (status rsp) 200) as [H200|H200].
  - rewrite internal_status_200 by done. cbn zeta.
    destruct (rsp_body rsp) as [st|] eqn:Hbody.
    2:{ cbn. rewrite <- !app_assoc, drop_app_length. cbn.
        unfold request_line. by destruct (conditional env opts s). }
    change (dirs (set_run false (set_digest [] s1))) with (dirs s1).
    destruct (bool_decide (Path.parent (dst_path env opts) ∈ dirs s1)).
    2:{ cbn. rewrite <- !app_assoc, drop_app_length. cbn.
        unfold request_line. by destruct (conditional env opts s). }
    match goal with |- context [sha_body env st ?d ?z ?s0] =>
      destruct (sha_body_run env st d z s0 []) as (s4 & t & w & h & E & O & _ & _ & _)
    end; [apply lookup_insert_eq|].
    destruct O as (_ & _ & Ot & _ & Or & _ & Op & _).
    assert (Hp : percents t = []).
    { rewrite Op. unfold progress.
      destruct Hquiet as [Hci|Hsz].
      - by rewrite Hci, andb_false_r.
      - by rewrite (Hsz rsp eq_refl). }
    rewrite E.
    assert (Ht4 : trace s4 = trace s ++
              [EvLog (request_line env opts s);
               EvFetch (opt_src opts) (request_headers env opts s);
               EvLog (LogDownloading (declared_size rsp));
               EvOpen (dst_path env opts)] ++ t).
    { rewrite Ot. cbn. rewrite <- !app_assoc. done. }
    assert (Hopen : percents [EvLog (request_line env opts s);
               EvFetch (opt_src opts) (request_headers env opts s);
               EvLog (LogDownloading (declared_size rsp));
               EvOpen (dst_path env opts)] = []).
    { unfold request_line. by destruct (conditional env opts s). }
    destruct (broken st); cbn.
    + rewrite Ht4, <- !app_assoc, drop_app_length, !percents_app, Hopen, Hp. done.
    + rewrite record_marker_run. cbn.
      match goal with |- context [marked env ?u rsp s4] =>
        destruct (marked_files env u rsp s4) as (_ & Mt & _ & Mr)
      end.
      rewrite Mr, Or. cbn. rewrite Mt, Ht4, <- !app_assoc, drop_app_length, !percents_app.
      rewrite Hopen, Hp, percents_marker_events. done.
  - destruct (Z.eq_dec (status rsp) 304) as [H304|H304].
    + rewrite internal_status_304 by done. cbn.
      destruct (files s !! dst_path env opts); cbn;
        rewrite <- !app_assoc, drop_app_length; cbn;
        unfold request_line; by destruct (conditional env opts s).
    + rewrite internal_status_other by done. cbn.
      destruct (numpty env); cbn.
      * destruct (files s !! dst_path env opts) eqn:Hfile; cbn; rewrite ?Hfile; cbn;
          rewrite <- !app_assoc, drop_app_length; cbn;
          unfold request_line; by destruct (conditional env opts s).
      * rewrite <- !app_assoc, drop_app_length; cbn;
          unfold request_line; by destruct (conditional env opts s).
Qed.

Lemma progress_is_silent_witness :
  percents (drop (length (trace Example.empty))
     (trace (snd (download_with_sha
                    (Cases.env_ci (Example.rsp_200 "10" None ["hello"; "world"] false)
                       [false; true])
                    (Example.opts Example.url None) Example.empty)))) = [].
Proof.
  exact (progress_is_silent
           (Cases.env_ci (Example.rsp_200 "10" None ["hello"; "world"] false) [false; true])
           (Example.opts Example.url None) Example.empty (or_introl eq_refl)).
Defined.


(* ===================================================================== *)
(** ** The cache directory *)
(* ===================================================================== *)

Lemma be_bytes_length (n : nat) (x : Z) : length (Sha256.be_bytes n x) = n.
Proof. induction n as [|n IH]; cbn; congruence. Qed.

Lemma be_bytes_range (n : nat) (x b : Z) : b ∈ Sha256.be_bytes n x -> 0 <= b < 256.
Proof.
  induction n as [|n IH]; cbn; [by intros ?%elem_of_nil|].
  intros [->|H]%elem_of_cons; [|by apply IH].
  change 255 with (Z.ones 8). rewrite Z.land_ones by lia.
  apply Z.mod_pos_bound. lia.
Qed.

Lemma digest_bytes (msg : list byte) :
  length (Sha256.digest msg) = 32%nat /\ Forall (fun b => 0 <= b < 256) (Sha256.digest msg).
Proof.
  unfold Sha256.digest. cbn zeta.
  match goal with |- context [Sha256.blocks ?f ?w ?i] => generalize (Sha256.blocks f w i) end.
  intros r. split.
  - cbn [flat_map]. rewrite !length_app, !be_bytes_length. reflexivity.
  - apply Forall_forall. intros b Hb.
    apply list_elem_of_In, in_flat_map in Hb as (x & _ & Hb).
    apply list_elem_of_In in Hb. eapply be_bytes_range; exact Hb.
Qed.

Lemma hex_digit_lower (d : Z) : 0 <= d < 16 -> is_lower_hex (Sha256.hex_digit d) = true.
Proof.
  intros H.
  assert (Hd : d ∈ map Z.of_nat (seq 0 16)).
  { apply list_elem_of_fmap. exists (Z.to_nat d). split; [lia|].
    apply list_elem_of_In, in_seq. lia. }
  cbn in Hd. repeat (apply elem_of_cons in Hd as [->|Hd]; [reflexivity|]).
  by apply elem_of_nil in Hd.
Qed.

Lemma to_hex_shape (bs : list Z) :
  Forall (fun b => 0 <= b < 256) bs ->
  String.length (Sha256.to_hex bs) = (2 * length bs)%nat /\
  forallb is_lower_hex (list_ascii_of_string (Sha256.to_hex bs)) = true.
Proof.
  induction 1 as [|b bs Hb _ [IHl IHc]]; [done|].
  cbn [Sha256.to_hex String.length list_ascii_of_string forallb length].
  rewrite IHl, IHc, !hex_digit_lower.
  - split; [lia|done].
  - change 15 with (Z.ones 4). rewrite Z.land_ones by lia. apply Z.mod_pos_bound. lia.
  - rewrite Z.shiftr_div_pow2 by lia. split; [apply Z.div_pos; lia|].
    apply Z.div_lt_upper_bound; lia.
Qed.

Lemma drop_last_char_app (x : string) (c : ascii) :
  drop_last_char (x +:+ String c "") = x.
Proof.
  induction x as [|a x IH]; [done|].
  change (String a x +:+ String c "") with (String a (x +:+ String c "")).
  destruct x as [|b x]; [done|].
  change (String b x +:+ String c "") with (String b (x +:+ String c "")) in IH |- *.
  change (drop_last_char (String a (String b (x +:+ String c ""))))
    with (String a (drop_last_char (String b (x +:+ String c "")))).
  by rewrite IH.
Qed.

(** X17. The last component of a cache key is always 64 lowercase
    hexadecimal digits, so the key is [prefix/scheme/hostname/hash] with
    the scheme taken from the protocol without its colon, and the marker
    lies directly in it. *)
Theorem cache_key_is_64_hex_digits (env : Env) (url : URL) :
  String.length (hash url) = 64%nat /\
  forallb is_lower_hex (list_ascii_of_string (hash url)) = true /\
  key_path env url = prefix_www env ++ [scheme url; hostname url; hash url] /\
  Path.parent (mtime_path env url) = key_path env url.
Proof.
  assert (H : String.length (hash url) = 64%nat /\
              forallb is_lower_hex (list_ascii_of_string (hash url)) = true).
  { unfold hash. cbn zeta.
    match goal with |- context [Sha256.hex ?m] => generalize m end. intros msg.
    destruct (digest_bytes msg) as [Hl Hr].
    destruct (to_hex_shape _ Hr) as [Tl Tc]. rewrite Hl in Tl. by split. }
  destruct H as [Hl Hc]. split; [exact Hl|]. split; [exact Hc|]. split.
  - unfold key_path, Path.join, protocol. cbn zeta.
    rewrite drop_last_char_app, <- !app_assoc. reflexivity.
  - unfold mtime_path. apply parent_join.
Qed.

Lemma ancestors_prefix (p q : Path.t) : q ∈ Path.ancestors p <-> q `prefix_of` p.
Proof.
  revert q. induction p as [|c p IH]; intros q; cbn.
  - rewrite list_elem_of_singleton. split; [intros ->; done|].
    intros H. by apply prefix_nil_inv in H.
  - rewrite elem_of_cons, list_elem_of_fmap. split.
    + intros [->|(q' & -> & Hq)]; [apply prefix_nil|].
      apply prefix_cons, IH, Hq.
    + intros H. destruct q as [|c' q]; [by left|]. right.
      apply prefix_cons_inv_1 in H as Hc. apply prefix_cons_inv_2 in H. subst c'.
      exists q. split; [done|]. apply IH, H.
Qed.

(** X18. [hash_key] returns the key and makes its directory with all its
    ancestors, and nothing else: the directories afterwards are those of
    before and the prefixes of the key; no file and no event is added;
    and a second call changes nothing (so the memo of line 34 cannot be
    observed). *)
Theorem hash_key_makes_the_directory (env : Env) (url : URL) (s : State) :
  let r := hash_key env url s in
  fst r = Ok (key_path env url) /\
  (forall p, p ∈ dirs (snd r) <-> p ∈ dirs s \/ p `prefix_of` key_path env url) /\
  files (snd r) = files s /\ trace (snd r) = trace s /\
  hash_key env url (snd r) = r.
Proof.
  cbn zeta. rewrite hash_key_run. cbn [fst snd]. split; [done|]. split; [|split; [done|]].
  - intros p. cbn. by rewrite elem_of_union, elem_of_list_to_set, ancestors_prefix.
  - split; [done|]. rewrite hash_key_run. f_equal. unfold set_dirs. cbn. f_equal.
    apply union_twice.
Qed.


(** X19. The key is built from the scheme, the hostname, the pathname and
    the search of the URL (lines 142-151): the port and the fragment play
    no part.  So a URL that differs from a cached one only in them is
    requested with the cached one's If-Modified-Since, and on a 304 the
    call returns the cached one's file. *)
Theorem cache_entry_is_shared_across_ports (env : Env) (u1 u2 : URL) (s : State)
    (rsp : Response) (text : string) (payload : list byte) :
  scheme u2 = scheme u1 -> hostname u2 = hostname u1 ->
  pathname u2 = pathname u1 -> search u2 = search u1 ->
  files s !! mtime_path env u1 = Some (list_byte_of_string text) ->
  files s !! dst_path env (mkOptions u1 None None None) = Some payload ->
  String.eqb (protocol u2) "file:" = false ->
  let opts := mkOptions u2 None None None in
  server env u2 (request_headers env opts s) = Some rsp ->
  status rsp = 304 ->
  key_path env u2 = key_path env u1 /\
  request_headers env opts s !! "If-Modified-Since" = Some text /\
  fst (download env opts s) = Ok (dst_path env (mkOptions u1 None None None)) /\
  fst (download_with_sha env opts s) =
    Ok (dst_path env (mkOptions u1 None None None), Sha256.hex payload).
Proof.
  intros Hs Hh Hp Hq Hmark Hfile Hproto opts Hsrv H304.
  assert (Hk : key_path env u2 = key_path env u1).
  { unfold key_path, hash, protocol. by rewrite Hs, Hh, Hp, Hq. }
  assert (Hd : dst_path env opts = dst_path env (mkOptions u1 None None None)).
  { unfold dst_path, url_path. cbn. by rewrite Hk, Hp. }
  assert (Hm : mtime_path env u2 = mtime_path env u1).
  { unfold mtime_path. by rewrite Hk. }
  split; [exact Hk|].
  assert (Hcond : conditional env opts s = true).
  { unfold conditional, usable_baseline. cbn. rewrite Hm, Hd, Hmark, Hfile. done. }
  split.
  - rewrite request_headers_ims, Hcond. unfold baseline. cbn. rewrite Hm, Hmark.
    by rewrite string_of_list_byte_of_string.
  - rewrite download_with_sha_eq. unfold download. rewrite !internal_sent by done.
    change (request_headers env opts (set_run false (set_digest [] s)))
      with (request_headers env opts s).
    change (opt_src opts) with u2.
    rewrite Hsrv, !internal_status_304 by done. cbn. rewrite Hd, Hfile. done.
Qed.


Lemma cache_entry_is_shared_across_ports_witness :
  let env := Example.env false Example.rsp_304 [] in
  let u1 := Example.url in
  let u2 := Cases.url_port in
  let s := Example.cached Example.url "payload" in
  let opts := mkOptions u2 None None None in
  key_path env u2 = key_path env u1 /\
  request_headers env opts s !! "If-Modified-Since" = Some Example.last_modified /\
  fst (download env opts s) = Ok (dst_path env (mkOptions u1 None None None)) /\
  fst (download_with_sha env opts s) =
    Ok (dst_path env (mkOptions u1 None None None), Sha256.hex (Example.bytes "payload")).
Proof.
  apply (cache_entry_is_shared_across_ports (Example.env false Example.rsp_304 [])
           Example.url Cases.url_port (Example.cached Example.url "payload")
           Example.rsp_304 Example.last_modified (Example.bytes "payload"));
    reflexivity.
Defined.


(* ===================================================================== *)
(** ** Numbers as text: Content-Length, sizes and percentages *)
(* ===================================================================== *)

Lemma digit_cases (r : Z) :
  0 <= r < 10 -> r ∈ [0; 1; 2; 3; 4; 5; 6; 7; 8; 9].
Proof.
  intros H.
  assert (Hd : r ∈ map Z.of_nat (seq 0 10)).
  { apply list_elem_of_fmap. exists (Z.to_nat r). split; [lia|].
    apply list_elem_of_In, in_seq. lia. }
  exact Hd.
Qed.

Ltac each_digit H :=
  apply digit_cases in H; cbn in H;
  repeat (apply elem_of_cons in H as [->|H]); [..|by apply elem_of_nil in H].

Lemma digit_value_char (r : Z) :
  0 <= r < 10 ->
  digit_value 10 (digit_char r) = Some r /\ is_decimal_digit (digit_char r) = true /\
  is_space (digit_char r) = false.
Proof. intros H. each_digit H; done. Qed.

Lemma decimal_digits_parse (fuel : nat) (n : Z) (acc : string) (a : option Z) :
  0 <= n < 2 ^ (Z.of_nat fuel + 1) ->
  exists k, parse_digits 10 (decimal_digits fuel n acc) a =
            parse_digits 10 acc (Some (default 0 a * 10 ^ k + n)) /\ 0 < k.
Proof.
  revert n acc a. induction fuel as [|fuel IH]; intros n acc a Hn;
    cbn [decimal_digits]; fold (digit_char (n mod 10)).
  - exists 1. split; [|lia]. cbn [parse_digits].
    assert (Hn10 : 0 <= n < 10) by (cbn in Hn; lia).
    rewrite Z.mod_small by done.
    destruct (digit_value_char n Hn10) as (-> & _). do 2 f_equal. lia.
  - assert (Hr : 0 <= n mod 10 < 10) by (apply Z.mod_pos_bound; lia).
    destruct (digit_value_char _ Hr) as (Hv & _).
    destruct (Z.eqb_spec (n / 10) 0) as [Hz|Hz].
    + exists 1. split; [|lia]. cbn [parse_digits]. rewrite Hv. do 2 f_equal.
      pose proof (Z.div_mod n 10 ltac:(lia)). lia.
    + destruct (IH (n / 10) (String (digit_char (n mod 10)) acc) a) as (k & E & Hk).
      { split; [apply Z.div_pos; lia|].
        apply Z.div_lt_upper_bound; [lia|].
        replace (Z.of_nat (S fuel) + 1) with (Z.succ (Z.of_nat fuel + 1)) in Hn by lia.
        rewrite Z.pow_succ_r in Hn by lia. lia. }
      exists (k + 1). split; [|lia]. rewrite E. cbn [parse_digits]. rewrite Hv.
      do 2 f_equal. cbn [default]. rewrite Z.pow_add_r by lia.
      pose proof (Z.div_mod n 10 ltac:(lia)). unfold id. lia.
Qed.

Lemma decimal_digits_shape (fuel : nat) (n : Z) (acc : string) :
  0 <= n ->
  exists r rest, 0 <= r < 10 /\ decimal_digits fuel n acc = String (digit_char r) rest /\
    (forallb is_decimal_digit (list_ascii_of_string acc) = true ->
     forallb is_decimal_digit (list_ascii_of_string rest) = true).
Proof.
  revert n acc. induction fuel as [|fuel IH]; intros n acc Hn;
    cbn [decimal_digits]; fold (digit_char (n mod 10)).
  - exists (n mod 10), acc. split; [apply Z.mod_pos_bound; lia|done].
  - destruct (n / 10 =? 0).
    + exists (n mod 10), acc. split; [apply Z.mod_pos_bound; lia|done].
    + destruct (IH (n / 10) (String (digit_char (n mod 10)) acc)) as (r & rest & Hr & E & Hall).
      { apply Z.div_pos; lia. }
      exists r, rest. split; [done|]. split; [done|]. intros Hacc. apply Hall.
      cbn [list_ascii_of_string forallb]. rewrite Hacc.
      assert (Hm : 0 <= n mod 10 < 10) by (apply Z.mod_pos_bound; lia).
      by destruct (digit_value_char _ Hm) as (_ & -> & _).
Qed.

Lemma log2_fuel (n : Z) : 0 <= n -> 0 <= n < 2 ^ (Z.of_nat (Z.to_nat (Z.log2 n)) + 1).
Proof.
  intros Hn. split; [done|].
  destruct (Z.eq_dec n 0) as [->|Hz]; [done|].
  rewrite Z2Nat.id by apply Z.log2_nonneg.
  pose proof (Z.log2_spec n ltac:(lia)). rewrite <- Z.add_1_r in *. lia.
Qed.

Ltac parse_eval :=
  repeat match goal with
         | |- context [digit_char ?k] =>
             let c := eval vm_compute in (digit_char k) in change (digit_char k) with c
         end;
  cbn [trim_start];
  repeat match goal with
         | |- context [is_space (Ascii ?a ?b ?c ?d ?e ?f ?g ?h)] =>
             let v := eval vm_compute in (is_space (Ascii a b c d e f g h)) in
             change (is_space (Ascii a b c d e f g h)) with v
         end;
  cbn [trim_start];
  repeat match goal with
         | |- context [is_space (Ascii ?a ?b ?c ?d ?e ?f ?g ?h)] =>
             let v := eval vm_compute in (is_space (Ascii a b c d e f g h)) in
             change (is_space (Ascii a b c d e f g h)) with v
         end;
  cbv beta iota zeta.

(** Reading digits that start with a decimal digit and go on with decimal
    digits: no space to skip, no sign, no "0x". *)
Lemma parseInt_digits (r : Z) (rest : string) :
  0 <= r < 10 ->
  forallb is_decimal_digit (list_ascii_of_string rest) = true ->
  parseInt (String (digit_char r) rest) =
    match parse_digits 10 (String (digit_char r) rest) None with
    | Some v => number v
    | None => nan
    end /\
  parseInt (String "-" (String (digit_char r) rest)) =
    match parse_digits 10 (String (digit_char r) rest) None with
    | Some v => (- number v)%float
    | None => nan
    end.
Proof.
  intros Hr Hrest.
  assert (Hx : forall c s, rest = String c s -> is_decimal_digit c = true).
  { intros c s ->. cbn in Hrest. by apply andb_true_iff in Hrest as [? _]. }
  unfold parseInt. each_digit Hr; parse_eval; try (split; reflexivity).
  destruct rest as [|c s]; [done|].
  specialize (Hx c s eq_refl).
  destruct c as [[] [] [] [] [] [] [] []]; try discriminate Hx; parse_eval;
    split; reflexivity.
Qed.

(** [parseInt] of an integer written in decimal is the double nearest to
    it. *)
Lemma parseInt_decimal (n : Z) :
  parseInt (decimal n) = if n <? 0 then (- number (- n))%float else number n.
Proof.
  unfold decimal. destruct (Z.ltb_spec n 0) as [Hneg|Hpos].
  - destruct (decimal_digits_shape (Z.to_nat (Z.log2 (- n))) (- n) "") as
      (r & rest & Hr & E & Hall); [lia|].
    destruct (decimal_digits_parse (Z.to_nat (Z.log2 (- n))) (- n) "" None)
      as (k & P & _); [apply log2_fuel; lia|].
    rewrite E in P |- *.
    change ("-" +:+ String (digit_char r) rest) with (String "-" (String (digit_char r) rest)).
    destruct (parseInt_digits r rest Hr (Hall eq_refl)) as [_ ->].
    rewrite P. cbn. reflexivity.
  - destruct (decimal_digits_shape (Z.to_nat (Z.log2 n)) n "") as
      (r & rest & Hr & E & Hall); [lia|].
    destruct (decimal_digits_parse (Z.to_nat (Z.log2 n)) n "" None)
      as (k & P & _); [apply log2_fuel; lia|].
    rewrite E in P |- *.
    destruct (parseInt_digits r rest Hr (Hall eq_refl)) as [-> _].
    rewrite P. cbn. reflexivity.
Qed.

(** A positive integer below 2^53 is a double, and [chuzzle] keeps it. *)
Lemma chuzzle_number (n : Z) : 0 < n < 2 ^ 53 -> chuzzle (number n) = Some n.
Proof.
  intros Hn. destruct (number_holds n Hn) as (m & e & Hx & _ & He & Hv).
  rewrite Z.mul_0_r, Z.add_0_r in He, Hv.
  unfold chuzzle. rewrite Hx.
  destruct (Z.leb_spec 0 e) as [H0|H0].
  - assert (e = 0) by lia. subst e. cbn in Hv. f_equal. cbn. lia.
  - assert (Hp : 0 < 2 ^ (- e)) by (apply Z.pow_pos_nonneg; lia).
    rewrite Hv, Z.mod_mul, Z.div_mul by lia. reflexivity.
Qed.

Lemma declared_size_decimal (rsp : Response) (n : Z) :
  0 < n < 2 ^ 53 ->
  rsp_headers rsp !! "Content-Length" = Some (decimal n) ->
  declared_size rsp = Some n.
Proof.
  intros Hn Hlen. unfold declared_size. rewrite Hlen. cbn [default]. unfold id.
  rewrite parseInt_decimal. destruct (Z.ltb_spec n 0); [lia|].
  by apply chuzzle_number.
Qed.

(** A size beyond 2^53 is read as the double nearest to it. *)
Example declared_size_examples :
  map (fun text => declared_size (mkResponse 200 (<["Content-Length" := text]> ∅) None))
      ["1048576"; "9007199254740993"; "0"; "-7"; "12.5"; "abc"] =
  [Some 1048576; Some 9007199254740992; None; None; Some 12; None].
Proof. vm_compute. reflexivity. Qed.

(** X20. A Content-Length that is a positive integer below 2^53 written
    in decimal is read back as that integer (line 63): the decimal digits
    give the integer, which is a double, and [chuzzle] keeps it. *)
Theorem content_length_is_read_back (rsp : Response) (n : Z) :
  0 < n < 2 ^ 53 ->
  rsp_headers rsp !! "Content-Length" = Some (decimal n) ->
  parseInt (decimal n) = number n /\ declared_size rsp = Some n.
Proof.
  intros Hn Hlen. split; [|by apply declared_size_decimal].
  rewrite parseInt_decimal. destruct (Z.ltb_spec n 0); [lia|done].
Qed.

Lemma content_length_is_read_back_witness :
  parseInt (decimal 1048576) = number 1048576 /\
  declared_size (Example.rsp_200 "1048576" None ["hello"] false) = Some 1048576.
Proof.
  apply (content_length_is_read_back (Example.rsp_200 "1048576" None ["hello"] false)
           1048576); [lia|reflexivity].
Defined.

Lemma div_1024_holds (x : float) (sz i : Z) :
  0 <= i <= 90 -> holds x sz i -> holds (x / 1024) sz (i + 1).
Proof.
  intros Hi (m & e & Hx & Hm & He & Hv).
  exists m, (e - 10). rewrite (div_1024 x m e) by (done || lia).
  split; [done|]. split; [done|]. split; [lia|].
  rewrite Hv. do 2 f_equal. lia.
Qed.

(** Two positive doubles of 53 bits compare as their values do. *)
Lemma ltb_canonical (x y : float) (mx my : positive) (ex ey : Z) :
  Prim2SF x = S754_finite false mx ex -> Prim2SF y = S754_finite false my ey ->
  digits2_pos mx = 53%positive -> digits2_pos my = 53%positive ->
  -1074 <= ex -> -1074 <= ey ->
  (x <? y)%float = (Z.pos mx * 2 ^ (ex + 1074) <? Z.pos my * 2 ^ (ey + 1074)).
Proof.
  intros Hx Hy Hmx Hmy Hex Hey. rewrite ltb_spec, Hx, Hy.
  apply digits2_53 in Hmx, Hmy. unfold SFltb, SFcompare.
  destruct (Z.compare_spec ex ey) as [->|Hlt|Hgt].
  - assert (0 < 2 ^ (ey + 1074)) by (apply Z.pow_pos_nonneg; lia).
    rewrite Pos.compare_cont_spec. cbn [Pos.switch_Eq].
    destruct (Pos.compare_spec mx my) as [->|Hc|Hc]; symmetry.
    + apply Z.ltb_irrefl.
    + apply Z.ltb_lt. nia.
    + apply Z.ltb_ge. nia.
  - symmetry. apply Z.ltb_lt.
    replace (ey + 1074) with ((ex + 1074) + (ey - ex)) by lia.
    rewrite (Z.pow_add_r 2 (ex + 1074) (ey - ex)) by lia.
    assert (HA : 0 < 2 ^ (ex + 1074)) by (apply Z.pow_pos_nonneg; lia).
    assert (HB : 2 ^ 1 <= 2 ^ (ey - ex)) by (apply Z.pow_le_mono_r; lia).
    generalize dependent (2 ^ (ex + 1074)). generalize dependent (2 ^ (ey - ex)).
    intros B HB A HA.
    assert (Z.pos mx * A < 2 ^ 53 * A) by nia.
    assert (2 * A <= A * B) by nia.
    assert (2 ^ 52 * (A * B) <= Z.pos my * (A * B)) by nia.
    lia.
  - symmetry. apply Z.ltb_ge.
    replace (ex + 1074) with ((ey + 1074) + (ex - ey)) by lia.
    rewrite (Z.pow_add_r 2 (ey + 1074) (ex - ey)) by lia.
    assert (HA : 0 < 2 ^ (ey + 1074)) by (apply Z.pow_pos_nonneg; lia).
    assert (HB : 2 ^ 1 <= 2 ^ (ex - ey)) by (apply Z.pow_le_mono_r; lia).
    generalize dependent (2 ^ (ey + 1074)). generalize dependent (2 ^ (ex - ey)).
    intros B HB A HA.
    assert (Z.pos my * A < 2 ^ 53 * A) by nia.
    assert (2 * A <= A * B) by nia.
    assert (2 ^ 52 * (A * B) <= Z.pos mx * (A * B)) by nia.
    lia.
Qed.

Lemma pow_1024 (i : Z) : 0 <= i -> 1024 ^ i = 2 ^ (10 * i).
Proof. intros Hi. change 1024 with (2 ^ 10). by rewrite <- Z.pow_mul_r by lia. Qed.

Lemma ltb_holds (x y : float) (a b i j : Z) :
  holds x a i -> holds y b j -> 0 <= i <= 50 -> 0 <= j <= 50 ->
  (x <? y)%float = (a * 1024 ^ j <? b * 1024 ^ i).
Proof.
  intros (mx & ex & Hx & Hmx & Hex & Hvx) (my & ey & Hy & Hmy & Hey & Hvy) Hi Hj.
  rewrite (ltb_canonical x y mx my ex ey) by (done || lia).
  rewrite Hvx, Hvy, !pow_1024 by lia.
  set (t := 2 ^ (1074 - 10 * i - 10 * j)).
  assert (Ht : 0 < t) by (apply Z.pow_pos_nonneg; lia).
  assert (Ha : a * 2 ^ (- (ex + 10 * i)) * 2 ^ (ex + 1074) = (a * 2 ^ (10 * j)) * t).
  { unfold t. rewrite <- !Z.mul_assoc, <- !Z.pow_add_r by lia. do 2 f_equal. lia. }
  assert (Hb : b * 2 ^ (- (ey + 10 * j)) * 2 ^ (ey + 1074) = (b * 2 ^ (10 * i)) * t).
  { unfold t. rewrite <- !Z.mul_assoc, <- !Z.pow_add_r by lia. do 2 f_equal. lia. }
  rewrite Ha, Hb.
  destruct (Z.ltb_spec (a * 2 ^ (10 * j)) (b * 2 ^ (10 * i))).
  - apply Z.ltb_lt. nia.
  - apply Z.ltb_ge. nia.
Qed.


Lemma unit_of_le (fuel : nat) (sz : Z) (i : nat) :
  (i <= 4 -> i <= unit_of fuel sz i <= 4)%nat.
Proof.
  revert i. induction fuel as [|fuel IH]; intros i Hi; cbn [unit_of]; [lia|].
  destruct (1024 ^ Z.of_nat (S i) <? sz); cbn [andb]; [|lia].
  change (length units - 1)%nat with 4%nat.
  destruct (Nat.ltb_spec i 4); [|lia].
  specialize (IH (S i)). lia.
Qed.

Lemma literal_holds (c : Z) (x : float) :
  0 < c < 2 ^ 53 -> x = number c -> holds x c 0.
Proof. intros Hc ->. by apply number_holds. Qed.

Lemma pretty_loop_holds (fuel : nat) (x : float) (sz : Z) (i : nat) :
  holds x sz (Z.of_nat i) -> (i + fuel <= 40)%nat ->
  exists x', pretty_loop fuel x i = (x', unit_of fuel sz i) /\
             holds x' sz (Z.of_nat (unit_of fuel sz i)).
Proof.
  revert x i. induction fuel as [|fuel IH]; intros x i Hx Hi; cbn [pretty_loop unit_of].
  - by exists x.
  - rewrite (ltb_holds 1024 x 1024 sz 0 (Z.of_nat i)); try done; try lia.
    2:{ apply literal_holds; [lia|reflexivity]. }
    replace (1024 * 1024 ^ Z.of_nat i) with (1024 ^ Z.of_nat (S i)).
    2:{ rewrite Nat2Z.inj_succ, Z.pow_succ_r by lia. done. }
    rewrite Z.pow_0_r, Z.mul_1_r.
    destruct ((1024 ^ Z.of_nat (S i) <? sz) && (i <? length units - 1)%nat).
    + apply IH; [|lia]. rewrite Nat2Z.inj_succ. apply div_1024_holds; [lia|done].
    + by exists x.
Qed.

Lemma holds_small (x : float) (sz i : Z) (m : positive) (e : Z) :
  0 <= i -> 0 < sz < 2 ^ 53 ->
  Prim2SF x = S754_finite false m e -> holds x sz i ->
  at_least_1e21 m e = false /\
  forall f, scaled m e f = (2 * sz * 10 ^ Z.of_nat f + 1024 ^ i) / (2 * 1024 ^ i).
Proof.
  intros Hi Hsz Hx (m' & e' & Hx' & Hm & He & Hv).
  rewrite Hx in Hx'. injection Hx' as <- <-.
  apply digits2_53 in Hm. rewrite pow_1024 by done.
  unfold at_least_1e21, scaled.
  destruct (Z.leb_spec 0 e) as [He0|He0].
  - assert (e = 0) by lia. assert (i = 0) by lia. subst e i.
    change (2 ^ (- (0 + 10 * 0))) with 1 in Hv. change (2 ^ (10 * 0)) with 1.
    change (2 ^ 0) with 1. rewrite Z.mul_1_r in Hv. rewrite Hv, !Z.mul_1_r.
    split; [apply Z.leb_gt; lia|].
    intros f. apply Z.div_unique with (r := 1); lia.
  - assert (0 < 2 ^ (- e)) by (apply Z.pow_pos_nonneg; lia).
    split; [apply Z.leb_gt; nia|].
    intros f. cbn zeta. rewrite Hv.
    set (k := - (e + 10 * i)).
    assert (Hk : 2 ^ (- e) = 2 ^ k * 2 ^ (10 * i)).
    { rewrite <- Z.pow_add_r by lia. f_equal. lia. }
    rewrite Hk.
    replace (2 * (sz * 2 ^ k * 10 ^ Z.of_nat f) + 2 ^ k * 2 ^ (10 * i))
      with (2 ^ k * (2 * sz * 10 ^ Z.of_nat f + 2 ^ (10 * i))) by ring.
    replace (2 * (2 ^ k * 2 ^ (10 * i))) with (2 ^ k * (2 * 2 ^ (10 * i))) by ring.
    apply Z.div_mul_cancel_l.
    + assert (0 < 2 ^ (10 * i)) by (apply Z.pow_pos_nonneg; lia). lia.
    + assert (0 < 2 ^ k) by (apply Z.pow_pos_nonneg; lia). lia.
Qed.

Lemma unit_of_index (sz : Z) : unit_of (length units) sz 0 = unit_index sz.
Proof.
  unfold unit_index. cbn [length units unit_of].
  change (4 + 1 - 1)%nat with 4%nat.
  repeat match goal with
         | |- context [(?a <? ?b)%nat] =>
             let v := eval vm_compute in (a <? b)%nat in change (a <? b)%nat with v
         | |- context [1024 ^ Z.of_nat ?k] =>
             let v := eval vm_compute in (1024 ^ Z.of_nat k) in
             change (1024 ^ Z.of_nat k) with v
         | |- context [1024 ^ ?k] =>
             let v := eval vm_compute in (1024 ^ k) in change (1024 ^ k) with v
         end.
  repeat match goal with
         | |- context [?a <? ?b] => destruct (Z.ltb_spec a b)
         | |- context [?a <=? ?b] => destruct (Z.leb_spec a b)
         end; cbn [andb]; try reflexivity; lia.
Qed.


(** [pretty_size] on a size below 2^53: the doubles of the loop stand for
    the size divided by the powers of 1024 without error, they compare as
    the integers do, and [toFixed] rounds the exact quotient. *)
Lemma pretty_size_number (sz : Z) :
  0 < sz < 2 ^ 53 ->
  pretty_size (number sz) = pretty_spec_at (unit_of (length units) sz 0) sz.
Proof.
  intros Hsz. unfold pretty_size, pretty_spec_at.
  destruct (pretty_loop_holds (length units) (number sz) sz 0) as (x & -> & Hx).
  { by apply number_holds. }
  { cbn. lia. }
  set (i := unit_of (length units) sz 0) in *.
  assert (Hi : (i <= 4)%nat) by (apply unit_of_le; lia).
  rewrite (ltb_holds x 10 sz 10 (Z.of_nat i) 0); try done; try lia.
  2:{ apply literal_holds; [lia|reflexivity]. }
  rewrite (ltb_holds x 100 sz 100 (Z.of_nat i) 0); try done; try lia.
  2:{ apply literal_holds; [lia|reflexivity]. }
  rewrite Z.pow_0_r, Z.mul_1_r.
  pose proof Hx as (m & e & Hp & _).
  destruct (holds_small x sz (Z.of_nat i) m e) as [Hbig Hsc]; try done; try lia.
  unfold toFixed. rewrite Hp, Hbig, Hsc. reflexivity.
Qed.

(** X21. For every size below 2^53 bytes, the double computation of
    [pretty_size] (the comparisons with 1024, 10 and 100, the divisions by
    1024 and [toFixed]) gives exactly the text of [pretty_spec]: the unit
    by the powers of 1024, a size of exactly 1024^k staying in the unit
    below, and the number rounded from the exact quotient. *)
Theorem pretty_size_is_exact (sz : Z) :
  0 < sz < 2 ^ 53 -> pretty_size (number sz) = pretty_spec sz.
Proof.
  intros Hsz. rewrite pretty_size_number by done.
  unfold pretty_spec. f_equal. apply unit_of_index.
Qed.

Lemma pretty_size_is_exact_witness : pretty_size (number 1536) = pretty_spec 1536.
Proof. apply (pretty_size_is_exact 1536). lia. Defined.

(** The loop stops by itself: more fuel changes nothing, and the index
    stays within [units]. *)
Lemma pretty_loop_stops (fuel : nat) (x : float) (i : nat) :
  (i <= 4)%nat -> (4 - i <= fuel)%nat ->
  pretty_loop (S fuel) x i = pretty_loop fuel x i /\
  (snd (pretty_loop fuel x i) <= 4)%nat.
Proof.
  revert x i. induction fuel as [|fuel IH]; intros x i Hi Hf.
  - assert (i = 4)%nat by lia. subst i. cbn [pretty_loop].
    change (4 <? length units - 1)%nat with false. rewrite andb_false_r.
    split; [reflexivity|]. cbn [snd]. lia.
  - change (pretty_loop (S (S fuel)) x i)
      with (if (1024 <? x)%float && (i <? length units - 1)%nat
            then pretty_loop (S fuel) (x / 1024)%float (S i) else (x, i)).
    change (pretty_loop (S fuel) x i)
      with (if (1024 <? x)%float && (i <? length units - 1)%nat
            then pretty_loop fuel (x / 1024)%float (S i) else (x, i)).
    destruct (1024 <? x)%float; cbn [andb]; [|split; [reflexivity|cbn [snd]; lia]].
    change (length units - 1)%nat with 4%nat.
    destruct (Nat.ltb_spec i 4); [|split; [reflexivity|cbn [snd]; lia]].
    apply IH; lia.
Qed.

(** X22. The loop of [pretty_size] stops within four rounds whatever the
    number (more fuel changes nothing), so the text always ends with a
    space and one of the five units: a size beyond 1024 TiB is given in
    TiB. *)
Theorem pretty_size_unit_is_in_range (x : float) (fuel : nat) :
  pretty_loop (length units + fuel) x 0 = pretty_loop (length units) x 0 /\
  exists digits u, pretty_size x = digits +:+ " " +:+ u /\ u ∈ units.
Proof.
  split.
  - induction fuel as [|fuel IH]; [by rewrite Nat.add_0_r|].
    rewrite <- IH. replace (length units + S fuel)%nat with (S (length units + fuel)) by lia.
    apply pretty_loop_stops; cbn; lia.
  - unfold pretty_size.
    destruct (pretty_loop_stops (length units) x 0) as [_ Hi]; [lia|cbn; lia|].
    destruct (pretty_loop (length units) x 0) as [n i]. cbn [snd] in Hi.
    eexists _, _. split; [reflexivity|].
    apply list_elem_of_In, nth_In. cbn. lia.
Qed.

(** X23. From 100 to 1024 bytes the size is shown as the exact count of
    bytes. *)
Theorem bytes_are_shown_exactly (sz : Z) :
  100 <= sz <= 1024 -> pretty_size (number sz) = decimal sz +:+ " B".
Proof.
  intros Hsz. rewrite pretty_size_number, unit_of_index by lia.
  assert (Hi : unit_index sz = 0%nat).
  { unfold unit_index. destruct (Z.leb_spec sz 1024); [done|lia]. }
  unfold pretty_spec_at. rewrite Hi. cbn zeta. change (1024 ^ Z.of_nat 0) with 1.
  rewrite (proj2 (Z.ltb_ge sz (10 * 1))), (proj2 (Z.ltb_ge sz (100 * 1))) by lia.
  change (10 ^ Z.of_nat 0) with 1.
  replace ((2 * sz * 1 + 1) / (2 * 1)) with sz; [reflexivity|].
  apply Z.div_unique with (r := 1); lia.
Qed.

Lemma bytes_are_shown_exactly_witness :
  pretty_size (number 512) = decimal 512 +:+ " B".
Proof. apply (bytes_are_shown_exactly 512). lia. Defined.

Example pretty_size_examples :
  map (fun sz => pretty_size (number sz))
      [1; 10; 1023; 1024; 1025; 1536; 10239; 1048576; 1048577; 123456789;
       1099511627776; 1099511627777; 1125899906842625] =
  ["1.00 B"; "10.0 B"; "1023 B"; "1024 B"; "1.00 KiB"; "1.50 KiB"; "10.00 KiB";
   "1024 KiB"; "1.00 MiB"; "118 MiB"; "1024 GiB"; "1.00 TiB"; "1024 TiB"].
Proof. vm_compute. reflexivity. Qed.

(** X24. The percentages of a call are as many as the reads of the body:
    one for each chunk when every chunk has bytes and fits the 32 KiB
    buffer of [copy], and more when a chunk is longer.  When the body has
    exactly the declared length the last percentage shown is 100, in the
    double arithmetic of line 119 and however the body is cut. *)
Theorem full_body_ends_at_100 (env : Env) (opts : DownloadOptions) (s : State)
    (rsp : Response) (st : Stream) (sz : Z) :
  String.eqb (protocol (opt_src opts)) "file:" = false ->
  server env (opt_src opts) (request_headers env opts s) = Some rsp ->
  status rsp = 200 ->
  rsp_body rsp = Some st ->
  broken st = false ->
  openable env opts s ->
  declared_size rsp = Some sz ->
  sz < 2 ^ 53 ->
  truthy_opt (CI env) = false ->
  Z.of_nat (length (concat (taken st))) = sz ->
  let ps := percents (drop (length (trace s))
                           (trace (snd (download_with_sha env opts s)))) in
  length ps = length (taken st) /\
  (Forall (fun c => c <> [] /\ (length c <= bufSize)%nat) (chunks st) ->
   length ps = length (chunks st)) /\
  List.last ps 0 = 100.
Proof.
  intros Hproto Hrsp Hst Hbody Hfail Hopen Hsz Hbig Hci Hlen ps.
  pose proof (declared_size_pos rsp sz Hsz) as Hpos.
  assert (Hps : ps = map (fun n => percent n sz) (byte_counts 0 (taken st)))
    by (by apply (percents_shown env opts s rsp st sz)).
  assert (Hcount : forall n cs, length (byte_counts n cs) = length cs).
  { intros n cs. revert n. induction cs as [|c cs IH]; intros n; cbn; [done|]. by rewrite IH. }
  assert (Hn : length ps = length (taken st)) by (by rewrite Hps, length_map, Hcount).
  split; [exact Hn|]. split.
  { intros Hfit. rewrite Hn. unfold taken, readerFromStreamReader. cbn [reads].
    by rewrite reader_reads_small. }
  assert (Hne : taken st <> []).
  { intros Hnil. rewrite Hnil in Hlen. cbn in Hlen. lia. }
  destruct (byte_counts_whole (taken st) Hne) as [Hlast _]. rewrite Hlen in Hlast.
  rewrite Hps. destruct (byte_counts 0 (taken st)) as [|c cs] eqn:Hcs.
  { cbn in Hlast. lia. }
  change (map ?f (c :: cs)) with (f c :: map f cs).
  rewrite last_cons_default, (last_map (fun n => percent n sz) cs c).
  rewrite <- (last_cons_default c 0), Hlast.
  apply percent_100; lia.
Qed.

(** A body of one chunk of 40000 bytes: two reads, of 32768 and of 7232
    bytes, and two percentages, 82 and 100. *)
Lemma full_body_ends_at_100_witness :
  let st := mkStream [repeat "x"%byte (Z.to_nat 40000)] false in
  let rsp := mkResponse 200 (<["Content-Length" := "40000"]> ∅) (Some st) in
  let env := Example.env false rsp [false; true] in
  let opts := Example.opts Example.url None in
  let s := Example.empty in
  let ps := percents (drop (length (trace s))
                           (trace (snd (download_with_sha env opts s)))) in
  length ps = length (taken st) /\
  (Forall (fun c => c <> [] /\ (length c <= bufSize)%nat) (chunks st) ->
   length ps = length (chunks st)) /\
  List.last ps 0 = 100.
Proof.
  intros st rsp env opts s.
  apply (full_body_ends_at_100 env opts s rsp st 40000).
  - reflexivity.
  - reflexivity.
  - reflexivity.
  - reflexivity.
  - vm_compute. reflexivity.
  - by left.
  - vm_compute. reflexivity.
  - reflexivity.
  - reflexivity.
  - vm_compute. reflexivity.
Defined.

Example two_percentages_for_one_chunk :
  let st := mkStream [repeat "x"%byte (Z.to_nat 40000)] false in
  map (fun n => percent n 40000) (byte_counts 0 (taken st)) = [82; 100].
Proof. vm_compute. reflexivity. Qed.


Lemma trace_grows {A} (m : M A) (s : State) :
  no_fetch m -> exists t, trace (snd (m s)) = trace s ++ t.
Proof. intros H. destruct (H s) as (t & Ht & _). by exists t. Qed.

(** X25. For a 200 whose Content-Length is the decimal of [n], the line
    logged after the request (lines 63-67) reads "downloading" followed by
    the size as [pretty_spec] gives it, whatever happens to the body
    afterwards. *)
Theorem size_line_reads_the_content_length {T} (env : Env) (opts : DownloadOptions)
    (body : Stream -> Path.t -> option Z -> M T) (s : State) (rsp : Response) (n : Z) :
  (forall st d sz, no_fetch (body st d sz)) ->
  String.eqb (protocol (opt_src opts)) "file:" = false ->
  server env (opt_src opts) (request_headers env opts s) = Some rsp ->
  status rsp = 200 ->
  rsp_headers rsp !! "Content-Length" = Some (decimal n) ->
  0 < n < 2 ^ 53 ->
  exists l t,
    trace (snd (internal env opts body s)) =
      trace s ++ [EvLog (request_line env opts s);
                  EvFetch (opt_src opts) (request_headers env opts s);
                  EvLog l] ++ t /\
    l = LogDownloading (Some n) /\
    line_text l = "downloading " +:+ pretty_spec n.
Proof.
  intros Hbody Hproto Hsrv H200 Hlen Hn.
  assert (Hsz : declared_size rsp = Some n) by (by apply declared_size_decimal).
  exists (LogDownloading (Some n)).
  assert (Htext : line_text (LogDownloading (Some n)) = "downloading " +:+ pretty_spec n).
  { cbn [line_text]. rewrite pretty_size_number by done.
    unfold pretty_spec. by rewrite unit_of_index. }
  rewrite internal_sent, Hsrv, internal_status_200 by done. cbn zeta. rewrite Hsz.
  destruct (rsp_body rsp) as [st|].
  2:{ exists []. cbn. rewrite <- !app_assoc. done. }
  destruct (bool_decide _).
  2:{ exists []. cbn. rewrite <- !app_assoc. done. }
  match goal with |- context [body st ?d ?z ?s0] =>
    destruct (trace_grows (body st d z) s0 (Hbody st d z)) as (tb & Htb);
    destruct (body st d z s0) as [[x|e] s4]
  end; cbn [snd] in Htb.
  - rewrite record_marker_run.
    destruct (marked_files env (opt_src opts) rsp s4) as (_ & Htm & _).
    exists ([EvOpen (dst_path env opts)] ++ tb ++
            marker_events env (opt_src opts) (marker_text rsp) ++
            [EvClose (dst_path env opts)]).
    cbn [snd fst]. split; [|done]. cbn [trace emit]. rewrite Htm, Htb. cbn.
    rewrite <- !app_assoc. done.
  - exists ([EvOpen (dst_path env opts)] ++ tb ++ [EvClose (dst_path env opts)]).
    cbn [snd fst]. split; [|done]. cbn [trace emit]. rewrite Htb. cbn.
    rewrite <- !app_assoc. done.
Qed.

Lemma size_line_reads_the_content_length_witness :
  exists l t,
    trace (snd (internal (Example.env false (Example.rsp_200 "1536" None ["hello"] false) [])
                  (Example.opts Example.url None)
                  (fun src dst _ => copy (readerFromStreamReader src) dst)
                  Example.empty)) =
      trace Example.empty ++
      [EvLog (request_line (Example.env false (Example.rsp_200 "1536" None ["hello"] false) [])
                (Example.opts Example.url None) Example.empty);
       EvFetch (opt_src (Example.opts Example.url None))
         (request_headers (Example.env false (Example.rsp_200 "1536" None ["hello"] false) [])
            (Example.opts Example.url None) Example.empty);
       EvLog l] ++ t /\
    l = LogDownloading (Some 1536) /\
    line_text l = "downloading " +:+ pretty_spec 1536.
Proof.
  apply (size_line_reads_the_content_length
           (Example.env false (Example.rsp_200 "1536" None ["hello"] false) [])
           (Example.opts Example.url None)
           (fun src dst _ => copy (readerFromStreamReader src) dst)
           Example.empty (Example.rsp_200 "1536" None ["hello"] false) 1536);
    try reflexivity.
  - intros st d sz. apply no_fetch_copy.
  - lia.
Defined.
